(* ===== verification/_CoqProject ===== *)
-Q . S2P
Prelude.v
GoStrings.v
GoInt.v
GoFloat.v
GoFloatFormat.v
GoFloatConv.v
GoFloatLimit.v
Fiber.v
Rules.v
Fixtures.v
Validator.v
ValidationSpec.v
Machine.v
Concurrent.v
Pagination.v
Stateless.v
GoImage.v
