(* ===== verification/Prelude.v ===== *)
(** * igg-golang-api-utils: a verification development

    The repository is a Go package [utils] of two files for Fiber HTTP
    services:

    - [src/utils/validator.go]: the request validation middleware
      [ValidateStruct], which decodes the body into a typed value, runs the
      struct-tag validator over it, checks every declared upload against an
      extension allow-list, a size ceiling and an exact image resolution
      (the methods [File] and [Resolution] of [Rule]), merges all violations
      into one ordered list of [ErrorResponse] and either answers with the
      failure envelope or stores the value under the local ["request"] and
      calls the next handler;
    - [src/utils/pagination.go]: [GetPagination], which reads [page],
      [per_page], [order_field] and [order_direction] from the query string
      and returns a [RespPagination] or an error.

    ** Files, in dependency order

    - [Prelude] (this file): the Go run-time notions every component shares:
      the outcome [go] of a computation that may panic, the state monad [M]
      over it with stdpp's [x ← m; k] notation, the loop with early return
      [foldM_break], Go [error] values ([errors.New], [fiber.NewError]) with
      the sum monad for [(value, error)] returns, the tactics [msimpl] and
      [go_crush], the hint database [go] and lemmas on strings.
    - [GoStrings]: [lo.Contains], [strings.Join] and [filepath.Ext] as
      executable functions on [string] (a Go string is a byte sequence, a
      Rocq [string] a sequence of 8-bit [ascii]), with their specifications.
    - [GoInt]: Go's [int] at 64 bits as [Z] with the wrap-around [wrap]
      written out, [strconv.Atoi], the verb [%d], their round trip and the
      bytes [%d] prints.
    - [GoFloat]: [float64] as [SpecFloat.spec_float] at precision 53 and
      maximal exponent 1024: conversion from [int64], product, comparison
      and the verb [%f]; the canonical mantissas of the format, and the
      proof that conversion, product with [MiB] and comparison do not round
      on integers below [2^53].
    - [GoFloatFormat]: what [%f] prints: the millionths nearest to the
      value, ties to even, as a function of the number alone, always with
      six decimals.
    - [GoFloatConv]: [float64(n)] for an [int64] that needs more than 53
      bits: the bits through the shifts of the conversion, and the integer
      the result denotes, [round53 n].
    - [GoFloatLimit]: the size check for every limit: the reference
      [exceeds] (the comparison of the numbers, on integers), the product of
      any finite float with [MiB] (exact, or an infinity), and the theorem
      [f64_gt_MiB] that the float comparison of the source computes
      [exceeds] on the rounded size.
    - [Fiber]: the request context [Ctx] (body, query arguments, multipart
      form files, locals, response status and body, number of open file
      streams), its operations ([Query], [FormFile], [Status], [JSON],
      [Locals], [Open], [Close]), and the external collaborators as type
      classes: [BodyDecoder] ([c.BodyParser]), [FieldValidator]
      ([validate.Struct]), [Stringy] (the snake-case normaliser),
      [ImageDecoder] ([image.DecodeConfig]) and [Responder]
      ([response.ValidateFailed] and the JSON encoder).
    - [Rules]: [ErrorResponse], [ImageResolution], [ValidateFile], the
      interface [rule] as a class, its implementation [Rule.File] and
      [Rule.Resolution], [NewRule], and the laws [rule_laws] the
      orchestrator relies on, proved of [NewRule].
    - [Fixtures]: one concrete behaviour of each collaborator (module
      [Demo]), used only by the worked examples and the witnesses.
    - [Validator]: [ValidateStruct], composed as the source composes it:
      [decode_body], [struct_errors], the loop [validate_files] with body
      [validate_file], and [finish] ([respond] or [forward]).
    - [ValidationSpec]: the contract of the validation engine as the
      specification states it ([ValidationOutcome], [validate_spec]), the
      abstraction of a context to its terms, and the refinement theorem.
    - [Machine]: the same handler as a transition system: the program
      points [pc] of [ValidateStruct] with its local variables, the relation
      [step] with one rule for each branch of the source ([Rule.Resolution]
      entered, so that opening and closing the stream are transitions), the
      relation as a function [next_config], and [run].
    - [Concurrent]: the handlers of the requests in flight as a pool of
      configurations of that transition system, a transition of the pool
      being a transition of one request ([pool_step]).
    - [Pagination]: [RespPagination], the interface [IPagination] and
      [Pagination.GetPagination] with its four steps.
    - [Stateless]: the equivalence of contexts that carry the same request
      (body, query arguments, form files), [Proper] instances of the
      context operations, the rule checker, the loop and the handlers for
      it, and what follows: the outcome depends on the request only,
      validation is idempotent, pagination does not depend on validation,
      and a second validator on a route replaces the object of the first.
    - [GoImage]: the format registry of Go's [image] package behind
      [image.DecodeConfig] (module [Image]: [RegisterFormat], [match_magic],
      [Peek], [sniff], [DecodeConfig], the registrations of [image/png],
      [image/jpeg] and [image/gif]) and [registered formats], the
      [ImageDecoder] of a program in which [formats] are registered.

    ** How state and effects are modelled

    A handler is a computation [M Ctx (option error)]: a function from the
    context to a panic or to a result and the new context; [None] is Go's
    [nil] error.  The next handler of the chain, which [c.Next()] runs, is
    the argument [next] of [ValidateStruct].  A Go [(value, error)] return
    is a sum, or a pair of options where both may be set ([FormFile]).  The
    early [return] inside the loop over the file rules is the left
    injection of the loop body's result, which stops [foldM_break].  A nil
    pointer is [None].  [Open] and [Close] count the open streams in the
    context, so that a missing [Close] is visible.  [GetPagination] only
    reads the context and is a function of it.

    ** What the theorems show

    - [ValidationSpec.ValidateStruct_refines]: [ValidateStruct] realises the
      outcome of the contract (accept and forward the object; reject with
      the contract's violations in the contract's order; transport error)
      when uploads open, the validator returns violations or nothing, and
      declared resolutions are square.
      [ValidateStruct_departs_from_contract] shows the last hypothesis is
      needed: the source passes the declared width as the height.
    - [Validator]: the outcome of [ValidateStruct] on every path
      ([ValidateStruct_outcome], [_body_error], [_file_retrieval_error],
      [_assertion_panic]), the order of the merged list
      ([ValidateStruct_rejects]), the hand-off ([ValidateStruct_accepts]),
      that exactly one of responding and forwarding happens
      ([ValidateStruct_reject_ignores_next]), that a rule adds at most one
      violation ([validate_file_short_circuit]), that the file checks leave
      the context and the count of open streams as found
      ([validate_files_closes_streams]), and the scenarios of the
      specification for one declared rule.
    - [Machine]: [step] is deterministic and stuck only when the handler
      has returned or panicked; every transition preserves the outcome the
      function computes from the program point ([step_sem]) and uses up some
      of [measure], so the machine run for [3 * n + 5] transitions, [n] the
      number of declared rules, ends with the result of [ValidateStruct]
      ([run_ValidateStruct]); every reachable configuration satisfies the
      invariant [wf] ([reachable_wf]: the context untouched by the file
      checks but for the one stream open while an image is decoded,
      the violations those the function's loop returns on the rules already
      checked, at most one for each, in order); what the function returns
      the machine reaches ([Loop_reaches_Finish]), so that the call of the
      next handler is reached by the acceptable requests and by no other
      ([next_reached_iff]).
    - [Concurrent]: whatever the interleaving, a handler of the pool that
      has returned or panicked has done so with the result of
      [ValidateStruct] on its own request ([pool_outcomes]); transitions of
      different requests commute, the pool is stuck only when every handler
      has finished, no interleaving of [k] requests is longer than
      [k * (3 * n + 5)] transitions ([pool_terminates]), and no handler
      holds more than one stream open ([pool_open_files], from
      [Machine.reachable_open_files]).
    - [Rules]: [File] and [Resolution] on every branch, the inclusive size
      bound, the exact comparison of extension and resolution, the stream
      closed on every path, and the panic when [Open] fails.  For a limit
      of [n] MiB the verdict of [File] is stated in bytes ([File_verdict]),
      and the bound is inclusive ([File_size_boundary]).  For every limit
      a [float64] can be (normal or subnormal, of either sign, zero,
      infinite, NaN) and every size from 0 to [2^63] bytes the size check
      is the comparison of the numbers, the size rounded to 53 bits
      ([File_size_exact]), and monotone in the size
      ([File_size_monotone]); the reported value is the limit in bytes as
      [%f] prints it ([size_error_value]), with six zeros when that is a
      whole number ([size_error_value_bytes]);
      [File_size_rounds_above_2_53] states the check for sizes that are
      rounded, [File_size_special] and [File_size_extreme_limits] what
      NaN, infinite, zero, least and largest limits do.  The value of a
      resolution violation determines the dimensions
      ([resolution_value_inj]).
    - [GoFloatConv], [GoFloatLimit], [GoFloatFormat]: the conversion of
      an integer below [2^1023] denotes the integer rounded to 53 bits,
      ties to even ([float64_of_int_spec]), and rounding is monotone
      ([round53_mono]); the product of a finite float with
      [MiB] is that float times [2^20], normalised when it was subnormal,
      or an infinity ([f64_mul_MiB_canonical]); canonical floats compare as
      their numbers ([SFcompare_units]); [%f] rounds to the nearest millionth
      ([micros_nearest]), ties to even ([div_round_even_tie]), and prints
      six decimals ([format_fixed6_shape]).
    - [Stateless]: [ValidateStruct] maps contexts with the same request to
      the same outcome ([ValidateStruct_proper]) when the body decoder and
      the next handler read the request only; a call that ends with an
      error or the failure response, repeated in the context it has left,
      gives the same result and the same context
      ([ValidateStruct_idempotent]); [GetPagination] reads the query only
      ([GetPagination_proper]), so a next handler that paginates gets what
      it would have got before the validator ran
      ([pagination_independent]); of two validators on one route the
      handler behind them finds the object of the second
      ([stacked_validators]).
    - [GoImage]: [match_magic] and [sniff] against their specifications
      ([match_magic_spec], [sniff_cases]); the dimensions are read exactly
      when the first registered format that accepts the stream decodes them
      ([registered_Some]); an upload of no registered format is always
      reported, which in a program that registers none is every upload
      ([unknown_format_rejected]); the verdict depends on the head of the
      stream only when the registered decoders do
      ([Resolution_header_only]); the order of registration is immaterial
      for magics that exclude each other, as those of the standard library
      do ([registered_permutation], [std_exclusive]).
    - [Pagination]: results and errors of [GetPagination] characterised by
      its steps, the defaults, the allow-list guarantee on order field and
      direction, the range and wrap-around of the offset
      ([GetPagination_offset_wraps]), and the round trip with [%d].

    Every theorem with hypotheses has a witness at a concrete request of
    [Fixtures] or of its own file.

    ** Bounds

    [int] is 64 bits wide, as on every 64-bit Go platform ([GoInt.int_size]);
    a file size is an [int64]; floats are binary64.  Every loop of the
    sources ranges over a list or a string and is a structural [Fixpoint].
    Only [Machine.run] takes a number of transitions: each rule costs at
    most three (header, file check, image decoding) and the rest of the
    handler five, which is [Machine.measure] at the first program point;
    [run_ValidateStruct] proves that this is enough for every request.

    ** Not modelled, and not yet proved

    The grammar of struct tags, the body decoders, the snake-case library
    and the JSON envelope are libraries the sources only call: they are
    class parameters, and [Fixtures] gives toy instances.  None of them is
    under [src/].  Of the image package the registry and the lookup are
    modelled; the header decoders of the formats would have to follow the
    formats (chunk walk and checksum for PNG, segment walk for JPEG) and
    are parameters of a registered format, so that the theorems hold for
    every decoder.  What [Stateless] asks of the body decoder, that it
    reads the request only, is a hypothesis ([BodyDecoderProper]).  The
    handler stack of Fiber is not modelled: the rest of the chain is the
    argument [next].  Path separators are those of Unix.  Panics lose the
    context.  The size check is characterised for every limit and for
    every size from 0 to [2^63]; a negative size, which no multipart
    header carries, is not.  [%f] is characterised by its millionths; that the digits
    of the integer part are those of Go is the decimal printer of stdpp
    ([pretty]), as for [%d]. *)

From stdpp Require Export base tactics option list strings gmap.
From Stdlib Require Export ZArith Ascii.

Declare Scope go_scope.
Delimit Scope go_scope with go.

(** ** Outcomes: a value or a run-time panic *)

Inductive go (A : Type) : Type :=
| Ok (a : A)
| Panic (msg : string).
Arguments Ok {A} a.
Arguments Panic {A} msg.

#[export] Instance go_ret : MRet go := λ A a, Ok a.
#[export] Instance go_bind : MBind go := λ A B f m,
  match m with Ok a => f a | Panic msg => Panic msg end.
#[export] Instance go_fmap : FMap go := λ A B f m,
  match m with Ok a => Ok (f a) | Panic msg => Panic msg end.

Definition is_Ok {A} (m : go A) : Prop := ∃ a, m = Ok a.

#[export] Instance go_eq_dec `{EqDecision A} : EqDecision (go A).
Proof. solve_decision. Defined.

#[export] Instance is_Ok_dec {A} (m : go A) : Decision (is_Ok m).
Proof.
  destruct m as [a|msg]; [left; by exists a | right; by intros [? ?]].
Defined.

(** ** The state monad over outcomes *)

Definition M (S A : Type) : Type := S → go (A * S).

#[export] Instance M_ret {S} : MRet (M S) := λ A a s, Ok (a, s).
#[export] Instance M_bind {S} : MBind (M S) := λ A B f m s,
  match m s with Ok (a, s') => f a s' | Panic msg => Panic msg end.
#[export] Instance M_fmap {S} : FMap (M S) := λ A B f m s,
  match m s with Ok (a, s') => Ok (f a, s') | Panic msg => Panic msg end.

Definition get {S} : M S S := λ s, Ok (s, s).
Definition gets {S A} (f : S → A) : M S A := λ s, Ok (f s, s).
Definition put {S} (s : S) : M S unit := λ _, Ok (tt, s).
Definition modify {S} (f : S → S) : M S unit := λ s, Ok (tt, f s).
Definition panic {S A} (msg : string) : M S A := λ _, Panic msg.
Definition lift_go {S A} (m : go A) : M S A := λ s,
  match m with Ok a => Ok (a, s) | Panic msg => Panic msg end.

(** A loop over a list whose body may leave the function early: [inl] is the
    value of a [return] inside the body, [inr] the loop-carried state. *)
Fixpoint foldM_break {S E A B} (body : B → A → M S (E + A)) (l : list B) (acc : A)
  : M S (E + A) :=
  match l with
  | [] => mret (inr acc)
  | b :: l' =>
      r ← body b acc;
      match r with
      | inl e => mret (inl e)
      | inr acc' => foldM_break body l' acc'
      end
  end.

(** ** Go error values *)

Inductive error : Type :=
| errorString (s : string)
| FiberError (Code : Z) (Message : string).

Definition errors_New (text : string) : error := errorString text.
Definition NewError (code : Z) (message : string) : error := FiberError code message.

Definition Error (e : error) : string :=
  match e with
  | errorString s => s
  | FiberError _ m => m
  end.

#[export] Instance error_eq_dec : EqDecision error.
Proof. solve_decision. Defined.

(** A Go [(value, error)] return with exactly one of the two set. *)
#[export] Instance result_ret : MRet (sum error) := λ A a, inr a.
#[export] Instance result_bind : MBind (sum error) := λ A B f m,
  match m with inr a => f a | inl e => inl e end.

Definition is_inr {A B} (x : A + B) : Prop := ∃ b, x = inr b.

#[export] Instance is_inr_dec {A B} (x : A + B) : Decision (is_inr x).
Proof. destruct x as [a|b]; [right; by intros [? ?] | left; by exists b]. Defined.

(** The bytes of a string. *)
Definition chars (s : string) : list ascii := String.list_ascii_of_string s.

Definition StatusBadRequest : Z := 400.
Definition StatusInternalServerError : Z := 500.

(** ** Tactics *)

(** Unfold the monad operations of [go] and [M]. *)
Ltac msimpl :=
  repeat (cbn [mbind mret fmap M_bind M_ret M_fmap go_bind go_ret go_fmap
                result_bind result_ret] in *;
          unfold mbind, mret, fmap, M_bind, M_ret, M_fmap, go_bind, go_ret, go_fmap,
            result_bind, result_ret, get, gets, put, modify, panic, lift_go in *;
          cbn beta iota in *).

(** Case analysis on every [match] and [if] of the goal, closing what
    [simplify_eq] and [done] close. *)
Ltac go_crush :=
  repeat first
    [ progress simplify_eq/=
    | done
    | case_match
    | case_decide
    | case_bool_decide ].

Create HintDb go.
Create Rewrite HintDb go.

(** ** Monad laws and run lemmas *)

Section monad.
Context {S : Type}.

Lemma M_bind_ret_l {A B} (a : A) (f : A → M S B) s :
  (mret a ≫= f) s = f a s.
Proof. done. Qed.

Lemma M_bind_ret_r {A} (m : M S A) s : (m ≫= mret) s = m s.
Proof. msimpl. by destruct (m s) as [[]|]. Qed.

Lemma M_bind_assoc {A B C} (m : M S A) (f : A → M S B) (g : B → M S C) s :
  ((m ≫= f) ≫= g) s = (m ≫= λ a, f a ≫= g) s.
Proof. msimpl. by destruct (m s) as [[]|]. Qed.

Lemma M_bind_Ok {A B} (m : M S A) (f : A → M S B) s a s' :
  m s = Ok (a, s') → (m ≫= f) s = f a s'.
Proof. intros H. msimpl. by rewrite H. Qed.

Lemma M_bind_Panic {A B} (m : M S A) (f : A → M S B) s msg :
  m s = Panic msg → (m ≫= f) s = Panic msg.
Proof. intros H. msimpl. by rewrite H. Qed.

Lemma M_bind_inv {A B} (m : M S A) (f : A → M S B) s r :
  (m ≫= f) s = Ok r → ∃ a s', m s = Ok (a, s') ∧ f a s' = Ok r.
Proof. msimpl. destruct (m s) as [[a s']|]; naive_solver. Qed.

Lemma foldM_break_nil {E A B} (body : B → A → M S (E + A)) acc s :
  foldM_break body [] acc s = Ok (inr acc, s).
Proof. done. Qed.

Lemma foldM_break_cons {E A B} (body : B → A → M S (E + A)) b l acc s :
  foldM_break body (b :: l) acc s =
  match body b acc s with
  | Ok (inl e, s') => Ok (inl e, s')
  | Ok (inr acc', s') => foldM_break body l acc' s'
  | Panic msg => Panic msg
  end.
Proof. cbn [foldM_break]. msimpl. by destruct (body b acc s) as [[[]]|]. Qed.

Lemma foldM_break_app {E A B} (body : B → A → M S (E + A)) l1 l2 acc s :
  foldM_break body (l1 ++ l2) acc s =
  match foldM_break body l1 acc s with
  | Ok (inl e, s') => Ok (inl e, s')
  | Ok (inr acc', s') => foldM_break body l2 acc' s'
  | Panic msg => Panic msg
  end.
Proof.
  revert acc s. induction l1 as [|b l1 IH]; intros acc s; [done|].
  rewrite <-app_comm_cons, !foldM_break_cons.
  destruct (body b acc s) as [[[e|acc'] s']|]; [done|apply IH|done].
Qed.

End monad.

#[export] Hint Rewrite @M_bind_ret_l @foldM_break_nil @foldM_break_cons : go.

(** ** Generic lemmas on strings and options *)

Lemma string_app_cons a (s t : string) : String a s +:+ t = String a (s +:+ t).
Proof. done. Qed.

Lemma string_app_nil_l (s : string) : "" +:+ s = s.
Proof. done. Qed.

Lemma string_app_nil_r (s : string) : s +:+ "" = s.
Proof. induction s as [|a s IH]; [done|]. by rewrite string_app_cons, IH. Qed.

Lemma string_app_assoc (s1 s2 s3 : string) :
  (s1 +:+ s2) +:+ s3 = s1 +:+ (s2 +:+ s3).
Proof. induction s1 as [|a s1 IH]; [done|]. by rewrite !string_app_cons, IH. Qed.

Lemma string_app_length (s1 s2 : string) :
  String.length (s1 +:+ s2) = String.length s1 + String.length s2.
Proof. induction s1 as [|a s1 IH]; [done|]. rewrite string_app_cons. cbn. by rewrite IH. Qed.

Lemma string_app_inj_l (s s1 s2 : string) : s +:+ s1 = s +:+ s2 → s1 = s2.
Proof. apply String.app_inj. Qed.

(** Two strings split at a byte that neither prefix holds have the same
    prefixes and the same suffixes. *)
Lemma string_app_sep_inj (c : ascii) (s1 s2 t1 t2 : string) :
  c ∉ chars s1 → c ∉ chars s2 →
  s1 +:+ String c t1 = s2 +:+ String c t2 → s1 = s2 ∧ t1 = t2.
Proof.
  unfold chars. revert s2. induction s1 as [|a s1 IH]; intros [|b s2] H1 H2;
    rewrite ?string_app_cons, ?string_app_nil_l; cbn in *.
  - by intros [= ->].
  - intros [= <- _]. set_solver.
  - intros [= -> _]. set_solver.
  - intros [= -> H]. apply IH in H as [-> ->]; [done|set_solver..].
Qed.

#[export] Hint Rewrite string_app_cons string_app_nil_l string_app_nil_r
  string_app_assoc string_app_length : go.
