(* ===== verification/GoStrings.v ===== *)
(** * GoStrings: the string functions the sources call

    [lo.Contains] (github.com/samber/lo), [strings.Join] and [filepath.Ext]
    of the Go standard library, as executable functions, with the
    specifications the components use.  A Go string is a sequence of bytes
    and so is a Rocq [string]; [filepath.Ext] is modelled for Unix, where
    the only path separator is ['/']. *)

From S2P Require Import Prelude.

(** ** lo.Contains: linear search with [==] *)

Fixpoint Contains `{EqDecision A} (collection : list A) (element : A) : bool :=
  match collection with
  | [] => false
  | x :: rest => if decide (x = element) then true else Contains rest element
  end.

(** ** strings.Join *)

Fixpoint Join (elems : list string) (sep : string) : string :=
  match elems with
  | [] => ""
  | x :: rest =>
      match rest with
      | [] => x
      | _ :: _ => x +:+ sep +:+ Join rest sep
      end
  end.

(** ** filepath.Ext

    The source scans the path from its last byte downwards, stops at a path
    separator with the empty string and at a dot with the suffix that starts
    there.  [ext_scan] is that loop on the reversed path, [acc] holding the
    bytes already passed. *)

Definition IsPathSeparator (c : ascii) : bool := bool_decide (c = "/"%char).

Fixpoint ext_scan (rpath : list ascii) (acc : list ascii) : list ascii :=
  match rpath with
  | [] => []
  | c :: r =>
      if IsPathSeparator c then []
      else if bool_decide (c = "."%char) then c :: acc
      else ext_scan r (c :: acc)
  end.

Definition Ext (path : string) : string :=
  String.string_of_list_ascii (ext_scan (rev (String.list_ascii_of_string path)) []).

(** A byte sequence that [Ext] passes over without stopping. *)
Definition plain (l : list ascii) : Prop := Forall (λ c, c ≠ "/"%char ∧ c ≠ "."%char) l.

#[export] Instance plain_dec l : Decision (plain l).
Proof. unfold plain. apply _. Defined.

(** ** Specifications *)

Section contains.
Context `{EqDecision A}.
Implicit Types (l : list A) (x : A).

Lemma Contains_spec l x : Contains l x = true ↔ x ∈ l.
Proof.
  induction l as [|y l IH]; cbn; [by rewrite elem_of_nil|].
  rewrite elem_of_cons, <-IH. case_decide; intuition congruence.
Qed.

Lemma Contains_false l x : Contains l x = false ↔ x ∉ l.
Proof. rewrite <-Contains_spec. by destruct (Contains l x). Qed.

Lemma Contains_bool_decide l x : Contains l x = bool_decide (x ∈ l).
Proof.
  destruct (Contains l x) eqn:E; symmetry.
  - by apply bool_decide_eq_true, Contains_spec.
  - by apply bool_decide_eq_false, Contains_false.
Qed.

Lemma Contains_nil x : Contains [] x = false.
Proof. done. Qed.

Lemma Contains_app l1 l2 x : Contains (l1 ++ l2) x = Contains l1 x || Contains l2 x.
Proof. induction l1 as [|y l1 IH]; cbn; [done|]. by case_decide. Qed.

End contains.

Lemma Join_nil sep : Join [] sep = "".
Proof. done. Qed.

Lemma Join_singleton x sep : Join [x] sep = x.
Proof. done. Qed.

Lemma Join_cons x y rest sep : Join (x :: y :: rest) sep = x +:+ sep +:+ Join (y :: rest) sep.
Proof. done. Qed.

Lemma Join_length elems sep :
  String.length (Join elems sep) =
  sum_list (String.length <$> elems) + (length elems - 1) * String.length sep.
Proof.
  induction elems as [|x [|y rest] IH]; [done|cbn; lia|].
  rewrite Join_cons, !string_app_length, IH. cbn. lia.
Qed.

(** Conversions between [string] and its list of bytes. *)

Lemma list_ascii_app (s1 s2 : string) :
  String.list_ascii_of_string (s1 +:+ s2) =
  String.list_ascii_of_string s1 ++ String.list_ascii_of_string s2.
Proof.
  induction s1 as [|a s1 IH]; [done|]. rewrite string_app_cons. cbn. by rewrite IH.
Qed.

Lemma string_of_list_app (l1 l2 : list ascii) :
  String.string_of_list_ascii (l1 ++ l2) =
  String.string_of_list_ascii l1 +:+ String.string_of_list_ascii l2.
Proof.
  induction l1 as [|a l1 IH]; [done|]. cbn. by rewrite string_app_cons, IH.
Qed.

(** The loop invariant of [ext_scan]: the bytes passed so far are plain, and
    the result is empty or the dot followed by them. *)

Lemma ext_scan_plain l r acc :
  plain l → ext_scan (l ++ r) acc = ext_scan r (rev l ++ acc).
Proof.
  unfold plain. revert acc. induction l as [|c l IH]; intros acc Hl; [done|].
  apply Forall_cons in Hl as [[Hs Hd] Hl]. cbn. unfold IsPathSeparator.
  rewrite !bool_decide_eq_false_2 by done. rewrite IH by done.
  by rewrite <-app_assoc.
Qed.

Lemma ext_scan_dot r acc : ext_scan ("."%char :: r) acc = "."%char :: acc.
Proof. done. Qed.

Lemma ext_scan_sep r acc : ext_scan ("/"%char :: r) acc = [].
Proof. done. Qed.

Lemma ext_scan_cases rpath acc :
  ext_scan rpath acc = [] ∨
  ∃ l r, rpath = l ++ "."%char :: r ∧ plain l ∧ ext_scan rpath acc = "."%char :: rev l ++ acc.
Proof.
  revert acc. induction rpath as [|c r IH]; intros acc; [by left|]. cbn.
  unfold IsPathSeparator. case_bool_decide as Hs; [by left|].
  case_bool_decide as Hd.
  - right. exists [], r. subst. split_and!; [done|by constructor|done].
  - destruct (IH (c :: acc)) as [->|(l & r' & -> & Hl & ->)]; [by left|].
    right. exists (c :: l), r'. split_and!; [done|by constructor|].
    cbn. by rewrite <-app_assoc.
Qed.

(** [Ext] of a path that ends in a dot and a plain extension is that dot and
    extension, whatever precedes them. *)
Lemma Ext_dot (base e : string) :
  plain (String.list_ascii_of_string e) →
  Ext (base +:+ "." +:+ e) = "." +:+ e.
Proof.
  intros He. unfold Ext. rewrite !list_ascii_app, !rev_app_distr, <-!app_assoc.
  rewrite ext_scan_plain by (by apply Forall_rev).
  cbn [String.list_ascii_of_string rev app]. rewrite ext_scan_dot.
  rewrite rev_involutive, app_nil_r. cbn [String.string_of_list_ascii].
  by rewrite String.string_of_list_ascii_of_string.
Qed.

(** A path without a dot in its last element has no extension. *)
Lemma Ext_plain (dir name : string) :
  plain (String.list_ascii_of_string name) →
  Ext (dir +:+ "/" +:+ name) = "" ∧ Ext name = "".
Proof.
  intros Hn. unfold Ext. rewrite !list_ascii_app, !rev_app_distr, <-!app_assoc.
  rewrite ext_scan_plain by (by apply Forall_rev).
  cbn [String.list_ascii_of_string rev app]. rewrite ext_scan_sep. split; [done|].
  rewrite <-(app_nil_r (rev _)), ext_scan_plain by (by apply Forall_rev). done.
Qed.

(** The result is a suffix of the path, and is empty or a dot followed by
    plain bytes. *)
Lemma Ext_cases (path : string) :
  Ext path = "" ∨
  ∃ base e, path = base +:+ "." +:+ e ∧ plain (String.list_ascii_of_string e) ∧
            Ext path = "." +:+ e.
Proof.
  unfold Ext.
  destruct (ext_scan_cases (rev (String.list_ascii_of_string path)) [])
    as [->|(l & r & Hp & Hl & ->)]; [by left|right].
  exists (String.string_of_list_ascii (rev r)), (String.string_of_list_ascii (rev l)).
  rewrite String.list_ascii_of_string_of_list_ascii, app_nil_r.
  split_and!; [|by apply Forall_rev|done].
  apply (f_equal (@rev ascii)) in Hp. rewrite rev_involutive in Hp.
  rewrite <-(String.string_of_list_ascii_of_string path), Hp.
  rewrite rev_app_distr. cbn [rev]. rewrite <-!app_assoc.
  by rewrite string_of_list_app.
Qed.

Lemma Ext_suffix (path : string) : ∃ base, path = base +:+ Ext path.
Proof.
  destruct (Ext_cases path) as [->|(base & e & Hp & _ & ->)].
  - exists path. by rewrite string_app_nil_r.
  - by exists base.
Qed.

#[export] Hint Rewrite Join_nil Join_singleton Join_cons : go.
#[export] Hint Resolve Ext_suffix : go.
