(* ===== verification/GoInt.v ===== *)
(** * GoInt: Go's [int] at 64 bits, [strconv.Atoi] and the [%d] verb

    An [int] is a [Z] in [[int_min, int_max]]; arithmetic wraps around
    ([wrap]).  [Atoi] returns [None] where [strconv.Atoi] returns an error
    (a syntax error or a value out of range: the callers only test
    [err != nil]).  [FormatInt] is [fmt.Sprintf("%d", n)]. *)

From stdpp Require Import pretty.
From S2P Require Import Prelude.

Local Open Scope Z_scope.

(** ** Range and wrap-around *)

Definition int_size : Z := 64.
Definition int_min : Z := - 2 ^ (int_size - 1).
Definition int_max : Z := 2 ^ (int_size - 1) - 1.

Definition in_int (z : Z) : Prop := int_min ≤ z ≤ int_max.

#[export] Instance in_int_dec z : Decision (in_int z).
Proof. unfold in_int. apply _. Defined.

Definition wrap (z : Z) : Z := (z - int_min) `mod` 2 ^ int_size + int_min.

Definition int_add (a b : Z) : Z := wrap (a + b).
Definition int_sub (a b : Z) : Z := wrap (a - b).
Definition int_mul (a b : Z) : Z := wrap (a * b).
Definition int_neg (a : Z) : Z := wrap (- a).

(** ** strconv.Atoi *)

(** [ch -= '0'; if ch > 9 { syntax error }] on a byte. *)
Definition digit_of (c : ascii) : option Z :=
  let n := Z.of_N (N_of_ascii c) in
  if bool_decide (48 ≤ n ≤ 57) then Some (n - 48) else None.

(** [n = n*10 + int(ch)] over the bytes of the string. *)
Fixpoint parse_digits (s : string) (acc : Z) : option Z :=
  match s with
  | EmptyString => Some acc
  | String c r =>
      match digit_of c with
      | Some d => parse_digits r (acc * 10 + d)
      | None => None
      end
  end.

Definition Atoi (s : string) : option Z :=
  match s with
  | EmptyString => None
  | String c r =>
      let neg := bool_decide (c = "-"%char) in
      let digits := if neg || bool_decide (c = "+"%char) then r else s in
      match digits with
      | EmptyString => None
      | String _ _ =>
          match parse_digits digits 0 with
          | None => None
          | Some n =>
              let v := if neg then - n else n in
              if decide (in_int v) then Some v else None
          end
      end
  end.

(** ** The verb [%d] *)

Definition FormatInt (n : Z) : string := pretty n.

(** ** Properties of the range and of [wrap] *)

Lemma int_range_values : int_min = -9223372036854775808 ∧ int_max = 9223372036854775807.
Proof. done. Qed.

Lemma wrap_in_int z : in_int (wrap z).
Proof.
  unfold in_int, wrap, int_min, int_max, int_size.
  pose proof (Z.mod_pos_bound (z - - 2 ^ (64 - 1)) (2 ^ 64) eq_refl). lia.
Qed.

Lemma wrap_id z : in_int z → wrap z = z.
Proof.
  unfold in_int, wrap, int_min, int_max, int_size. intros H.
  rewrite Z.mod_small; lia.
Qed.

Lemma wrap_idemp z : wrap (wrap z) = wrap z.
Proof. apply wrap_id, wrap_in_int. Qed.

Lemma wrap_congr z : (wrap z - z) `mod` 2 ^ int_size = 0.
Proof.
  unfold wrap, int_min, int_size.
  replace ((z - - 2 ^ (64 - 1)) `mod` 2 ^ 64 + - 2 ^ (64 - 1) - z)
    with ((z - - 2 ^ (64 - 1)) `mod` 2 ^ 64 - (z - - 2 ^ (64 - 1))) by lia.
  rewrite Zminus_mod, Z.mod_mod, Z.sub_diag by done. done.
Qed.

Lemma wrap_eq_iff z : wrap z = z ↔ in_int z.
Proof. split; [intros <-; apply wrap_in_int|apply wrap_id]. Qed.

Lemma int_mul_exact a b : in_int (a * b) → int_mul a b = a * b.
Proof. apply wrap_id. Qed.

Lemma int_sub_exact a b : in_int (a - b) → int_sub a b = a - b.
Proof. apply wrap_id. Qed.

#[export] Hint Resolve wrap_in_int : go.
#[export] Hint Rewrite wrap_idemp : go.

(** ** Properties of [Atoi] *)

Lemma digit_of_range c d : digit_of c = Some d → 0 ≤ d ≤ 9.
Proof. unfold digit_of. case_bool_decide; intros; simplify_eq; lia. Qed.

Lemma digit_of_char d :
  0 ≤ d ≤ 9 → digit_of (ascii_of_N (Z.to_N (48 + d))) = Some d.
Proof.
  intros H. assert (d ∈ [0;1;2;3;4;5;6;7;8;9]) as Hd
    by (rewrite !elem_of_cons; lia).
  repeat (apply elem_of_cons in Hd as [->|Hd]; [done|]). by apply elem_of_nil in Hd.
Qed.

(** The accumulator of the digit loop only shifts the result. *)
Lemma parse_digits_shift s acc :
  parse_digits s acc =
  (λ n, n + acc * 10 ^ Z.of_nat (String.length s)) <$> parse_digits s 0.
Proof.
  revert acc. induction s as [|c s IH]; intros acc; cbn [parse_digits String.length].
  - cbn. f_equal. change (10 ^ Z.of_nat 0) with 1. lia.
  - destruct (digit_of c) as [d|]; [|done].
    rewrite (IH (acc * 10 + d)), (IH (0 * 10 + d)), <-option_fmap_compose.
    apply option_fmap_ext. intros n. cbn.
    rewrite Nat2Z.inj_succ, Z.pow_succ_r by lia. lia.
Qed.

Lemma parse_digits_app s1 s2 acc :
  parse_digits (s1 +:+ s2) acc =
  match parse_digits s1 acc with
  | Some n => parse_digits s2 n
  | None => None
  end.
Proof.
  revert acc. induction s1 as [|c s1 IH]; intros acc; [done|].
  rewrite string_app_cons. cbn [parse_digits]. by destruct (digit_of c).
Qed.

Lemma parse_digits_nonneg s acc n :
  0 ≤ acc → parse_digits s acc = Some n → 0 ≤ n.
Proof.
  revert acc. induction s as [|c s IH]; intros acc Hacc; cbn [parse_digits].
  - by intros [= <-].
  - destruct (digit_of c) as [d|] eqn:Hd; [|done].
    apply digit_of_range in Hd. apply IH. lia.
Qed.

(** ** Round trip between [%d] and [Atoi] *)

Lemma digit_of_pretty_N_char (x : N) :
  (x < 10)%N → digit_of (pretty_N_char x) = Some (Z.of_N x).
Proof.
  intros H. assert (x ∈ [0;1;2;3;4;5;6;7;8;9]%N) as Hx
    by (rewrite !elem_of_cons; lia).
  repeat (apply elem_of_cons in Hx as [->|Hx]; [done|]). by apply elem_of_nil in Hx.
Qed.

(** Parsing the digits that [%d] prints for [x] in front of [s] continues on
    [s] with accumulator [x]. *)
Lemma parse_digits_pretty_N_go (x : N) s :
  parse_digits (pretty_N_go x s) 0 = parse_digits s (Z.of_N x).
Proof.
  revert s. induction (N.lt_wf_0 x) as [x _ IH]; intros s.
  assert (x = 0 ∨ 0 < x)%N as [->|Hx] by lia; [by rewrite pretty_N_go_0|].
  rewrite pretty_N_go_step by done. rewrite IH by (by apply N.div_lt).
  cbn [parse_digits]. rewrite digit_of_pretty_N_char by (by apply N.mod_lt).
  f_equal. rewrite (N.div_mod x 10) at 3 by done. lia.
Qed.

Lemma pretty_N_go_nonempty (x : N) s : s ≠ "" → pretty_N_go x s ≠ "".
Proof.
  revert s. induction (N.lt_wf_0 x) as [x _ IH]; intros s Hs.
  assert (x = 0 ∨ 0 < x)%N as [->|Hx] by lia; [by rewrite pretty_N_go_0|].
  rewrite pretty_N_go_step by done. apply IH; [by apply N.div_lt|done].
Qed.

Lemma pretty_pos_digits (p : positive) :
  ∃ c r, pretty p = String c r ∧ is_Some (digit_of c) ∧
         parse_digits (String c r) 0 = Some (Z.pos p).
Proof.
  assert (parse_digits (pretty p) 0 = Some (Z.pos p)) as Hp.
  { unfold pretty, pretty_positive, pretty, pretty_N.
    rewrite decide_False by done. by rewrite parse_digits_pretty_N_go. }
  destruct (pretty p) as [|c r] eqn:E.
  - exfalso. revert E. unfold pretty, pretty_positive, pretty, pretty_N.
    rewrite decide_False by done.
    rewrite pretty_N_go_step by done. by apply pretty_N_go_nonempty.
  - exists c, r. split_and!; [done| |done].
    cbn [parse_digits] in Hp. by destruct (digit_of c).
Qed.

Lemma digit_of_not_sign c :
  is_Some (digit_of c) → c ≠ "-"%char ∧ c ≠ "+"%char.
Proof. intros [d Hd]. split; intros ->; discriminate. Qed.

Lemma Atoi_digits c r n :
  is_Some (digit_of c) → parse_digits (String c r) 0 = Some n → in_int n →
  Atoi (String c r) = Some n.
Proof.
  intros [Hm Hp]%digit_of_not_sign Hn Hr. unfold Atoi.
  rewrite !bool_decide_eq_false_2 by done. cbn [orb].
  rewrite Hn. by rewrite decide_True.
Qed.

Lemma Atoi_minus c r n :
  parse_digits (String c r) 0 = Some n → in_int (- n) →
  Atoi ("-" +:+ String c r) = Some (- n).
Proof.
  intros Hn Hr. rewrite string_app_cons, string_app_nil_l. unfold Atoi.
  rewrite bool_decide_eq_true_2 by done. cbn [orb].
  rewrite Hn. by rewrite decide_True.
Qed.

Lemma Atoi_FormatInt_in_range n : in_int n → Atoi (FormatInt n) = Some n.
Proof.
  intros Hn. unfold FormatInt. destruct n as [|p|p].
  - done.
  - destruct (pretty_pos_digits p) as (c & r & Hs & Hc & Hp).
    change (pretty (Z.pos p)) with (pretty p). rewrite Hs. by apply Atoi_digits.
  - destruct (pretty_pos_digits p) as (c & r & Hs & Hc & Hp).
    change (pretty (Z.neg p)) with ("-" +:+ pretty p). rewrite Hs.
    by apply (Atoi_minus c r (Z.pos p)).
Qed.

(** What [Atoi] accepts lies in the range of [int]. *)
Lemma Atoi_in_int s n : Atoi s = Some n → in_int n.
Proof.
  unfold Atoi. destruct s as [|c r]; [done|].
  cbv zeta.
  generalize (if bool_decide (c = "-"%char) || bool_decide (c = "+"%char)
              then r else String c r).
  intros [|c' r']; [done|].
  destruct (parse_digits _ 0); [|done]. by case_decide; intros [= <-].
Qed.

(** ** The bytes [%d] prints: a sign or decimal digits *)

Lemma parse_digits_chars s acc n :
  parse_digits s acc = Some n → Forall (λ c, is_Some (digit_of c)) (chars s).
Proof.
  revert acc. induction s as [|c s IH]; intros acc; cbn [parse_digits]; [by constructor|].
  destruct (digit_of c) as [d|] eqn:Hd; [|done]. intros H. constructor; eauto.
Qed.

Lemma pretty_pos_chars (p : positive) : Forall (λ c, is_Some (digit_of c)) (chars (pretty p)).
Proof.
  destruct (pretty_pos_digits p) as (c & r & Hs & _ & Hp). rewrite Hs.
  by eapply parse_digits_chars.
Qed.

Lemma FormatInt_chars n :
  Forall (λ c, c = "-"%char ∨ is_Some (digit_of c)) (chars (FormatInt n)).
Proof.
  unfold FormatInt. destruct n as [|p|p].
  - apply (Forall_singleton _ "0"%char). right. by eexists.
  - eapply Forall_impl; [apply (pretty_pos_chars p)|]. naive_solver.
  - change (chars (pretty (Z.neg p))) with ("-"%char :: chars (pretty p)).
    apply Forall_cons. split; [by left|].
    eapply Forall_impl; [apply (pretty_pos_chars p)|]. naive_solver.
Qed.

Lemma FormatInt_no_x n : "x"%char ∉ chars (FormatInt n).
Proof.
  intros H. pose proof (FormatInt_chars n) as F.
  rewrite Forall_forall in F. destruct (F _ H) as [?|[d Hd]]; done.
Qed.

Lemma FormatInt_inj n m : FormatInt n = FormatInt m → n = m.
Proof. apply pretty_Z_inj. Qed.

#[export] Hint Resolve Atoi_in_int : go.
