(* ===== verification/GoFloat.v ===== *)
(** * GoFloat: [float64] as IEEE 754 binary64

    A [float64] is a [SpecFloat.spec_float] at precision 53 and maximal
    exponent 1024, the operations those of the Standard Library's
    specification of binary64 (round to nearest, ties to even).  The file
    models what the validator does with floats: the conversion
    [float64(n)] of an [int64], the product, the comparison [>] and the verb
    [%f] (six decimals, the exact value rounded half to even).  The sections
    on exactness prove that none of this rounds on integers below [2^53]:
    the conversion is exact ([float64_of_int_scaled]), so is the product
    with [MiB] ([f64_mul_MiB_scaled]), and [%f] prints the limit's bytes
    ([FormatFloat_limit]).  The lemmas on rounding are stated for
    canonical pairs of mantissa and exponent ([canonical]), which is what
    every finite float is; [GoFloatLimit] builds on them for limits that
    are not whole numbers. *)

From Stdlib Require Import SpecFloat.
From stdpp Require Import pretty.
From S2P Require Import Prelude.

Local Open Scope Z_scope.

Definition float64 : Type := spec_float.

Definition prec : Z := 53.
Definition emax : Z := 1024.

(** [float64(n)] for an integer [n]. *)
Definition float64_of_int (n : Z) : float64 := binary_normalize prec emax n 0 false.

Definition f64_mul (x y : float64) : float64 := SFmul prec emax x y.

(** [x > y]; false when either is NaN. *)
Definition f64_gt (x y : float64) : bool := SFltb y x.

(** The Go constant [1024 * 1024] at type [float64]. *)
Definition MiB : float64 := float64_of_int (1024 * 1024).

(** ** The verb [%f] *)

(** The integer nearest to [n / d], ties to even, for [0 ≤ n] and [0 < d]. *)
Definition div_round_even (n d : Z) : Z :=
  let q := n `div` d in
  match 2 * (n `mod` d) ?= d with
  | Lt => q
  | Gt => q + 1
  | Eq => if Z.even q then q else q + 1
  end.

Fixpoint zeros (n : nat) : string :=
  match n with
  | O => ""
  | S n' => String "0" (zeros n')
  end.

(** [k] (below [10^6]) as exactly six decimal digits. *)
Definition frac6 (k : Z) : string :=
  let s := pretty k in zeros (6 - String.length s) +:+ s.

(** [m * 2^e] in millionths, rounded. *)
Definition micros (m : positive) (e : Z) : Z :=
  if decide (0 ≤ e) then Z.pos m * 2 ^ e * 10 ^ 6
  else div_round_even (Z.pos m * 10 ^ 6) (2 ^ (- e)).

Definition format_fixed6 (m : positive) (e : Z) : string :=
  let u := micros m e in
  pretty (u `div` 10 ^ 6) +:+ "." +:+ frac6 (u `mod` 10 ^ 6).

Definition sign_string (s : bool) : string := if s then "-" else "".

Definition FormatFloat (x : float64) : string :=
  match x with
  | S754_nan => "NaN"
  | S754_infinity false => "+Inf"
  | S754_infinity true => "-Inf"
  | S754_zero s => sign_string s +:+ "0.000000"
  | S754_finite s m e => sign_string s +:+ format_fixed6 m e
  end.

#[export] Instance float64_eq_dec : EqDecision float64.
Proof. unfold float64. solve_decision. Defined.

(** ** Integers in binary64

    [digits p] is the number of binary digits of [p]; [scaled p k] is the
    normal form of the number [p * 2^k] for a [p] of at most 53 digits: the
    mantissa is [p] shifted to exactly 53 digits. *)

Definition digits (p : positive) : Z := Z.pos (digits2_pos p).

Definition normal_mantissa (p : positive) : positive :=
  match (53 - digits p)%Z with
  | Z.pos k => Pos.iter xO p k
  | _ => p
  end.

Definition scaled (p : positive) (k : Z) : float64 :=
  S754_finite false (normal_mantissa p) (digits p - 53 + k).

(** The limits [0.5] and [0.1] of the examples. *)
Definition half : float64 := S754_finite false 4503599627370496 (-53).
Definition tenth : float64 := S754_finite false 7205759403792794 (-56).

(** A mantissa is canonical at an exponent when the format chooses that
    exponent for it: 53 digits at a normal exponent, fewer only at the
    least one.  The finite floats are the canonical pairs up to the
    exponent [emax - prec]; rounding a canonical pair above it overflows. *)
Definition canonical (m : positive) (e : Z) : Prop := fexp prec emax (digits m + e) = e.

Definition overflow_to_infinity (s : bool) (m : positive) (e : Z) : float64 :=
  if e <=? emax - prec then S754_finite s m e else S754_infinity s.

Local Notation exactly m := (Build_shr_record m false false).

(** ** Properties *)

Lemma MiB_value : MiB = S754_finite false 4503599627370496 (-32).
Proof. vm_compute. done. Qed.

Lemma SFcompare_refl x : x ≠ S754_nan → SFcompare x x = Some Eq.
Proof.
  destruct x as [[]|[]| |[] m e]; try done; intros _; cbn;
    by rewrite Z.compare_refl, Pos.compare_cont_refl.
Qed.

(** No float is greater than itself: the size check passes at the bound. *)
Lemma f64_gt_irrefl x : f64_gt x x = false.
Proof.
  unfold f64_gt, SFltb. destruct (decide (x = S754_nan)) as [->|H]; [done|].
  by rewrite SFcompare_refl.
Qed.

Lemma f64_gt_nan_l y : f64_gt S754_nan y = false.
Proof. unfold f64_gt, SFltb. by destruct y as [[]|[]| |[] ? ?]. Qed.

Lemma f64_gt_nan_r x : f64_gt x S754_nan = false.
Proof. done. Qed.

Lemma f64_gt_asym x y : f64_gt x y = true → f64_gt y x = false.
Proof.
  unfold f64_gt, SFltb.
  destruct x as [[]|[]| |[] m1 e1], y as [[]|[]| |[] m2 e2]; cbn; try done.
  - destruct (Z.compare_spec e2 e1), (Z.compare_spec e1 e2); try done; try lia.
    subst. rewrite (ZC4 m1 m2). by destruct (Pos.compare_cont Eq m2 m1).
  - destruct (Z.compare_spec e2 e1), (Z.compare_spec e1 e2); try done; try lia.
    subst. rewrite (ZC4 m1 m2). by destruct (Pos.compare_cont Eq m2 m1).
Qed.

(** Every integer of at most 53 bits converts exactly. *)
Example float64_of_int_5MiB :
  f64_mul (float64_of_int 5) MiB = float64_of_int 5242880.
Proof. vm_compute. done. Qed.

Example FormatFloat_5MiB : FormatFloat (f64_mul (float64_of_int 5) MiB) = "5242880.000000".
Proof. vm_compute. done. Qed.

Example FormatFloat_half_MiB :
  FormatFloat (f64_mul (S754_finite false 4503599627370496 (-53)) MiB) = "524288.000000".
Proof. vm_compute. done. Qed.

Example FormatFloat_tie : FormatFloat (S754_finite false 1 (-7)) = "0.007812".
Proof. vm_compute. done. Qed.

(** ** Exactness on integers below [2^53] *)

Lemma digits2_pos_size p : digits2_pos p = Pos.size p.
Proof. induction p; cbn; congruence. Qed.

Lemma digits_pos p : 0 < digits p.
Proof. done. Qed.

(** [p] has exactly [digits p] binary digits. *)
Lemma digits_bounds p : 2 ^ (digits p - 1) ≤ Z.pos p < 2 ^ digits p.
Proof.
  unfold digits. rewrite digits2_pos_size.
  pose proof (Pos.size_gt p) as H1. pose proof (Pos.size_le p) as H2.
  apply Pos2Z.pos_lt_pos in H1. apply Pos2Z.pos_le_pos in H2.
  rewrite Pos2Z.inj_pow in H1, H2.
  replace (Z.pos (Pos.size p)) with (Z.succ (Z.pos (Pos.size p) - 1)) in H2 at 1 by lia.
  rewrite Z.pow_succ_r in H2 by lia. lia.
Qed.

(** Shifting left by [k] multiplies by [2^k] and adds [k] digits. *)
Lemma iter_xO_value p k : Z.pos (Pos.iter xO p k) = Z.pos p * 2 ^ Z.pos k.
Proof.
  apply (Pos.iter_ind _ xO p (λ k q, Z.pos q = Z.pos p * 2 ^ Z.pos k)).
  - lia.
  - intros k' q IH. rewrite Pos2Z.inj_succ, Z.pow_succ_r by lia. lia.
Qed.

Lemma digits_iter_xO p k : digits (Pos.iter xO p k) = digits p + Z.pos k.
Proof.
  unfold digits.
  apply (Pos.iter_ind _ xO p (λ k q, Z.pos (digits2_pos q) = Z.pos (digits2_pos p) + Z.pos k)).
  - cbn. lia.
  - intros k' q IH. cbn [digits2_pos]. lia.
Qed.

(** The canonical pairs: normal ones and subnormal ones. *)
Lemma canonical_spec m e :
  canonical m e ↔ digits m = 53 ∧ -1074 ≤ e ∨ digits m ≤ 53 ∧ e = -1074.
Proof. unfold canonical, fexp, SpecFloat.emin, prec, emax. lia. Qed.

Lemma canonical_normal m e : digits m = 53 → -1074 ≤ e → canonical m e.
Proof. rewrite canonical_spec. auto. Qed.

Lemma canonical_mantissa_canonical m e :
  canonical_mantissa prec emax m e = true ↔ canonical m e.
Proof. apply Z.eqb_eq. Qed.

Lemma overflow_to_infinity_finite s m e :
  e ≤ 971 → overflow_to_infinity s m e = S754_finite s m e.
Proof.
  intros H. unfold overflow_to_infinity.
  by destruct (Z.leb_spec e (emax - prec)); [|unfold emax, prec in *; lia].
Qed.

Lemma overflow_to_infinity_infinite s m e :
  971 < e → overflow_to_infinity s m e = S754_infinity s.
Proof.
  intros H. unfold overflow_to_infinity.
  by destruct (Z.leb_spec e (emax - prec)); [unfold emax, prec in *; lia|].
Qed.

(** A canonical pair is not shifted, and rounding it changes nothing. *)
Lemma shr_fexp_canonical m e :
  canonical m e → shr_fexp prec emax (Z.pos m) e loc_Exact = (exactly (Z.pos m), e).
Proof.
  intros Hc. unfold shr_fexp. change (Zdigits2 (Z.pos m)) with (digits m).
  unfold canonical in Hc. by rewrite Hc, Z.sub_diag.
Qed.

Lemma round_exactly m :
  round_nearest_even (shr_m (exactly m)) (loc_of_shr_record (exactly m)) = m.
Proof. done. Qed.

Lemma binary_round_aux_finish s m e (r : shr_record * Z) :
  canonical m e → r = (exactly (Z.pos m), e) →
  (let '(mrs', e') := r in
   let '(mrs'', e'') :=
     shr_fexp prec emax (round_nearest_even (shr_m mrs') (loc_of_shr_record mrs')) e'
       loc_Exact in
   match shr_m mrs'' with
   | 0 => S754_zero s
   | Z.pos m0 => if e'' <=? emax - prec then S754_finite s m0 e'' else S754_infinity s
   | Z.neg _ => S754_nan
   end) = overflow_to_infinity s m e.
Proof. intros Hc ->. by rewrite round_exactly, shr_fexp_canonical. Qed.

Lemma binary_round_aux_canonical s m e :
  canonical m e →
  binary_round_aux prec emax s (Z.pos m) e loc_Exact = overflow_to_infinity s m e.
Proof. intros Hc. apply binary_round_aux_finish; [done|]. by apply shr_fexp_canonical. Qed.

Lemma normal_mantissa_value p :
  digits p ≤ 53 → Z.pos (normal_mantissa p) = Z.pos p * 2 ^ (53 - digits p).
Proof.
  intros H. unfold normal_mantissa. destruct (53 - digits p) as [|k|k] eqn:E; [lia| |lia].
  apply iter_xO_value.
Qed.

Lemma digits_normal_mantissa p : digits p ≤ 53 → digits (normal_mantissa p) = 53.
Proof.
  intros H. unfold normal_mantissa. destruct (53 - digits p) as [|k|k] eqn:E; [lia| |lia].
  rewrite digits_iter_xO. lia.
Qed.

(** The conversion of an integer of at most 53 digits shifts it to 53
    digits and loses nothing. *)
Lemma float64_of_int_pos p :
  digits p ≤ 53 →
  float64_of_int (Z.pos p) = S754_finite false (normal_mantissa p) (digits p - 53).
Proof.
  intros H. unfold float64_of_int, binary_normalize, binary_round, shl_align.
  fold (digits p). unfold normal_mantissa.
  pose proof (digits_pos p).
  replace (fexp prec emax (digits p + 0)) with (digits p - 53)
    by (unfold fexp, SpecFloat.emin, prec, emax; lia).
  replace (digits p - 53 - 0) with (- (53 - digits p)) by lia.
  destruct (53 - digits p) as [|k|k] eqn:E; [| |lia]; cbn [Z.opp].
  - replace (digits p - 53) with 0 by lia.
    etrans; [apply binary_round_aux_canonical, canonical_normal; lia|].
    by apply overflow_to_infinity_finite.
  - etrans; [apply binary_round_aux_canonical, canonical_normal; rewrite ?digits_iter_xO; lia|].
    apply overflow_to_infinity_finite. lia.
Qed.

(** Shifting right the zeros a left shift added is exact. *)
Lemma shr_1_xO p : shr_1 (exactly (Z.pos p~0)) = exactly (Z.pos p).
Proof. done. Qed.

Lemma iter_shr_1_xO k p :
  Pos.iter shr_1 (exactly (Z.pos (Pos.iter xO p k))) k = exactly (Z.pos p).
Proof.
  induction k as [|k IH] using Pos.peano_ind; [done|].
  by rewrite (Pos.iter_succ k _ xO), Pos.iter_succ_r, shr_1_xO.
Qed.

Lemma iter_pos_iter {A} (f : A → A) n x : SpecFloat.iter_pos f n x = Pos.iter f x n.
Proof.
  revert x. induction n as [n IH|n IH|]; intros x; cbn; [|by rewrite !IH|done].
  by rewrite !IH, !Pos.iter_swap.
Qed.

Lemma shr_fexp_shifted m e k :
  canonical m e →
  shr_fexp prec emax (Z.pos (Pos.iter xO m k)) (e - Z.pos k) loc_Exact = (exactly (Z.pos m), e).
Proof.
  intros Hc. unfold shr_fexp.
  change (Zdigits2 (Z.pos ?p)) with (digits p). rewrite digits_iter_xO.
  replace (digits m + Z.pos k + (e - Z.pos k)) with (digits m + e) by lia.
  unfold canonical in Hc. rewrite Hc.
  replace (e - (e - Z.pos k)) with (Z.pos k) by lia.
  cbn [shr shr_record_of_loc]. rewrite iter_pos_iter, iter_shr_1_xO.
  f_equal. lia.
Qed.

(** Rounding a canonical mantissa that was shifted left gives it back. *)
Lemma binary_round_aux_shifted s m e k :
  canonical m e →
  binary_round_aux prec emax s (Z.pos (Pos.iter xO m k)) (e - Z.pos k) loc_Exact
  = overflow_to_infinity s m e.
Proof. intros Hc. apply binary_round_aux_finish; [done|]. by apply shr_fexp_shifted. Qed.

(** The product with [MiB] adds 20 to the exponent: no rounding. *)
Lemma MiB_iter m : (m * 4503599627370496)%positive = Pos.iter xO m 52.
Proof. apply Pos2Z.inj. rewrite iter_xO_value, Pos2Z.inj_mul. done. Qed.

Lemma f64_mul_MiB m e :
  digits m = 53 → -1094 ≤ e ≤ 951 →
  f64_mul (S754_finite false m e) MiB = S754_finite false m (e + 20).
Proof.
  intros Hd He. rewrite MiB_value. unfold f64_mul, SFmul. cbn [xorb].
  rewrite MiB_iter. replace (e + -32) with (e + 20 - 52) by lia.
  rewrite binary_round_aux_shifted by (apply canonical_normal; lia).
  apply overflow_to_infinity_finite. lia.
Qed.

(** A canonical mantissa has at most 53 digits, and exactly 53 above the
    least exponent. *)
Lemma canonical_bound m e : canonical m e → Z.pos m < 2 ^ 53.
Proof.
  intros Hc%canonical_spec. pose proof (digits_bounds m) as [_ B].
  assert (2 ^ digits m ≤ 2 ^ 53) by (apply Z.pow_le_mono_r; lia). lia.
Qed.

Lemma canonical_normal_bound m e : canonical m e → -1074 < e → 2 ^ 52 ≤ Z.pos m.
Proof.
  intros Hc%canonical_spec He. pose proof (digits_bounds m) as [B _].
  by replace (digits m - 1) with 52 in B by lia.
Qed.

(** Of two canonical pairs the one with the smaller exponent is the smaller
    number. *)
Lemma canonical_lt m1 e1 m2 e2 :
  canonical m1 e1 → canonical m2 e2 → e1 < e2 → Z.pos m1 < Z.pos m2 * 2 ^ (e2 - e1).
Proof.
  intros H1 H2 He. pose proof (canonical_bound _ _ H1).
  assert (-1074 ≤ e1) by (apply canonical_spec in H1; lia).
  pose proof (canonical_normal_bound _ _ H2).
  assert (2 ^ 1 ≤ 2 ^ (e2 - e1)) by (apply Z.pow_le_mono_r; lia). nia.
Qed.

(** Positive floats compare as the numbers they denote. *)
Lemma SFcompare_canonical m1 e1 m2 e2 :
  canonical m1 e1 → canonical m2 e2 →
  SFcompare (S754_finite false m1 e1) (S754_finite false m2 e2) =
  Some (Z.pos m1 * 2 ^ (e1 - Z.min e1 e2) ?= Z.pos m2 * 2 ^ (e2 - Z.min e1 e2)).
Proof.
  intros H1 H2. cbn [SFcompare]. f_equal. destruct (Z.compare_spec e1 e2) as [->|H|H].
  - rewrite Z.min_id, Z.sub_diag, !Z.mul_1_r. reflexivity.
  - rewrite Z.min_l, Z.sub_diag, Z.mul_1_r by lia. symmetry.
    by apply Z.compare_lt_iff, canonical_lt.
  - rewrite Z.min_r, Z.sub_diag, Z.mul_1_r by lia. symmetry.
    by apply Z.compare_gt_iff, canonical_lt.
Qed.

Lemma digits_le_53 p : Z.pos p < 2 ^ 53 → digits p ≤ 53.
Proof.
  intros H. pose proof (digits_bounds p) as [B _]. pose proof (digits_pos p).
  assert (2 ^ (digits p - 1) < 2 ^ 53) as L by lia.
  apply Z.pow_lt_mono_r_iff in L; lia.
Qed.

Lemma compare_scale a b x y c :
  0 ≤ x → 0 ≤ y → c ≤ x → c ≤ y →
  (a * 2 ^ (x - c) ?= b * 2 ^ (y - c)) = (a * 2 ^ x ?= b * 2 ^ y).
Proof.
  intros Hx Hy Hcx Hcy. destruct (decide (0 ≤ c)) as [Hc|Hc].
  - replace x with (x - c + c) at 2 by lia. replace y with (y - c + c) at 2 by lia.
    rewrite !Z.pow_add_r, !Z.mul_assoc by lia.
    apply Zmult_compare_compat_r, Z.lt_gt. by apply Z.pow_pos_nonneg.
  - replace (x - c) with (x + - c) by lia. replace (y - c) with (y + - c) by lia.
    rewrite !Z.pow_add_r, !Z.mul_assoc by lia.
    symmetry. apply Zmult_compare_compat_r, Z.lt_gt. apply Z.pow_pos_nonneg; lia.
Qed.

(** Integers below [2^53] and their products with [MiB] in normal form. *)
Lemma float64_of_int_scaled p : Z.pos p < 2 ^ 53 → float64_of_int (Z.pos p) = scaled p 0.
Proof.
  intros H%digits_le_53. rewrite float64_of_int_pos by done.
  unfold scaled. by rewrite Z.add_0_r.
Qed.

Lemma f64_mul_MiB_scaled p :
  Z.pos p < 2 ^ 53 → f64_mul (float64_of_int (Z.pos p)) MiB = scaled p 20.
Proof.
  intros H. rewrite float64_of_int_scaled by done. apply digits_le_53 in H.
  unfold scaled. pose proof (digits_pos p).
  rewrite f64_mul_MiB by (rewrite ?digits_normal_mantissa; lia). f_equal. lia.
Qed.

(** [%f] of an integral value: the integer and six zeros. *)
Lemma div_round_even_exact a d : 0 < d → div_round_even (a * d) d = a.
Proof.
  intros H. unfold div_round_even. rewrite Z.div_mul, Z.mod_mul by lia.
  by destruct d.
Qed.

Lemma micros_scaled p k :
  digits p ≤ 53 → 0 ≤ k →
  micros (normal_mantissa p) (digits p - 53 + k) = Z.pos p * 2 ^ k * 10 ^ 6.
Proof.
  intros Hp Hk. unfold micros. rewrite normal_mantissa_value by done.
  pose proof (digits_pos p). case_decide as He.
  - rewrite <-(Z.mul_assoc (Z.pos p)), <-Z.pow_add_r by lia. do 3 f_equal. lia.
  - replace (Z.pos p * 2 ^ (53 - digits p) * 10 ^ 6)
      with (Z.pos p * 2 ^ k * 10 ^ 6 * 2 ^ (- (digits p - 53 + k))).
    { apply div_round_even_exact, Z.pow_pos_nonneg; lia. }
    replace (53 - digits p) with (k + - (digits p - 53 + k)) by lia.
    rewrite Z.pow_add_r by lia. lia.
Qed.

Lemma FormatFloat_scaled p k :
  digits p ≤ 53 → 0 ≤ k →
  FormatFloat (scaled p k) = pretty (Z.pos p * 2 ^ k) +:+ ".000000".
Proof.
  intros Hp Hk. unfold scaled, FormatFloat, format_fixed6, sign_string.
  rewrite micros_scaled, Z.div_mul, Z.mod_mul by done. done.
Qed.

Lemma FormatFloat_limit n :
  0 < n < 2 ^ 53 →
  FormatFloat (f64_mul (float64_of_int n) MiB) = pretty (n * 1048576) +:+ ".000000".
Proof.
  intros Hn. destruct n as [|q|q]; [lia| |lia].
  rewrite f64_mul_MiB_scaled, FormatFloat_scaled by (try apply digits_le_53; lia). done.
Qed.

#[export] Hint Rewrite f64_gt_irrefl f64_gt_nan_l f64_gt_nan_r : go.
