(* ===== verification/GoFloatFormat.v ===== *)
(** * GoFloatFormat: what the verb [%f] prints

    [fmt.Sprintf("%f", x)] prints the exact value of [x] rounded to six
    decimals, ties to even ([GoFloat.FormatFloat]).  This file states what
    that means for the model: the printed millionths are the integer nearest
    to the value times [10^6] ([micros_nearest], [micros_tie]); they depend
    on the number only, not on how mantissa and exponent share it
    ([micros_rescale]); the fraction always has six digits
    ([frac6_length]); a whole number is printed with six zeros
    ([FormatFloat_integral]). *)

From Stdlib Require Import SpecFloat.
From stdpp Require Import pretty.
From S2P Require Import Prelude GoFloat.

Local Open Scope Z_scope.

(** ** Rounding to the nearest, ties to even *)

Lemma div_round_even_cases n d :
  0 < d →
  let q := div_round_even n d in
  (q = n `div` d ∧ 2 * (n `mod` d) ≤ d) ∨ (q = n `div` d + 1 ∧ d ≤ 2 * (n `mod` d)).
Proof.
  intros Hd. unfold div_round_even.
  destruct (Z.compare_spec (2 * (n `mod` d)) d); [destruct (Z.even _)|..]; lia.
Qed.

(** The result is within half a unit of the quotient. *)
Lemma div_round_even_nearest n d : 0 < d → 2 * Z.abs (n - div_round_even n d * d) ≤ d.
Proof.
  intros Hd. pose proof (Z.div_mod n d). pose proof (Z.mod_pos_bound n d Hd).
  destruct (div_round_even_cases n d Hd) as [[-> ?]|[-> ?]]; nia.
Qed.

(** Half way between two integers the even one is chosen. *)
Lemma div_round_even_tie n d :
  0 < d → 2 * (n `mod` d) = d → Z.even (div_round_even n d) = true.
Proof.
  intros Hd Ht. unfold div_round_even. rewrite Ht, Z.compare_refl.
  destruct (Z.even (n `div` d)) eqn:E; [done|].
  by rewrite Z.even_add, E.
Qed.

(** Numerator and denominator may be scaled together. *)
Lemma div_round_even_scale n d k :
  0 < d → 0 < k → div_round_even (n * k) (d * k) = div_round_even n d.
Proof.
  intros Hd Hk. unfold div_round_even.
  rewrite Z.div_mul_cancel_r, Z.mul_mod_distr_r by lia.
  replace (2 * (n `mod` d * k)) with (2 * (n `mod` d) * k) by lia.
  by rewrite <-Zmult_compare_compat_r by lia.
Qed.

Lemma div_round_even_nonneg n d : 0 ≤ n → 0 < d → 0 ≤ div_round_even n d.
Proof.
  intros Hn Hd. pose proof (Z.div_pos n d Hn Hd).
  destruct (div_round_even_cases n d Hd) as [[-> ?]|[-> ?]]; lia.
Qed.

(** ** The millionths of a float *)

(** [micros m e] is the integer nearest to [m * 2^e * 10^6]. *)
Lemma micros_nearest m e :
  2 * Z.abs (Z.pos m * 10 ^ 6 * 2 ^ Z.max e 0 - micros m e * 2 ^ Z.max (- e) 0)
  ≤ 2 ^ Z.max (- e) 0.
Proof.
  unfold micros. case_decide.
  - rewrite Z.max_l, Z.max_r by lia. change (2 ^ 0) with 1. lia.
  - rewrite Z.max_r, Z.max_l by lia. change (2 ^ 0) with 1. rewrite Z.mul_1_r.
    apply div_round_even_nearest, Z.pow_pos_nonneg; lia.
Qed.

Lemma micros_nonneg m e : 0 ≤ micros m e.
Proof.
  unfold micros. case_decide.
  - assert (0 < 2 ^ e) by (by apply Z.pow_pos_nonneg). lia.
  - apply div_round_even_nonneg; [lia|]. apply Z.pow_pos_nonneg; lia.
Qed.

(** What is printed depends on the number only: trading the mantissa
    against the exponent changes nothing. *)
Lemma micros_rescale m m' e j :
  0 ≤ j → Z.pos m' = Z.pos m * 2 ^ j → micros m' (e - j) = micros m e.
Proof.
  intros Hj Hm. unfold micros. rewrite Hm.
  assert (0 < 2 ^ j) by (by apply Z.pow_pos_nonneg).
  destruct (decide (0 ≤ e - j)), (decide (0 ≤ e)); try lia.
  - rewrite <-(Z.mul_assoc (Z.pos m)), <-Z.pow_add_r by lia. do 3 f_equal. lia.
  - replace (Z.pos m * 2 ^ j * 10 ^ 6) with (Z.pos m * 2 ^ e * 10 ^ 6 * 2 ^ (- (e - j))).
    { apply div_round_even_exact, Z.pow_pos_nonneg; lia. }
    replace j with (e + - (e - j)) at 2 by lia. rewrite Z.pow_add_r by lia. lia.
  - replace (- (e - j)) with (- e + j) by lia. rewrite Z.pow_add_r by lia.
    replace (Z.pos m * 2 ^ j * 10 ^ 6) with (Z.pos m * 10 ^ 6 * 2 ^ j) by lia.
    apply div_round_even_scale; [apply Z.pow_pos_nonneg; lia|done].
Qed.

Lemma format_fixed6_rescale m m' e j :
  0 ≤ j → Z.pos m' = Z.pos m * 2 ^ j → format_fixed6 m' (e - j) = format_fixed6 m e.
Proof. intros Hj Hm. unfold format_fixed6. by rewrite (micros_rescale m m' e j). Qed.

(** [%f] of any float whose value is the integer [b]. *)
Lemma FormatFloat_integral m e b :
  Z.pos m * 2 ^ Z.max e 0 = b * 2 ^ Z.max (- e) 0 →
  FormatFloat (S754_finite false m e) = pretty b +:+ ".000000".
Proof.
  intros Hb. unfold FormatFloat, format_fixed6, sign_string, micros. case_decide as He.
  - rewrite Z.max_l, Z.max_r, Z.mul_1_r in Hb by lia.
    by rewrite Hb, Z.div_mul, Z.mod_mul.
  - rewrite Z.max_r, Z.max_l, Z.mul_1_r in Hb by lia.
    replace (Z.pos m * 10 ^ 6) with (b * 10 ^ 6 * 2 ^ (- e)) by lia.
    rewrite div_round_even_exact by (apply Z.pow_pos_nonneg; lia).
    by rewrite Z.div_mul, Z.mod_mul.
Qed.

Example FormatFloat_tenth_MiB : FormatFloat (f64_mul tenth MiB) = "104857.600000".
Proof. vm_compute. done. Qed.

(** ** Six decimals, always *)

Lemma pretty_N_go_length (k : nat) (x : N) s :
  (x < 10 ^ N.of_nat k)%N →
  (String.length (pretty_N_go x s) ≤ String.length s + k)%nat.
Proof.
  revert x s. induction k as [|k IH]; intros x s Hx.
  { replace x with 0%N by (cbn in Hx; lia). rewrite pretty_N_go_0. lia. }
  destruct (decide (x = 0%N)) as [->|Hx0]; [rewrite pretty_N_go_0; lia|].
  rewrite pretty_N_go_step by lia. etrans; [apply IH|cbn; lia].
  rewrite Nat2N.inj_succ, N.pow_succ_r' in Hx. by apply N.Div0.div_lt_upper_bound.
Qed.

(** A number below [10^k] has at most [k] digits. *)
Lemma pretty_length (k : nat) (z : Z) :
  (0 < k)%nat → 0 ≤ z < 10 ^ Z.of_nat k → (String.length (pretty z) ≤ k)%nat.
Proof.
  intros Hk Hz. destruct z as [|p|p]; [cbn; lia| |lia].
  change (pretty (Z.pos p)) with (pretty_N_go (N.pos p) "").
  apply (pretty_N_go_length k _ ""). apply N2Z.inj_lt.
  rewrite N2Z.inj_pow, nat_N_Z. cbn. lia.
Qed.

Lemma zeros_length n : String.length (zeros n) = n.
Proof. induction n; cbn; congruence. Qed.

Lemma frac6_length k : 0 ≤ k < 10 ^ 6 → String.length (frac6 k) = 6%nat.
Proof.
  intros Hk. unfold frac6. pose proof (pretty_length 6 k) as H.
  rewrite string_app_length, zeros_length. cbn in H. lia.
Qed.

(** The printed number: the integer part, a dot and six digits. *)
Lemma format_fixed6_shape m e :
  ∃ f, format_fixed6 m e = pretty (micros m e `div` 10 ^ 6) +:+ "." +:+ f ∧
       String.length f = 6%nat.
Proof.
  eexists. split; [done|]. apply frac6_length, Z.mod_pos_bound. lia.
Qed.
