(* ===== verification/GoFloatConv.v ===== *)
(** * GoFloatConv: [float64(n)] for every [int64]

    A file size is an [int64]; the file rule converts it with
    [float64(fh.Size)] before it compares.  Up to [2^53] the conversion is
    exact ([GoFloat.float64_of_int_scaled]).  Above, the format has fewer
    digits than the integer: the conversion shifts the integer right until
    53 digits are left and rounds what it shifted out to the nearest, ties
    to even.  This file follows the bits through the shifts of the
    Standard Library's [binary_normalize] and proves that the float
    denotes [round53 n], the integer nearest to [n] among those with 53
    significant bits ([float64_of_int_spec]); [round53] leaves integers
    below [2^53] alone and is monotone. *)

From Stdlib Require Import SpecFloat.
From S2P Require Import Prelude GoFloat GoFloatFormat.

Local Open Scope Z_scope.

(** [n] rounded to 53 significant bits, ties to even. *)
Definition round53 (n : Z) : Z :=
  let k := Z.max 0 (Z.log2 n + 1 - 53) in
  div_round_even n (2 ^ k) * 2 ^ k.

(** What [k] shifts to the right leave of [p]: the quotient, the last bit
    shifted out, and whether any bit before it was set. *)
Definition shifted (p k : Z) : shr_record :=
  {| shr_m := p `div` 2 ^ k;
     shr_r := Z.odd (p `div` 2 ^ (k - 1));
     shr_s := negb (p `mod` 2 ^ (k - 1) =? 0) |}.

Local Notation exactly m := (Build_shr_record m false false).

(** ** The shifts *)

Lemma shr_1_spec m r s :
  0 ≤ m →
  shr_1 {| shr_m := m; shr_r := r; shr_s := s |} =
  {| shr_m := Z.div2 m; shr_r := Z.odd m; shr_s := r || s |}.
Proof. intros Hm. destruct m as [|[p|p|]|p]; (done || lia). Qed.

(** The bits below position [k] are those below [k - 1] and one more. *)
Lemma mod_pow2_succ p k :
  0 ≤ k →
  p `mod` 2 ^ (k + 1) = p `mod` 2 ^ k + 2 ^ k * (if Z.odd (p `div` 2 ^ k) then 1 else 0).
Proof.
  intros Hk. assert (0 < 2 ^ k) by (by apply Z.pow_pos_nonneg).
  rewrite Z.pow_add_r, Z.pow_1_r, Z.rem_mul_r by lia. by rewrite Zmod_odd.
Qed.

Lemma shifted_1 p : 0 ≤ p → shr_1 (exactly p) = shifted p 1.
Proof.
  intros Hp. rewrite shr_1_spec by done. unfold shifted. cbn [Z.sub Z.pos_sub Z.pow Z.pow_pos Pos.iter Z.mul Pos.mul].
  by rewrite Z.div2_div, Z.div_1_r, Z.mod_1_r.
Qed.

Lemma shifted_succ p k : 0 ≤ p → 0 < k → shr_1 (shifted p k) = shifted p (k + 1).
Proof.
  intros Hp Hk. assert (0 < 2 ^ k ∧ 0 < 2 ^ (k - 1)) as [??]
    by (split; apply Z.pow_pos_nonneg; lia).
  unfold shifted. rewrite shr_1_spec by (by apply Z.div_pos).
  replace (k + 1 - 1) with k by lia. f_equal.
  - by rewrite Z.div2_div, Z.div_div, Z.pow_add_r by lia.
  - pose proof (mod_pow2_succ p (k - 1)) as E. replace (k - 1 + 1) with k in E by lia.
    pose proof (Z.mod_pos_bound p (2 ^ (k - 1))).
    rewrite E by lia. destruct (Z.odd _); repeat case_match; cbn; try done; lia.
Qed.

Lemma iter_shr_1 p k : 0 ≤ p → Pos.iter shr_1 (exactly p) k = shifted p (Z.pos k).
Proof.
  intros Hp. induction k as [|k IH] using Pos.peano_ind; [by apply shifted_1|].
  rewrite Pos.iter_succ, IH, shifted_succ, Pos2Z.inj_succ by lia. done.
Qed.

(** Rounding what the shifts left is rounding the quotient. *)
Lemma round_shifted p k :
  0 ≤ p → 0 < k →
  round_nearest_even (shr_m (shifted p k)) (loc_of_shr_record (shifted p k))
  = div_round_even p (2 ^ k).
Proof.
  intros Hp Hk. assert (0 < 2 ^ (k - 1)) by (apply Z.pow_pos_nonneg; lia).
  pose proof (mod_pow2_succ p (k - 1)) as E. replace (k - 1 + 1) with k in E by lia.
  assert (2 ^ k = 2 * 2 ^ (k - 1)) as E2
    by (rewrite <-Z.pow_succ_r by lia; f_equal; lia).
  pose proof (Z.mod_pos_bound p (2 ^ (k - 1))).
  unfold shifted, div_round_even. cbn [shr_m loc_of_shr_record round_nearest_even].
  rewrite E by lia.
  destruct (Z.odd (p `div` 2 ^ (k - 1))), (Z.eqb_spec (p `mod` 2 ^ (k - 1)) 0);
    cbn [negb round_nearest_even];
    destruct (Z.compare_spec (2 * (p `mod` 2 ^ (k - 1) + 2 ^ (k - 1) * 1)) (2 ^ k));
    destruct (Z.compare_spec (2 * (p `mod` 2 ^ (k - 1) + 2 ^ (k - 1) * 0)) (2 ^ k));
    (done || lia).
Qed.

(** ** The conversion *)

Lemma digits_log2 p : digits p = Z.log2 (Z.pos p) + 1.
Proof. unfold digits. rewrite digits2_pos_size. destruct p; cbn; lia. Qed.

(** The number of digits is determined by the binade. *)
Lemma digits_unique p d : 2 ^ (d - 1) ≤ Z.pos p < 2 ^ d → digits p = d.
Proof.
  intros [H1 H2]. pose proof (digits_bounds p) as [B1 B2]. pose proof (digits_pos p).
  destruct (Z.lt_trichotomy (digits p) d) as [Hlt|[->|Hgt]]; [|done|].
  - assert (2 ^ digits p ≤ 2 ^ (d - 1)) by (apply Z.pow_le_mono_r; lia). lia.
  - assert (0 < d).
    { destruct (decide (0 < d)); [done|].
      assert (2 ^ d ≤ 2 ^ 0) by (apply Z.pow_le_mono_r; lia). change (2 ^ 0) with 1 in *. lia. }
    assert (2 ^ d ≤ 2 ^ (digits p - 1)) by (apply Z.pow_le_mono_r; lia). lia.
Qed.

(** An integer of more than 53 digits is shifted right to 53. *)
Lemma shr_fexp_large p :
  53 < digits p →
  shr_fexp prec emax (Z.pos p) 0 loc_Exact = (shifted (Z.pos p) (digits p - 53), digits p - 53).
Proof.
  intros Hd. unfold shr_fexp. change (Zdigits2 (Z.pos p)) with (digits p).
  replace (fexp prec emax (digits p + 0) - 0) with (digits p - 53)
    by (unfold fexp, SpecFloat.emin, prec, emax; lia).
  destruct (digits p - 53) as [|k|k] eqn:E; [lia| |lia].
  cbn [shr shr_record_of_loc]. by rewrite iter_pos_iter, iter_shr_1.
Qed.

(** The quotient has 53 digits, and rounding adds at most one. *)
Lemma quotient_bounds p :
  53 < digits p →
  2 ^ 52 ≤ div_round_even (Z.pos p) (2 ^ (digits p - 53)) ≤ 2 ^ 53.
Proof.
  intros Hd. set (k := digits p - 53). assert (0 < 2 ^ k) as Hk by (apply Z.pow_pos_nonneg; lia).
  pose proof (digits_bounds p) as [B1 B2].
  replace (digits p - 1) with (52 + k) in B1 by lia. replace (digits p) with (53 + k) in B2 by lia.
  rewrite Z.pow_add_r in B1, B2 by lia.
  assert (2 ^ 52 ≤ Z.pos p `div` 2 ^ k < 2 ^ 53) as [??].
  { split; [apply Z.div_le_lower_bound; lia|apply Z.div_lt_upper_bound; lia]. }
  destruct (div_round_even_cases (Z.pos p) (2 ^ k) Hk) as [[-> _]|[-> _]]; lia.
Qed.

(** A carry out of the 53 digits is one more shift. *)
Lemma shr_fexp_carry e :
  -1074 ≤ e →
  shr_fexp prec emax (2 ^ 53) e loc_Exact = (exactly (2 ^ 52), e + 1).
Proof.
  intros He. unfold shr_fexp. change (Zdigits2 (2 ^ 53)) with 54.
  by replace (fexp prec emax (54 + e) - e) with 1
    by (unfold fexp, SpecFloat.emin, prec, emax; lia).
Qed.

Lemma shl_align_right m e e' : e ≤ e' → shl_align m e e' = (m, e).
Proof. intros He. unfold shl_align. destruct (e' - e) eqn:E; (done || lia). Qed.

(** The rounded quotient is the mantissa, or a power of two after a carry. *)
Lemma round_finish s q k :
  2 ^ 52 ≤ q ≤ 2 ^ 53 → -1074 ≤ k ≤ 970 →
  (let '(mrs'', e'') := shr_fexp prec emax q k loc_Exact in
   match shr_m mrs'' with
   | 0 => S754_zero s
   | Z.pos m0 => if e'' <=? emax - prec then S754_finite s m0 e'' else S754_infinity s
   | Z.neg _ => S754_nan
   end) =
  if decide (q < 2 ^ 53) then S754_finite s (Z.to_pos q) k
  else S754_finite s (Z.to_pos (2 ^ 52)) (k + 1).
Proof.
  intros Hq Hk. case_decide as Hlt.
  - destruct q as [|q'|q']; [lia| |lia].
    rewrite shr_fexp_canonical by (apply canonical_normal; [apply digits_unique|]; lia).
    cbn [shr_m Z.to_pos]. apply overflow_to_infinity_finite. lia.
  - replace q with (2 ^ 53) by lia. rewrite shr_fexp_carry by lia.
    apply (overflow_to_infinity_finite s (Z.to_pos (2 ^ 52))). lia.
Qed.

Lemma float64_of_int_large p :
  53 < digits p ≤ 1023 →
  float64_of_int (Z.pos p) =
  if decide (div_round_even (Z.pos p) (2 ^ (digits p - 53)) < 2 ^ 53)
  then S754_finite false (Z.to_pos (div_round_even (Z.pos p) (2 ^ (digits p - 53)))) (digits p - 53)
  else S754_finite false (Z.to_pos (2 ^ 52)) (digits p - 53 + 1).
Proof.
  intros Hd. pose proof (quotient_bounds p (proj1 Hd)) as Hq.
  unfold float64_of_int, binary_normalize, binary_round. fold (digits p).
  rewrite shl_align_right by (unfold fexp, SpecFloat.emin, prec, emax; lia).
  unfold binary_round_aux. rewrite shr_fexp_large, round_shifted by lia.
  apply round_finish; lia.
Qed.

(** ** What the float denotes *)

Lemma digits_le p d : Z.pos p < 2 ^ d → digits p ≤ d.
Proof.
  intros H. pose proof (digits_bounds p) as [B _]. pose proof (digits_pos p).
  destruct (decide (digits p ≤ d)); [done|].
  assert (2 ^ d ≤ 2 ^ (digits p - 1)) by (apply Z.pow_le_mono_r; lia). lia.
Qed.

Lemma digits_mono p p' : (p ≤ p')%positive → digits p ≤ digits p'.
Proof.
  intros H. rewrite !digits_log2. apply Z.add_le_mono_r, Z.log2_le_mono. lia.
Qed.

Lemma round53_pos p :
  round53 (Z.pos p) =
  div_round_even (Z.pos p) (2 ^ Z.max 0 (digits p - 53)) * 2 ^ Z.max 0 (digits p - 53).
Proof. unfold round53. by rewrite digits_log2. Qed.

(** Below [2^53] nothing is rounded. *)
Lemma round53_small n : 0 ≤ n < 2 ^ 53 → round53 n = n.
Proof.
  intros Hn. destruct n as [|p|p]; [done| |lia].
  pose proof (digits_le p 53). rewrite round53_pos, Z.max_l by lia.
  change (2 ^ 0) with 1. rewrite Z.mul_1_r. rewrite <-(Z.mul_1_r (Z.pos p)) at 1.
  by apply div_round_even_exact.
Qed.

(** The rounded integer stays in the binade, its upper end included. *)
Lemma round53_bounds p : 2 ^ (digits p - 1) ≤ round53 (Z.pos p) ≤ 2 ^ digits p.
Proof.
  pose proof (digits_bounds p). pose proof (digits_pos p).
  destruct (decide (digits p ≤ 53)) as [Hd|Hd].
  - rewrite round53_small; [lia|]. split; [lia|].
    assert (2 ^ digits p ≤ 2 ^ 53) by (apply Z.pow_le_mono_r; lia). lia.
  - rewrite round53_pos, Z.max_r by lia. pose proof (quotient_bounds p ltac:(lia)) as Hq.
    assert (0 < 2 ^ (digits p - 53)) by (apply Z.pow_pos_nonneg; lia).
    assert (2 ^ (digits p - 1) = 2 ^ 52 * 2 ^ (digits p - 53)) as ->
      by (rewrite <-Z.pow_add_r by lia; f_equal; lia).
    assert (2 ^ digits p = 2 ^ 53 * 2 ^ (digits p - 53)) as ->
      by (rewrite <-Z.pow_add_r by lia; f_equal; lia).
    nia.
Qed.

(** [float64(n)] is a canonical float that denotes [round53 n]; the values
    are compared in units of [2^-1074], the least positive float. *)
Lemma float64_of_int_spec p :
  digits p ≤ 1023 →
  ∃ m e, float64_of_int (Z.pos p) = S754_finite false m e ∧ canonical m e ∧
         Z.pos m * 2 ^ (e + 1074) = round53 (Z.pos p) * 2 ^ 1074.
Proof.
  intros Hd. pose proof (digits_pos p). destruct (decide (digits p ≤ 53)) as [Hs|Hl].
  - exists (normal_mantissa p), (digits p - 53). rewrite float64_of_int_pos by done.
    split_and!; [done|apply canonical_normal; [by apply digits_normal_mantissa|lia]|].
    pose proof (digits_bounds p). assert (2 ^ digits p ≤ 2 ^ 53) by (apply Z.pow_le_mono_r; lia).
    rewrite round53_small, normal_mantissa_value by lia.
    rewrite <-Z.mul_assoc, <-Z.pow_add_r by lia. do 2 f_equal. lia.
  - pose proof (quotient_bounds p ltac:(lia)) as Hq.
    rewrite float64_of_int_large, round53_pos, Z.max_r by lia.
    set (k := digits p - 53) in *. set (q := div_round_even _ _) in *.
    case_decide as Hlt; eexists _, _; (split; [done|]).
    + split; [apply canonical_normal; [apply digits_unique; rewrite Z2Pos.id|]; lia|].
      rewrite Z2Pos.id, Z.pow_add_r by lia. lia.
    + split; [by apply canonical_normal; [|lia]|].
      replace q with (2 ^ 53) by lia. rewrite !Z.pow_add_r by lia. lia.
Qed.

(** ** Rounding is monotone *)

Lemma div_round_even_mono n n' d : 0 < d → n ≤ n' → div_round_even n d ≤ div_round_even n' d.
Proof.
  intros Hd Hn. destruct (decide (n = n')) as [->|Hne]; [done|].
  pose proof (Z.div_mod n d). pose proof (Z.div_mod n' d).
  pose proof (Z.mod_pos_bound n d Hd). pose proof (Z.mod_pos_bound n' d Hd).
  pose proof (Z.div_le_mono n n' d Hd Hn).
  destruct (div_round_even_cases n d Hd) as [[-> ?]|[-> ?]],
    (div_round_even_cases n' d Hd) as [[-> ?]|[-> ?]]; nia.
Qed.

Lemma round53_mono n n' : 0 ≤ n ≤ n' → round53 n ≤ round53 n'.
Proof.
  intros [H0 Hn]. destruct n as [|p|p]; [|clear H0|lia]; (destruct n' as [|p'|p']; [lia| |lia]).
  { pose proof (round53_bounds p'). pose proof (digits_pos p').
    assert (0 < 2 ^ (digits p' - 1)) by (apply Z.pow_pos_nonneg; lia).
    change (round53 0) with 0. lia. }
  pose proof (digits_mono p p' Hn) as Hd. destruct (decide (digits p = digits p')) as [E|E].
  - rewrite !round53_pos, E. apply Z.mul_le_mono_nonneg_r; [apply Z.pow_nonneg; lia|].
    apply div_round_even_mono; [apply Z.pow_pos_nonneg|]; lia.
  - pose proof (round53_bounds p). pose proof (round53_bounds p').
    assert (2 ^ digits p ≤ 2 ^ (digits p' - 1)) by (apply Z.pow_le_mono_r; lia). lia.
Qed.

(** The first integer that the conversion changes. *)
Example round53_first : round53 (2 ^ 53 + 1) = 2 ^ 53 ∧ round53 (2 ^ 53 + 3) = 2 ^ 53 + 4.
Proof. by vm_compute. Qed.
