(* ===== verification/GoFloatLimit.v ===== *)
(** * GoFloatLimit: the size check for every limit

    The file rule compares [float64(fh.Size)] with [size * float64(1024 *
    1024)], where [size] is whatever float the caller wrote in the rule.
    This file characterises that comparison for every float64 there is:
    normal and subnormal, of either sign, zero, infinite and NaN.  The
    reference [exceeds] is the comparison of the numbers, on integers; the
    theorem [f64_gt_MiB] says that the float comparison of the source
    computes it for every size from 0 to [2^63], the size rounded to 53
    bits as its conversion rounds it ([GoFloatConv.round53]).

    The proof follows the product through the rounding of binary64.  The
    product of a canonical mantissa with [2^52] (the mantissa of [MiB]) is
    shifted right by the format to a canonical mantissa again, and all the
    bits shifted out are zeros: a normal limit keeps its mantissa and gains
    20 in the exponent, a subnormal one is normalised by at most 20 places
    ([f64_mul_MiB_canonical]).  The product is exact unless it overflows to
    an infinity, and then it is above every size.  Canonical floats compare
    as the numbers they denote ([GoFloat.SFcompare_canonical]). *)

From Stdlib Require Import SpecFloat.
From stdpp Require Import pretty.
From S2P Require Import Prelude GoFloat GoFloatFormat GoFloatConv.

Local Open Scope Z_scope.

(** ** The reference *)

(** The mantissa with its sign. *)
Definition signed (s : bool) (m : positive) : Z := if s then Z.neg m else Z.pos m.

(** [a * 2^e < b] on integers: the power of two is on the side where its
    exponent is not negative. *)
Definition below (a e b : Z) : Prop := a * 2 ^ Z.max e 0 < b * 2 ^ Z.max (- e) 0.

#[export] Instance below_dec a e b : Decision (below a e b).
Proof. unfold below. apply _. Defined.

(** Is a file of [size] bytes larger than [limit] MiB?  The comparison of
    the numbers: a finite limit [± m * 2^e] MiB is [± m * 2^(e + 20)]
    bytes; no size is above [+Inf] or comparable with NaN; every size is
    above [-Inf]. *)
Definition exceeds (size : Z) (limit : float64) : bool :=
  match limit with
  | S754_nan => false
  | S754_infinity s => s
  | S754_zero _ => bool_decide (0 < size)
  | S754_finite s m e => bool_decide (below (signed s m) (e + 20) size)
  end.

(** ** The product with [MiB] *)

(** The places by which the product normalises a mantissa of fewer than 53
    digits: as many as it lacks, 20 at most. *)
Definition MiB_places (m : positive) : Z := Z.min 20 (53 - digits m).

Definition MiB_product (s : bool) (m : positive) (e : Z) : float64 :=
  let j := MiB_places m in
  overflow_to_infinity s (Pos.shiftl m (Z.to_N j)) (e + 20 - j).

(** ** Comparing dyadic numbers on integers *)

Lemma pow2_pos e : 0 < 2 ^ Z.max e 0.
Proof. apply Z.pow_pos_nonneg; lia. Qed.

Lemma compare_shift a b x y d :
  0 ≤ x → 0 ≤ y → 0 ≤ d → (a * 2 ^ (x + d) ?= b * 2 ^ (y + d)) = (a * 2 ^ x ?= b * 2 ^ y).
Proof.
  intros Hx Hy Hd. rewrite !Z.pow_add_r, !Z.mul_assoc by lia.
  symmetry. apply Zmult_compare_compat_r, Z.lt_gt. by apply Z.pow_pos_nonneg.
Qed.

Lemma compare_dyadic a b e c :
  c ≤ e → c ≤ 0 →
  (a * 2 ^ (e - c) ?= b * 2 ^ (- c)) = (a * 2 ^ Z.max e 0 ?= b * 2 ^ Z.max (- e) 0).
Proof.
  intros He Hc. destruct (decide (0 ≤ e)).
  - rewrite Z.max_l, Z.max_r by lia.
    replace (e - c) with (e + - c) by lia. replace (- c) with (0 + - c) at 2 by lia.
    apply compare_shift; lia.
  - rewrite Z.max_r, Z.max_l by lia.
    replace (e - c) with (0 + (e - c)) by lia. replace (- c) with (- e + (e - c)) by lia.
    apply compare_shift; lia.
Qed.

(** [below a e b] is [a * 2^e < b] with the denominators cleared by any
    power of two that is large enough. *)
Lemma below_scale a e b c : 0 ≤ c → 0 ≤ e + c → below a e b ↔ a * 2 ^ (e + c) < b * 2 ^ c.
Proof.
  intros Hc Hec. unfold below. rewrite <-!Z.compare_lt_iff.
  rewrite <-(compare_dyadic a b e (- c)) by lia.
  replace (e - - c) with (e + c) by lia. by rewrite Z.opp_involutive.
Qed.

(** The mantissa may be traded against the exponent. *)
Lemma below_rescale a e b j : 0 ≤ j → below (a * 2 ^ j) (e - j) b ↔ below a e b.
Proof.
  intros Hj. rewrite (below_scale _ (e - j) _ (j + Z.abs e)), (below_scale a e b (j + Z.abs e)) by lia.
  rewrite <-Z.mul_assoc, <-Z.pow_add_r by lia.
  by replace (j + (e - j + (j + Z.abs e))) with (e + (j + Z.abs e)) by lia.
Qed.

(** More is above a limit than less. *)
Lemma below_mono a e b b' : b ≤ b' → below a e b → below a e b'.
Proof. unfold below. pose proof (pow2_pos (- e)). nia. Qed.

Lemma below_negative m e b : 0 ≤ b → below (Z.neg m) e b.
Proof. unfold below. pose proof (pow2_pos e). pose proof (pow2_pos (- e)). nia. Qed.

Lemma below_zero m e : ¬ below (Z.pos m) e 0.
Proof. unfold below. pose proof (pow2_pos e). nia. Qed.

(** ** The product is exact *)

Lemma shiftl_value m n : Z.pos (Pos.shiftl m n) = Z.pos m * 2 ^ Z.of_N n.
Proof. destruct n as [|k]; [by rewrite Z.pow_0_r, Z.mul_1_r|apply iter_xO_value]. Qed.

Lemma shiftl_digits m n : digits (Pos.shiftl m n) = digits m + Z.of_N n.
Proof. destruct n as [|k]; [by rewrite Z.add_0_r|apply digits_iter_xO]. Qed.

Lemma signed_shiftl s m n : signed s (Pos.shiftl m n) = signed s m * 2 ^ Z.of_N n.
Proof.
  pose proof (shiftl_value m n) as H. destruct s; cbn [signed]; [|done].
  rewrite <-!Pos2Z.opp_pos, H. lia.
Qed.

Lemma MiB_places_bounds m e : canonical m e → 0 ≤ MiB_places m ≤ 20.
Proof. intros Hc%canonical_spec. unfold MiB_places. lia. Qed.

(** The normalised product is canonical. *)
Lemma MiB_product_canonical m e :
  canonical m e →
  canonical (Pos.shiftl m (Z.to_N (MiB_places m))) (e + 20 - MiB_places m).
Proof.
  intros Hc. pose proof (MiB_places_bounds m e Hc). pose proof (digits_pos m).
  apply canonical_spec in Hc. apply canonical_spec.
  rewrite shiftl_digits, Z2N.id by lia. unfold MiB_places in *. lia.
Qed.

(** The product of a finite float with [MiB] is the float times [2^20],
    or an infinity when that is too large for the format. *)
Lemma f64_mul_MiB_canonical s m e :
  canonical m e → f64_mul (S754_finite s m e) MiB = MiB_product s m e.
Proof.
  intros Hc. pose proof (MiB_places_bounds m e Hc) as Hj.
  rewrite MiB_value. unfold f64_mul, SFmul, MiB_product. rewrite xorb_false_r, MiB_iter.
  set (j := MiB_places m) in *. set (m' := Pos.shiftl m (Z.to_N j)).
  assert (Pos.iter xO m 52 = Pos.iter xO m' (Z.to_pos (52 - j))) as ->.
  { apply Pos2Z.inj. unfold m'. rewrite !iter_xO_value, shiftl_value, Z2N.id, Z2Pos.id by lia.
    rewrite <-Z.mul_assoc, <-Z.pow_add_r by lia. do 2 f_equal. lia. }
  replace (e + -32) with (e + 20 - j - Z.pos (Z.to_pos (52 - j))) by (rewrite Z2Pos.id; lia).
  by apply binary_round_aux_shifted, MiB_product_canonical.
Qed.

(** A normal limit keeps its mantissa. *)
Lemma MiB_product_normal s m e :
  digits m = 53 → MiB_product s m e = overflow_to_infinity s m (e + 20).
Proof.
  intros Hd. unfold MiB_product, MiB_places. rewrite Hd. cbn. by rewrite Z.sub_0_r.
Qed.

Lemma f64_mul_nan_MiB : f64_mul S754_nan MiB = S754_nan.
Proof. done. Qed.

Lemma f64_mul_infinity_MiB s : f64_mul (S754_infinity s) MiB = S754_infinity s.
Proof. by destruct s. Qed.

Lemma f64_mul_zero_MiB s : f64_mul (S754_zero s) MiB = S754_zero s.
Proof. by destruct s. Qed.

(** ** The comparison is exact *)

(** Canonical floats compare as their values in units of [2^-1074]. *)
Lemma SFcompare_units m1 e1 m2 e2 :
  canonical m1 e1 → canonical m2 e2 →
  SFcompare (S754_finite false m1 e1) (S754_finite false m2 e2) =
  Some (Z.pos m1 * 2 ^ (e1 + 1074) ?= Z.pos m2 * 2 ^ (e2 + 1074)).
Proof.
  intros H1 H2. rewrite SFcompare_canonical by done. f_equal.
  apply canonical_spec in H1, H2. set (c := Z.min e1 e2).
  replace (e1 - c) with (e1 + 1074 - (c + 1074)) by lia.
  replace (e2 - c) with (e2 + 1074 - (c + 1074)) by lia.
  apply compare_scale; lia.
Qed.

Lemma round53_range size : 0 ≤ size < 2 ^ 63 → 0 ≤ round53 size ≤ 2 ^ 63 ∧ (0 < round53 size ↔ 0 < size).
Proof.
  intros Hs. destruct size as [|p|p]; [done| |lia].
  pose proof (round53_bounds p). pose proof (digits_pos p). pose proof (digits_le p 63).
  assert (0 < 2 ^ (digits p - 1)) by (apply Z.pow_pos_nonneg; lia).
  assert (2 ^ digits p ≤ 2 ^ 63) by (apply Z.pow_le_mono_r; lia). lia.
Qed.

(** The conversion of a size: zero, or a canonical float that denotes the
    size rounded to 53 bits. *)
Lemma float64_of_int_cases size :
  0 ≤ size < 2 ^ 63 →
  size = 0 ∧ float64_of_int size = S754_zero false ∨
  ∃ m e, float64_of_int size = S754_finite false m e ∧ canonical m e ∧
         Z.pos m * 2 ^ (e + 1074) = round53 size * 2 ^ 1074.
Proof.
  intros Hs. destruct size as [|p|p]; [by left| |lia].
  right. apply float64_of_int_spec. pose proof (digits_le p 63). lia.
Qed.

Lemma f64_gt_infinity size :
  0 ≤ size < 2 ^ 63 → f64_gt (float64_of_int size) (S754_infinity false) = false.
Proof. by intros [[-> ->]|(m & e & -> & _)]%float64_of_int_cases. Qed.

Lemma f64_gt_neg_infinity size :
  0 ≤ size < 2 ^ 63 → f64_gt (float64_of_int size) (S754_infinity true) = true.
Proof. by intros [[-> ->]|(m & e & -> & _)]%float64_of_int_cases. Qed.

Lemma f64_gt_zero size s :
  0 ≤ size < 2 ^ 63 → f64_gt (float64_of_int size) (S754_zero s) = bool_decide (0 < size).
Proof.
  intros Hs. destruct size as [|p|p]; [done| |lia].
  by destruct (float64_of_int_cases _ Hs) as [[? _]|(m & e & -> & _)].
Qed.

Lemma f64_gt_negative size m e :
  0 ≤ size < 2 ^ 63 → f64_gt (float64_of_int size) (S754_finite true m e) = true.
Proof. by intros [[-> ->]|(m' & e' & -> & _)]%float64_of_int_cases. Qed.

(** A size is greater than a positive float when, rounded to 53 bits, it is
    as a number. *)
Lemma f64_gt_positive size m e :
  0 ≤ size < 2 ^ 63 → canonical m e →
  f64_gt (float64_of_int size) (S754_finite false m e)
  = bool_decide (below (Z.pos m) e (round53 size)).
Proof.
  intros [[-> ->]|(m' & e' & -> & Hc' & Hv)]%float64_of_int_cases Hc.
  { symmetry. apply bool_decide_eq_false_2, below_zero. }
  unfold f64_gt, SFltb. rewrite SFcompare_units, Hv by done.
  apply canonical_spec in Hc.
  case_bool_decide as C; rewrite (below_scale _ _ _ 1074) in C by lia.
  - by apply Z.compare_lt_iff in C as ->.
  - by destruct (Z.compare_spec (Z.pos m * 2 ^ (e + 1074)) (round53 size * 2 ^ 1074)); [|lia|].
Qed.

Lemma f64_gt_canonical size s m e :
  0 ≤ size < 2 ^ 63 → canonical m e →
  f64_gt (float64_of_int size) (S754_finite s m e)
  = bool_decide (below (signed s m) e (round53 size)).
Proof.
  intros Hs Hc. destruct s; cbn [signed]; [|by apply f64_gt_positive].
  rewrite f64_gt_negative by done. symmetry.
  apply bool_decide_eq_true_2, below_negative, round53_range, Hs.
Qed.

(** A float too large for the format is above every size. *)
Lemma below_overflow b m e : b ≤ 2 ^ 63 → canonical m e → 971 < e → ¬ below (Z.pos m) e b.
Proof.
  intros Hs Hc He. pose proof (canonical_normal_bound m e Hc).
  unfold below. rewrite Z.max_l, Z.max_r by lia.
  assert (2 ^ 11 ≤ 2 ^ e) by (apply Z.pow_le_mono_r; lia). nia.
Qed.

Lemma f64_gt_overflow size s m e :
  0 ≤ size < 2 ^ 63 → canonical m e →
  f64_gt (float64_of_int size) (overflow_to_infinity s m e)
  = bool_decide (below (signed s m) e (round53 size)).
Proof.
  intros Hs Hc. pose proof (round53_range size Hs) as [? _]. destruct (decide (e ≤ 971)).
  { rewrite overflow_to_infinity_finite by done. by apply f64_gt_canonical. }
  rewrite overflow_to_infinity_infinite by lia. symmetry. destruct s; cbn [signed].
  - rewrite f64_gt_neg_infinity by done. apply bool_decide_eq_true_2, below_negative. lia.
  - rewrite f64_gt_infinity by done. apply bool_decide_eq_false_2, below_overflow; (done || lia).
Qed.

Lemma valid_binary_canonical s m e :
  valid_binary prec emax (S754_finite s m e) = true → canonical m e ∧ e ≤ 971.
Proof.
  cbn. unfold bounded. intros [Hc He]%andb_true_iff. split; [by apply canonical_mantissa_canonical|].
  apply Z.leb_le in He. unfold emax, prec in He. lia.
Qed.

(** The size check of the source is the comparison of the numbers, for
    every limit a [float64] can be and every size an [int64] can be that is
    not negative; the size counts as rounded to 53 bits, which below [2^53]
    is the size itself. *)
Theorem f64_gt_MiB size limit :
  0 ≤ size < 2 ^ 63 → valid_binary prec emax limit = true →
  f64_gt (float64_of_int size) (f64_mul limit MiB) = exceeds (round53 size) limit.
Proof.
  intros Hs Hv. destruct limit as [s|s| |s m e]; cbn [exceeds].
  - rewrite f64_mul_zero_MiB, f64_gt_zero by done.
    apply bool_decide_ext. symmetry. by apply round53_range.
  - rewrite f64_mul_infinity_MiB. destruct s; [by apply f64_gt_neg_infinity|by apply f64_gt_infinity].
  - done.
  - apply valid_binary_canonical in Hv as [Hc _].
    pose proof (MiB_places_bounds m e Hc).
    rewrite f64_mul_MiB_canonical by done. unfold MiB_product.
    rewrite f64_gt_overflow by (done || by apply MiB_product_canonical).
    apply bool_decide_ext. rewrite signed_shiftl, Z2N.id by lia. apply below_rescale. lia.
Qed.

Corollary f64_gt_MiB_small size limit :
  0 ≤ size < 2 ^ 53 → valid_binary prec emax limit = true →
  f64_gt (float64_of_int size) (f64_mul limit MiB) = exceeds size limit.
Proof. intros Hs Hv. rewrite f64_gt_MiB by (done || lia). by rewrite round53_small. Qed.

(** For a limit of [n] MiB, [n] an integer: the rounded size against the
    limit in bytes. *)
Lemma f64_gt_integral_round size n :
  0 ≤ size < 2 ^ 63 → 0 < n < 2 ^ 53 →
  f64_gt (float64_of_int size) (f64_mul (float64_of_int n) MiB)
  = bool_decide (n * 2 ^ 20 < round53 size).
Proof.
  intros Hs Hn. destruct n as [|q|q]; [lia| |lia].
  pose proof (digits_le_53 q ltac:(lia)). pose proof (digits_pos q).
  rewrite f64_mul_MiB_scaled by lia. unfold scaled.
  rewrite f64_gt_positive
    by (done || (apply canonical_normal; [by apply digits_normal_mantissa|lia])).
  apply bool_decide_ext. rewrite normal_mantissa_value by done.
  replace (digits q - 53 + 20) with (20 - (53 - digits q)) by lia.
  rewrite below_rescale by lia. unfold below.
  change (Z.max 20 0) with 20. change (Z.max (- 20) 0) with 0. by rewrite Z.pow_0_r, Z.mul_1_r.
Qed.

(** On integers below [2^53] the float comparison with a limit in MiB is
    the integer comparison with the limit in bytes. *)
Corollary f64_gt_integral size n :
  0 ≤ size < 2 ^ 53 → 0 < n < 2 ^ 53 →
  f64_gt (float64_of_int size) (f64_mul (float64_of_int n) MiB)
  = bool_decide (n * 2 ^ 20 < size).
Proof. intros Hs Hn. rewrite f64_gt_integral_round by lia. by rewrite round53_small. Qed.

(** The check is monotone in the size. *)
Lemma exceeds_mono size size' limit :
  size ≤ size' → exceeds size limit = true → exceeds size' limit = true.
Proof.
  intros Hs. destruct limit as [s|s| |s m e]; cbn [exceeds]; try done;
    rewrite !bool_decide_eq_true; [lia|by apply below_mono].
Qed.

Lemma exceeds_round53_mono size size' limit :
  0 ≤ size ≤ size' → exceeds (round53 size) limit = true → exceeds (round53 size') limit = true.
Proof. intros Hs. by apply exceeds_mono, round53_mono. Qed.

(** ** The limit as printed

    The error of the size check shows the product with [%f].  As the product
    is exact, what is printed is the limit in bytes to six decimals, or an
    infinity when the product overflowed. *)

Lemma FormatFloat_MiB s m e :
  canonical m e → e + 20 - MiB_places m ≤ 971 →
  FormatFloat (f64_mul (S754_finite s m e) MiB) = FormatFloat (S754_finite s m (e + 20)).
Proof.
  intros Hc He. pose proof (MiB_places_bounds m e Hc).
  rewrite f64_mul_MiB_canonical by done. unfold MiB_product.
  rewrite overflow_to_infinity_finite by done. cbn [FormatFloat]. f_equal.
  apply format_fixed6_rescale; [lia|]. by rewrite shiftl_value, Z2N.id by lia.
Qed.

Lemma FormatFloat_MiB_overflow s m e :
  canonical m e → 951 < e →
  FormatFloat (f64_mul (S754_finite s m e) MiB) = if s then "-Inf" else "+Inf".
Proof.
  intros Hc He. pose proof (MiB_places_bounds m e Hc).
  rewrite f64_mul_MiB_canonical by done. unfold MiB_product.
  rewrite overflow_to_infinity_infinite; [by destruct s|].
  apply canonical_spec in Hc. unfold MiB_places. lia.
Qed.
