(* ===== verification/Fiber.v ===== *)
(** * Fiber: the request context and the external collaborators

    [Ctx] is the part of [*fiber.Ctx] the sources read and write: the raw
    body, the query arguments, the multipart form files, the locals, the
    response status and body, and the number of streams opened on uploaded
    files and not yet closed.  The libraries the sources call are classes:
    an instance is one behaviour of that library. *)

From S2P Require Import Prelude.

(** ** Uploaded files: [multipart.FileHeader] *)

Record FileHeader : Type := {
  Filename : string;
  FileSize : Z;
  (* the bytes [Open] gives access to; [None] when [Open] fails *)
  FileContent : option string;
}.

#[export] Instance FileHeader_eq_dec : EqDecision FileHeader.
Proof. solve_decision. Defined.

(** A value of type [interface{}]. *)
Definition any : Type := { A : Type & A }.
Definition to_any {A : Type} (a : A) : any := existT A a.

(** ** The context *)

Record Ctx : Type := {
  ctx_body : string;
  ctx_query : gmap string string;
  (* what [FormFile] returns for a key: a header, an error, or both *)
  ctx_form : gmap string (option FileHeader * option string);
  ctx_locals : gmap string any;
  ctx_status : Z;
  ctx_response : option string;
  ctx_content_type : string;
  ctx_open_files : nat;
}.

Definition set_locals (f : gmap string any → gmap string any) (c : Ctx) : Ctx :=
  {| ctx_body := ctx_body c; ctx_query := ctx_query c; ctx_form := ctx_form c;
     ctx_locals := f (ctx_locals c); ctx_status := ctx_status c;
     ctx_response := ctx_response c; ctx_content_type := ctx_content_type c;
     ctx_open_files := ctx_open_files c |}.

Definition set_status (status : Z) (c : Ctx) : Ctx :=
  {| ctx_body := ctx_body c; ctx_query := ctx_query c; ctx_form := ctx_form c;
     ctx_locals := ctx_locals c; ctx_status := status;
     ctx_response := ctx_response c; ctx_content_type := ctx_content_type c;
     ctx_open_files := ctx_open_files c |}.

Definition set_response (raw ctype : string) (c : Ctx) : Ctx :=
  {| ctx_body := ctx_body c; ctx_query := ctx_query c; ctx_form := ctx_form c;
     ctx_locals := ctx_locals c; ctx_status := ctx_status c;
     ctx_response := Some raw; ctx_content_type := ctype;
     ctx_open_files := ctx_open_files c |}.

Definition set_open_files (f : nat → nat) (c : Ctx) : Ctx :=
  {| ctx_body := ctx_body c; ctx_query := ctx_query c; ctx_form := ctx_form c;
     ctx_locals := ctx_locals c; ctx_status := ctx_status c;
     ctx_response := ctx_response c; ctx_content_type := ctx_content_type c;
     ctx_open_files := f (ctx_open_files c) |}.

(** A fresh context for a request: status 200, nothing written. *)
Definition new_ctx (body : string) (query : gmap string string)
    (form : gmap string (option FileHeader * option string)) : Ctx :=
  {| ctx_body := body; ctx_query := query; ctx_form := form; ctx_locals := ∅;
     ctx_status := 200; ctx_response := None; ctx_content_type := "";
     ctx_open_files := 0 |}.

(** ** Operations of the context *)

(** [c.Query(key)]: the argument's value, or the empty string. *)
Definition Query (c : Ctx) (key : string) : string := default "" (ctx_query c !! key).

Definition ErrMissingFile : string :=
  "there is no uploaded file associated with the given key".

(** [c.FormFile(key)]: the pair [(fileHeader, err)]. *)
Definition FormFile (c : Ctx) (key : string) : option FileHeader * option string :=
  default (None, Some ErrMissingFile) (ctx_form c !! key).

(** [c.Status(status)] *)
Definition Status (status : Z) : M Ctx unit := modify (set_status status).

(** [c.Locals(key, value)] *)
Definition Locals (key : string) (value : any) : M Ctx unit :=
  modify (set_locals <[key := value]>).

Definition MIMEApplicationJSON : string := "application/json".

(** [c.JSON(data)] for an encoder result [raw]: the encoder's error is
    returned and nothing is written, else the body and content type are. *)
Definition JSON (raw : string + string) : M Ctx (option error) :=
  match raw with
  | inl err => mret (Some (errorString err))
  | inr bytes => modify (set_response bytes MIMEApplicationJSON);; mret None
  end.

(** [fileHeader.Open()]: the stream, counted as open, or [None]. *)
Definition Open (fh : FileHeader) : M Ctx (option string) :=
  match FileContent fh with
  | Some bytes => modify (set_open_files S);; mret (Some bytes)
  | None => mret None
  end.

(** [file.Close()] *)
Definition Close : M Ctx unit := modify (set_open_files pred).

(** The contract of fasthttp's [FormFile]: a header or an error, not both. *)
Definition form_result_ok (r : option FileHeader * option string) : bool :=
  match r with
  | (Some _, None) | (None, Some _) => true
  | _ => false
  end.

Definition form_ok (c : Ctx) : Prop :=
  map_Forall (λ _ r, form_result_ok r = true) (ctx_form c).

#[export] Instance form_ok_dec c : Decision (form_ok c).
Proof. unfold form_ok. apply _. Defined.

(** ** External collaborators *)

(** [c.BodyParser(body)] for the target type [T]: the decoded value, or the
    text of the error. *)
Class BodyDecoder (T : Type) := BodyParser : Ctx → string + T.

(** go-playground's [validator.FieldError], as far as the sources read it. *)
Record FieldError : Type := {
  fe_Field : string;
  fe_Tag : string;
  fe_Param : string;
}.

#[export] Instance FieldError_eq_dec : EqDecision FieldError.
Proof. solve_decision. Defined.

(** What [validate.Struct] returns: [nil], the violations, or the error for
    a value that is not a struct. *)
Inductive StructResult : Type :=
| StructValid
| ValidationErrors (errs : list FieldError)
| InvalidValidationError.

Class FieldValidator (T : Type) := Struct : T → StructResult.

(** [stringy.New(s).SnakeCase("?", "").ToLower()] *)
Class Stringy := SnakeCaseLower : string → string.

(** [image.Config], and [image.DecodeConfig] on the bytes of a stream:
    [None] when it returns an error. *)
Record Config : Type := {
  ConfigWidth : Z;
  ConfigHeight : Z;
}.

#[export] Instance Config_eq_dec : EqDecision Config.
Proof. solve_decision. Defined.

Class ImageDecoder := DecodeConfig : string → option Config.

(** [response.ValidateFailed] of the response library, and the JSON encoder
    of the application, for violations of type [E]. *)
Class Responder (E : Type) := {
  ResData : Type;
  ValidateFailed : list E → string → Z * ResData;
  JSONEncoder : ResData → string + string;
}.

(** ** Properties of the context operations *)

Lemma Query_missing c key : ctx_query c !! key = None → Query c key = "".
Proof. unfold Query. by intros ->. Qed.

Lemma Query_present c key v : ctx_query c !! key = Some v → Query c key = v.
Proof. unfold Query. by intros ->. Qed.

Lemma FormFile_missing c key :
  ctx_form c !! key = None → FormFile c key = (None, Some ErrMissingFile).
Proof. unfold FormFile. by intros ->. Qed.

Lemma FormFile_form_ok c key :
  form_ok c → form_result_ok (FormFile c key) = true.
Proof.
  unfold FormFile. intros H. destruct (ctx_form c !! key) as [r|] eqn:E; [|done].
  by apply (H key r).
Qed.

Lemma form_ok_header_no_error c key fh err :
  form_ok c → FormFile c key = (Some fh, err) → err = None.
Proof.
  intros H E. pose proof (FormFile_form_ok c key H) as Hr. rewrite E in Hr.
  by destruct err.
Qed.

Lemma Locals_lookup key v c :
  ∃ c', Locals key v c = Ok (tt, c') ∧ ctx_locals c' !! key = Some v.
Proof. eexists. split; [done|]. cbn. by rewrite lookup_insert_eq. Qed.

Lemma set_open_files_pred_S c : set_open_files pred (set_open_files S c) = c.
Proof. by destruct c. Qed.

Lemma Open_Some fh bytes c :
  FileContent fh = Some bytes → Open fh c = Ok (Some bytes, set_open_files S c).
Proof. unfold Open. by intros ->. Qed.

Lemma Open_None fh c : FileContent fh = None → Open fh c = Ok (None, c).
Proof. unfold Open. by intros ->. Qed.

(** What [Open] returns tells whether the stream was opened. *)
Lemma Open_inv fh c r c' :
  Open fh c = Ok (r, c') →
  FileContent fh = r ∧ c' = match r with Some _ => set_open_files S c | None => c end.
Proof. unfold Open. destruct (FileContent fh); by intros [= <- <-]. Qed.

Lemma Close_inv c u c' : Close c = Ok (u, c') → c' = set_open_files pred c.
Proof. by intros [= <- <-]. Qed.

Lemma Locals_inv key v c u c' :
  Locals key v c = Ok (u, c') → c' = set_locals <[key := v]> c.
Proof. by intros [= <- <-]. Qed.

Lemma Open_Close_balanced fh c bytes c1 :
  Open fh c = Ok (Some bytes, c1) →
  ∃ c2, Close c1 = Ok (tt, c2) ∧ ctx_open_files c2 = ctx_open_files c.
Proof.
  unfold Open. destruct (FileContent fh); msimpl; intros [= <- <-]. by eexists.
Qed.

#[export] Hint Rewrite Query_missing FormFile_missing using done : go.
