(* ===== verification/Rules.v ===== *)
(** * Rules: the file rule checker of [validator.go]

    The data of the validation engine ([ErrorResponse], [ImageResolution],
    [ValidateFile]), the interface [rule] and its implementation [Rule]:
    [Rule.File] checks one uploaded file against an extension allow-list and
    a size ceiling in MiB, [Rule.Resolution] an uploaded image against an
    exact width and height.  [rule_laws] states what the orchestrator may
    assume of any implementation; [NewRule_laws] proves it of [NewRule].
    The size check is characterised in bytes: for whole and fractional
    limits, at the bound, above [2^53] and for limits that are not numbers. *)

From Stdlib Require Import SpecFloat.
From S2P Require Import Prelude GoStrings GoInt GoFloat GoFloatFormat GoFloatConv GoFloatLimit Fiber.

(** ** Data *)

Record ErrorResponse : Type := {
  FailedField : string;
  Tag : string;
  Value : string;
  Message : string;
}.

Record ImageResolution : Type := {
  Width : Z;
  Height : Z;
}.

(** The field [ImageResolution *ImageResolution] is [ImageRes]: [None] is the
    nil pointer. *)
Record ValidateFile : Type := {
  Field : string;
  IsRequired : bool;
  Extension : list string;
  Size : float64;
  ImageRes : option ImageResolution;
}.

#[export] Instance ErrorResponse_eq_dec : EqDecision ErrorResponse.
Proof. solve_decision. Defined.
#[export] Instance ImageResolution_eq_dec : EqDecision ImageResolution.
Proof. solve_decision. Defined.
#[export] Instance ValidateFile_eq_dec : EqDecision ValidateFile.
Proof. solve_decision. Defined.

(** ** The interface *)

Class rule : Type := {
  File : string → FileHeader → list string → float64 → option ErrorResponse;
  Resolution : string → FileHeader → Z → Z → M Ctx (option ErrorResponse);
}.

(** ** The implementation *)

Module Rule.
Section impl.
Context {ID : ImageDecoder}.

(** [maxSize = maxSize * (1024 * 1024)] *)
Definition size_limit (maxSize : float64) : float64 := f64_mul maxSize MiB.

Definition File (fieldName : string) (fileHeader : FileHeader)
    (allowExtension : list string) (maxSize : float64) : option ErrorResponse :=
  let fileSize := FileSize fileHeader in
  let fileName := Filename fileHeader in
  let fileExtension := Ext fileName in
  if negb (Contains allowExtension fileExtension) then
    Some {| FailedField := fieldName; Tag := "file_extension";
            Value := Join allowExtension ", "; Message := "" |}
  else
    let maxSize := size_limit maxSize in
    if f64_gt (float64_of_int fileSize) maxSize then
      Some {| FailedField := fieldName; Tag := "file_size";
              Value := FormatFloat maxSize; Message := "" |}
    else None.

(** [fmt.Sprintf("%dx%d", imageWidth, imageHeight)] *)
Definition resolution_value (imageWidth imageHeight : Z) : string :=
  FormatInt imageWidth +:+ "x" +:+ FormatInt imageHeight.

Definition resolution_error (fieldName : string) (imageWidth imageHeight : Z)
    : ErrorResponse :=
  {| FailedField := fieldName; Tag := "resolution";
     Value := resolution_value imageWidth imageHeight; Message := "" |}.

(** The body of [Resolution] between [Open] and the deferred [Close]. *)
Definition check_resolution (fieldName : string) (bytes : string)
    (imageWidth imageHeight : Z) : option ErrorResponse :=
  match DecodeConfig bytes with
  | None => Some (resolution_error fieldName imageWidth imageHeight)
  | Some image =>
      if bool_decide (ConfigWidth image ≠ imageWidth)
         || bool_decide (ConfigHeight image ≠ imageHeight)
      then Some (resolution_error fieldName imageWidth imageHeight)
      else None
  end.

(** The error of [Open] is dropped: on failure [file] is nil and the
    deferred [file.Close()] dereferences it. *)
Definition Resolution (fieldName : string) (fileHeader : FileHeader)
    (imageWidth imageHeight : Z) : M Ctx (option ErrorResponse) :=
  file ← Open fileHeader;
  match file with
  | None => panic "invalid memory address or nil pointer dereference"
  | Some bytes =>
      let errorResponse := check_resolution fieldName bytes imageWidth imageHeight in
      Close;; mret errorResponse
  end.

End impl.
End Rule.

(** [NewRule()] *)
Definition NewRule {ID : ImageDecoder} : rule :=
  {| File := Rule.File; Resolution := Rule.Resolution |}.

(** ** What the orchestrator assumes of a [rule] *)

Definition file_tags : list string := ["file_extension"; "file_size"].

Class rule_laws (r : rule) : Prop := {
  File_tag fieldName fh ext sz e :
    File fieldName fh ext sz = Some e → Tag e ∈ file_tags;
  Resolution_tag fieldName fh w h c e c' :
    Resolution fieldName fh w h c = Ok (Some e, c') → Tag e = "resolution";
  Resolution_frame fieldName fh w h c r' c' :
    Resolution fieldName fh w h c = Ok (r', c') → c' = c;
}.

(** ** Properties of [Rule.File] *)

Section file.
Implicit Types (fieldName : string) (fh : FileHeader) (ext : list string) (sz : float64).

Definition extension_error fieldName ext : ErrorResponse :=
  {| FailedField := fieldName; Tag := "file_extension";
     Value := Join ext ", "; Message := "" |}.

Definition size_error fieldName sz : ErrorResponse :=
  {| FailedField := fieldName; Tag := "file_size";
     Value := FormatFloat (Rule.size_limit sz); Message := "" |}.

(** The three branches of [File], by the conditions of the source. *)
Lemma File_cases fieldName fh ext sz :
  Rule.File fieldName fh ext sz =
  if decide (Ext (Filename fh) ∈ ext) then
    if f64_gt (float64_of_int (FileSize fh)) (Rule.size_limit sz)
    then Some (size_error fieldName sz) else None
  else Some (extension_error fieldName ext).
Proof.
  unfold Rule.File. rewrite Contains_bool_decide.
  case_decide as H.
  - by rewrite bool_decide_eq_true_2.
  - by rewrite bool_decide_eq_false_2.
Qed.

Lemma File_extension_violation fieldName fh ext sz :
  Ext (Filename fh) ∉ ext →
  Rule.File fieldName fh ext sz = Some (extension_error fieldName ext).
Proof. intros H. rewrite File_cases. by rewrite decide_False. Qed.

Lemma File_size_violation fieldName fh ext sz :
  Ext (Filename fh) ∈ ext →
  f64_gt (float64_of_int (FileSize fh)) (Rule.size_limit sz) = true →
  Rule.File fieldName fh ext sz = Some (size_error fieldName sz).
Proof. intros H Hs. rewrite File_cases. by rewrite decide_True, Hs. Qed.

(** [File] reports no violation exactly when the extension of the file name
    is in the allow-list and the size, as a float, is not greater than the
    limit in bytes. *)
Lemma File_passes_iff fieldName fh ext sz :
  Rule.File fieldName fh ext sz = None ↔
  Ext (Filename fh) ∈ ext ∧
  f64_gt (float64_of_int (FileSize fh)) (Rule.size_limit sz) = false.
Proof.
  rewrite File_cases. case_decide; [|naive_solver].
  destruct (f64_gt _ _); naive_solver.
Qed.

(** A file whose size, as a float, equals the limit passes the size check:
    the comparison is strict. *)
Lemma File_size_at_limit fieldName fh ext sz :
  Ext (Filename fh) ∈ ext →
  float64_of_int (FileSize fh) = Rule.size_limit sz →
  Rule.File fieldName fh ext sz = None.
Proof.
  intros H Hs. rewrite File_cases, decide_True by done. by rewrite Hs, f64_gt_irrefl.
Qed.

(** A rule with an empty allow-list rejects every file, with an empty
    value. *)
Lemma File_empty_allow_list fieldName fh sz :
  Rule.File fieldName fh [] sz = Some (extension_error fieldName []).
Proof. apply File_extension_violation, not_elem_of_nil. Qed.

(** C26: the extension check decides on the last dot-suffix of the file
    name, compared byte for byte (dot included, case-sensitive) with the
    allow-list. *)
Theorem File_extension_of_name fieldName fh ext sz base e :
  Filename fh = base +:+ "." +:+ e →
  plain (String.list_ascii_of_string e) →
  (Tag <$> Rule.File fieldName fh ext sz = Some "file_extension" ↔ "." +:+ e ∉ ext).
Proof.
  intros Hn He. rewrite File_cases, Hn, Ext_dot by done.
  case_decide; [|naive_solver]. destruct (f64_gt _ _); naive_solver.
Qed.

Lemma File_extension_of_name_witness :
  Tag <$> Rule.File "avatar" {| Filename := "photo.final.JPG"; FileSize := 10; FileContent := None |}
            [".jpg"; ".png"] (float64_of_int 5) = Some "file_extension" ↔
  "." +:+ "JPG" ∉ [".jpg"; ".png"].
Proof. by apply (File_extension_of_name _ _ _ _ "photo.final" "JPG"); [|compute_done]. Defined.

(** C27: the size check for every limit a [float64] can be (normal or
    subnormal, of either sign, zero, infinite, NaN) and every size an
    [int64] can be that is not negative, for a file with an allowed
    extension: [File] reports [file_size] exactly when the size, rounded to
    53 bits as the conversion to [float64] rounds it, exceeds the limit as a
    number, [m * 2^(e + 20)] bytes for the limit [m * 2^e] MiB.  Below
    [2^53] bytes the size is not rounded; the product with [1024 * 1024]
    never is, and when it is too large for the format it is an infinity
    that lets every file pass. *)
Theorem File_size_exact fieldName fh ext limit :
  Ext (Filename fh) ∈ ext → (0 ≤ FileSize fh < 2 ^ 63)%Z →
  valid_binary prec emax limit = true →
  Rule.File fieldName fh ext limit =
  if exceeds (round53 (FileSize fh)) limit then Some (size_error fieldName limit) else None.
Proof.
  intros He Hs Hv. rewrite File_cases, decide_True by done.
  unfold Rule.size_limit. by rewrite f64_gt_MiB.
Qed.

Lemma File_size_exact_witness :
  Rule.File "avatar" {| Filename := "me.jpg"; FileSize := 104858; FileContent := None |}
    [".jpg"; ".png"] tenth =
  if exceeds (round53 104858) tenth then Some (size_error "avatar" tenth) else None.
Proof.
  apply (File_size_exact "avatar" {| Filename := "me.jpg"; FileSize := 104858; FileContent := None |});
    [compute_done|cbn; lia|done].
Defined.

(** A limit of [0.1] MiB is 104857.6 bytes: 104857 bytes pass, 104858 do
    not. *)
Example File_size_tenth (size : Z) :
  (0 ≤ size < 2 ^ 53)%Z →
  Rule.File "avatar" {| Filename := "me.jpg"; FileSize := size; FileContent := None |}
    [".jpg"] tenth = None ↔ (size ≤ 104857)%Z.
Proof.
  intros Hs. rewrite File_cases, decide_True by compute_done.
  unfold Rule.size_limit. rewrite f64_gt_MiB_small by done. unfold tenth, exceeds, below, signed.
  change (Z.max (-56 + 20) 0) with 0%Z. change (Z.max (- (-56 + 20)) 0) with 36%Z.
  cbn [FileSize]. case_bool_decide; split; (done || lia).
Qed.

(** The least subnormal limit, [2^-1074] MiB, lets only the empty file
    pass; the largest finite limit lets every file pass, its product with
    [1024 * 1024] being [+Inf]. *)
Example File_size_extreme_limits fieldName fh ext :
  Ext (Filename fh) ∈ ext → (0 ≤ FileSize fh < 2 ^ 53)%Z →
  (Rule.File fieldName fh ext (S754_finite false 1 (-1074)) = None ↔ FileSize fh = 0%Z) ∧
  Rule.File fieldName fh ext (S754_finite false 9007199254740991 971) = None.
Proof.
  intros He Hs. rewrite !File_cases, !decide_True by done. unfold Rule.size_limit.
  rewrite !f64_gt_MiB_small by done. unfold exceeds, below, signed.
  change (Z.max (-1074 + 20) 0) with 0%Z. change (Z.max (971 + 20) 0) with 991%Z.
  change (Z.max (- (971 + 20)) 0) with 0%Z. change (Z.max (- (-1074 + 20)) 0) with 1054%Z.
  change (2 ^ 0)%Z with 1%Z.
  assert (2 ^ 1 ≤ 2 ^ 1054 ∧ 2 ^ 53 ≤ 2 ^ 991)%Z as [??]
    by (split; by apply Z.pow_le_mono_r).
  split; repeat case_bool_decide; try split; (done || nia).
Qed.

(** For a limit of [n] MiB, [n] an integer below [2^53], the threshold is
    [n * 1048576] bytes. *)
Lemma File_size_integral fieldName fh ext (n : Z) :
  Ext (Filename fh) ∈ ext →
  (0 ≤ FileSize fh < 2 ^ 53)%Z → (0 < n < 2 ^ 53)%Z →
  (Rule.File fieldName fh ext (float64_of_int n) = None ↔ (FileSize fh ≤ n * 1048576)%Z).
Proof.
  intros He Hs Hn. rewrite File_cases, decide_True by done.
  unfold Rule.size_limit. rewrite f64_gt_integral by done.
  case_bool_decide; [split; [done|lia]|split; [lia|done]].
Qed.

(** C24: the verdict of [File] for a limit of [n] MiB, in bytes: a name whose
    extension is not allowed is reported with the allow-list; else a size
    above [n * 1048576] bytes is reported with that number printed with six
    zero decimals; else the file passes.  The float arithmetic of the source
    is invisible for sizes and limits below [2^53]. *)
Theorem File_verdict fieldName fh ext (n : Z) :
  (0 ≤ FileSize fh < 2 ^ 53)%Z → (0 < n < 2 ^ 53)%Z →
  Rule.File fieldName fh ext (float64_of_int n) =
  if decide (Ext (Filename fh) ∈ ext) then
    if decide (FileSize fh ≤ n * 1048576)%Z then None
    else Some {| FailedField := fieldName; Tag := "file_size";
                 Value := FormatInt (n * 1048576) +:+ ".000000"; Message := "" |}
  else Some {| FailedField := fieldName; Tag := "file_extension";
               Value := Join ext ", "; Message := "" |}.
Proof.
  intros Hs Hn. rewrite File_cases. case_decide; [|done].
  unfold size_error, Rule.size_limit. rewrite f64_gt_integral, FormatFloat_limit by done.
  case_bool_decide; case_decide; (done || lia).
Qed.

Lemma File_verdict_witness :
  Rule.File "avatar" {| Filename := "me.jpg"; FileSize := 5242881; FileContent := None |}
    [".jpg"; ".png"] (float64_of_int 5) =
  Some {| FailedField := "avatar"; Tag := "file_size"; Value := "5242880.000000";
          Message := "" |}.
Proof.
  etrans; [apply (File_verdict "avatar" _ [".jpg"; ".png"] 5); cbn; lia|]. done.
Defined.

(** C25: the size bound is inclusive: under a limit of [n] MiB a file of
    exactly [n * 1048576] bytes passes, and a file of one byte more is
    reported as [file_size]. *)
Theorem File_size_boundary fieldName name content ext (n : Z) :
  Ext name ∈ ext → (0 < n < 2 ^ 33)%Z →
  Rule.File fieldName {| Filename := name; FileSize := n * 1048576; FileContent := content |}
    ext (float64_of_int n) = None ∧
  Tag <$> Rule.File fieldName
            {| Filename := name; FileSize := n * 1048576 + 1; FileContent := content |}
            ext (float64_of_int n) = Some "file_size".
Proof.
  intros He Hn. rewrite !File_cases. cbn [Filename FileSize]. rewrite !decide_True by done.
  unfold Rule.size_limit. rewrite !f64_gt_integral by lia.
  by rewrite bool_decide_eq_false_2, bool_decide_eq_true_2 by lia.
Qed.

Lemma File_size_boundary_witness :
  Rule.File "avatar" {| Filename := "me.jpg"; FileSize := 5 * 1048576; FileContent := None |}
    [".jpg"; ".png"] (float64_of_int 5) = None ∧
  Tag <$> Rule.File "avatar"
            {| Filename := "me.jpg"; FileSize := 5 * 1048576 + 1; FileContent := None |}
            [".jpg"; ".png"] (float64_of_int 5) = Some "file_size".
Proof. apply File_size_boundary; [compute_done|lia]. Defined.

(** The value reported with a [file_size] violation for an integral limit of
    [n] MiB is the limit in bytes printed with six zero decimals. *)
Lemma File_size_error_value fieldName fh ext (n : Z) e :
  (0 < n < 2 ^ 53)%Z →
  Rule.File fieldName fh ext (float64_of_int n) = Some e → Tag e = "file_size" →
  Value e = FormatInt (n * 1048576) +:+ ".000000".
Proof.
  intros Hn. rewrite File_cases. repeat case_match; intros; simplify_eq.
  cbn. unfold Rule.size_limit. by rewrite FormatFloat_limit.
Qed.

Lemma File_size_error_value_witness :
  Value (size_error "avatar" (float64_of_int 5)) = FormatInt (5 * 1048576) +:+ ".000000".
Proof.
  apply (File_size_error_value "avatar"
           {| Filename := "me.jpg"; FileSize := 5242881; FileContent := None |}
           [".jpg"; ".png"] 5); [lia|vm_compute; done|done].
Defined.

(** The value reported for any finite limit [± m * 2^e] MiB whose product
    does not overflow is the number [± m * 2^(e + 20)] as [%f] prints it:
    to the nearest millionth, with six decimals. *)
Lemma size_error_value fieldName s m (e : Z) :
  canonical m e → (e + 20 - MiB_places m ≤ 971)%Z →
  Value (size_error fieldName (S754_finite s m e)) = FormatFloat (S754_finite s m (e + 20)).
Proof. intros Hc He. unfold size_error, Rule.size_limit. cbn [Value]. by apply FormatFloat_MiB. Qed.

(** For a limit whose threshold is a whole number [b] of bytes, [0.5] MiB
    for one, that is [b] and six zeros. *)
Lemma size_error_value_bytes fieldName m (e b : Z) :
  canonical m e → (e + 20 - MiB_places m ≤ 971)%Z →
  (Z.pos m * 2 ^ Z.max (e + 20) 0 = b * 2 ^ Z.max (- (e + 20)) 0)%Z →
  Value (size_error fieldName (S754_finite false m e)) = FormatInt b +:+ ".000000".
Proof. intros Hc He Hb. by rewrite size_error_value, (FormatFloat_integral _ _ b). Qed.

Example size_error_value_half :
  Value (size_error "avatar" half) = "524288.000000".
Proof. by apply (size_error_value_bytes _ _ _ 524288). Qed.

(** The limit is a float and is never checked: a NaN or [+Inf] limit
    switches the size check off, with [-Inf] every file is reported, with a
    zero limit every file that is not empty. *)
Lemma File_size_special fieldName fh ext :
  Ext (Filename fh) ∈ ext → (0 ≤ FileSize fh < 2 ^ 63)%Z →
  Rule.File fieldName fh ext S754_nan = None ∧
  Rule.File fieldName fh ext (S754_infinity false) = None ∧
  Tag <$> Rule.File fieldName fh ext (S754_infinity true) = Some "file_size" ∧
  ∀ s, Rule.File fieldName fh ext (S754_zero s) = None ↔ FileSize fh = 0%Z.
Proof.
  intros He Hs. rewrite !File_cases, !decide_True by done. unfold Rule.size_limit.
  rewrite f64_mul_nan_MiB, !f64_mul_infinity_MiB, f64_gt_nan_r, f64_gt_infinity,
    f64_gt_neg_infinity by done.
  split_and!; try done. intros s.
  rewrite File_cases, decide_True by done. unfold Rule.size_limit.
  rewrite f64_mul_zero_MiB, f64_gt_zero by done.
  case_bool_decide; split; (done || lia).
Qed.

(** C28: the size check is monotone: under any limit, a file that passes
    still passes when it is smaller.  The conversion of the size rounds
    above [2^53] bytes, but to the nearest, and so keeps the order. *)
Theorem File_size_monotone fieldName fh fh' ext limit :
  valid_binary prec emax limit = true →
  Filename fh = Filename fh' → (0 ≤ FileSize fh ≤ FileSize fh')%Z → (FileSize fh' < 2 ^ 63)%Z →
  Rule.File fieldName fh' ext limit = None → Rule.File fieldName fh ext limit = None.
Proof.
  intros Hv Hn Hs Hs'. rewrite !File_cases, Hn. case_decide; [|done].
  unfold Rule.size_limit. rewrite !f64_gt_MiB by (done || lia).
  destruct (exceeds (round53 (FileSize fh)) limit) eqn:E; [|done].
  by rewrite (exceeds_round53_mono _ (FileSize fh') _ Hs E).
Qed.

Lemma File_size_monotone_witness :
  Rule.File "avatar" {| Filename := "me.jpg"; FileSize := 100000; FileContent := None |}
    [".jpg"] tenth = None.
Proof.
  apply (File_size_monotone "avatar" _
           {| Filename := "me.jpg"; FileSize := 104857; FileContent := None |} [".jpg"] tenth);
    [done|done|cbn; lia|cbn; lia|vm_compute; done].
Defined.

(** C29: above [2^53] bytes the conversion of the size to [float64] rounds,
    and the check compares the rounded size: under a limit of [n] MiB a
    file passes exactly when its size rounded to 53 bits is at most
    [n * 1048576]. *)
Theorem File_size_rounds_above_2_53 fieldName fh ext (n : Z) :
  Ext (Filename fh) ∈ ext → (0 ≤ FileSize fh < 2 ^ 63)%Z → (0 < n < 2 ^ 53)%Z →
  (Rule.File fieldName fh ext (float64_of_int n) = None ↔
   (round53 (FileSize fh) ≤ n * 1048576)%Z).
Proof.
  intros He Hs Hn. rewrite File_cases, decide_True by done.
  unfold Rule.size_limit. rewrite f64_gt_integral_round by done.
  case_bool_decide; [split; [done|lia]|split; [lia|done]].
Qed.

Lemma File_size_rounds_above_2_53_witness :
  Rule.File "backup" {| Filename := "disk.img"; FileSize := 2 ^ 53 + 1; FileContent := None |}
    [".img"] (float64_of_int (2 ^ 33)) = None ↔
  (round53 (2 ^ 53 + 1) ≤ 2 ^ 33 * 1048576)%Z.
Proof.
  apply (File_size_rounds_above_2_53 "backup"
           {| Filename := "disk.img"; FileSize := 2 ^ 53 + 1; FileContent := None |});
    [compute_done|cbn; lia|lia].
Defined.

(** So a file of [2^53 + 1] bytes passes a limit of [2^33] MiB, which is
    [2^53] bytes. *)
Example File_size_2_53_plus_1 :
  Rule.File "backup" {| Filename := "disk.img"; FileSize := 2 ^ 53 + 1; FileContent := None |}
    [".img"] (float64_of_int (2 ^ 33)) = None ∧
  (2 ^ 33 * 1048576 < 2 ^ 53 + 1)%Z.
Proof. split; [vm_compute; done|lia]. Qed.

Lemma File_result fieldName fh ext sz e :
  Rule.File fieldName fh ext sz = Some e →
  FailedField e = fieldName ∧ Message e = "" ∧ Tag e ∈ file_tags.
Proof.
  rewrite File_cases. unfold file_tags. intros H.
  repeat case_match; simplify_eq; cbn; set_solver.
Qed.

End file.

(** ** Properties of [Rule.Resolution] *)

Section resolution.
Context {ID : ImageDecoder}.
Implicit Types (fieldName : string) (fh : FileHeader) (w h : Z) (c : Ctx).

Lemma check_resolution_cases fieldName bytes w h :
  Rule.check_resolution fieldName bytes w h =
  match DecodeConfig bytes with
  | Some image =>
      if decide (ConfigWidth image = w ∧ ConfigHeight image = h) then None
      else Some (Rule.resolution_error fieldName w h)
  | None => Some (Rule.resolution_error fieldName w h)
  end.
Proof.
  unfold Rule.check_resolution. destruct (DecodeConfig bytes) as [image|]; [|done].
  repeat case_bool_decide; case_decide; naive_solver.
Qed.

(** With a stream that opens, [Resolution] returns the check's result in the
    context it started from: the stream is closed on every path. *)
Lemma Resolution_run fieldName fh w h c bytes :
  FileContent fh = Some bytes →
  Rule.Resolution fieldName fh w h c =
  Ok (Rule.check_resolution fieldName bytes w h, c).
Proof.
  intros Hb. unfold Rule.Resolution.
  rewrite (M_bind_Ok _ _ _ _ _ (Open_Some fh bytes c Hb)).
  unfold Close. msimpl. by rewrite set_open_files_pred_S.
Qed.

Lemma Resolution_open_failure fieldName fh w h c :
  FileContent fh = None →
  Rule.Resolution fieldName fh w h c =
  Panic "invalid memory address or nil pointer dereference".
Proof.
  intros Hb. unfold Rule.Resolution.
  by rewrite (M_bind_Ok _ _ _ _ _ (Open_None fh c Hb)).
Qed.

Lemma Resolution_match fieldName fh w h c bytes :
  FileContent fh = Some bytes →
  DecodeConfig bytes = Some {| ConfigWidth := w; ConfigHeight := h |} →
  Rule.Resolution fieldName fh w h c = Ok (None, c).
Proof.
  intros Hb Hd. rewrite (Resolution_run _ _ _ _ _ bytes Hb), check_resolution_cases, Hd.
  by rewrite decide_True.
Qed.

Lemma Resolution_mismatch fieldName fh w h c bytes image :
  FileContent fh = Some bytes →
  DecodeConfig bytes = Some image →
  ConfigWidth image ≠ w ∨ ConfigHeight image ≠ h →
  Rule.Resolution fieldName fh w h c =
  Ok (Some (Rule.resolution_error fieldName w h), c).
Proof.
  intros Hb Hd Hne. rewrite (Resolution_run _ _ _ _ _ bytes Hb), check_resolution_cases, Hd.
  rewrite decide_False; [done|naive_solver].
Qed.

Lemma Resolution_decode_error fieldName fh w h c bytes :
  FileContent fh = Some bytes →
  DecodeConfig bytes = None →
  Rule.Resolution fieldName fh w h c =
  Ok (Some (Rule.resolution_error fieldName w h), c).
Proof.
  intros Hb Hd. by rewrite (Resolution_run _ _ _ _ _ bytes Hb), check_resolution_cases, Hd.
Qed.

Lemma Resolution_inv fieldName fh w h c r c' :
  Rule.Resolution fieldName fh w h c = Ok (r, c') →
  ∃ bytes, FileContent fh = Some bytes ∧ c' = c ∧
           r = Rule.check_resolution fieldName bytes w h.
Proof.
  destruct (FileContent fh) as [bytes|] eqn:Hb.
  - rewrite (Resolution_run _ _ _ _ _ bytes Hb). intros [= <- <-]. by exists bytes.
  - by rewrite Resolution_open_failure.
Qed.

(** [Resolution] closes the stream it opens: when it returns, as many
    streams are open as before, whatever the verdict. *)
Lemma Resolution_closes fieldName fh w h c r c' :
  Rule.Resolution fieldName fh w h c = Ok (r, c') →
  ctx_open_files c' = ctx_open_files c.
Proof. by intros (? & _ & -> & _)%Resolution_inv. Qed.

(** C30: the resolution check passes exactly when the decoded width and
    height both equal the required ones; a stream that does not decode, or
    any other dimensions, give one [resolution] violation whose value is the
    required ["WxH"]. *)
Theorem Resolution_exact fieldName fh w h c bytes :
  FileContent fh = Some bytes →
  Rule.Resolution fieldName fh w h c =
  Ok (if decide (DecodeConfig bytes = Some {| ConfigWidth := w; ConfigHeight := h |})
      then None
      else Some {| FailedField := fieldName; Tag := "resolution";
                   Value := FormatInt w +:+ "x" +:+ FormatInt h; Message := "" |}, c).
Proof.
  intros Hb. rewrite (Resolution_run _ _ _ _ _ bytes Hb), check_resolution_cases.
  destruct (DecodeConfig bytes) as [[iw ih]|]; [|by rewrite decide_False].
  cbn. repeat case_decide; naive_solver.
Qed.

(** C31: the error of [Open] is ignored: on a file whose stream cannot be
    opened [Resolution] panics instead of reporting a violation. *)
Theorem Resolution_open_error_panics fieldName fh w h c :
  FileContent fh = None → ∃ msg, Rule.Resolution fieldName fh w h c = Panic msg.
Proof. intros Hb. rewrite Resolution_open_failure by done. by eexists. Qed.

Lemma check_resolution_result fieldName bytes w h e :
  Rule.check_resolution fieldName bytes w h = Some e →
  e = Rule.resolution_error fieldName w h.
Proof. rewrite check_resolution_cases. repeat case_match; naive_solver. Qed.

#[export] Instance NewRule_laws : rule_laws NewRule.
Proof.
  split.
  - intros fieldName fh ext sz e Hf. by apply File_result in Hf as (_ & _ & ?).
  - intros fieldName fh w h c e c' (bytes & _ & _ & Hr)%Resolution_inv.
    symmetry in Hr. by apply check_resolution_result in Hr as ->.
  - by intros fieldName fh w h c r c' (bytes & _ & -> & _)%Resolution_inv.
Qed.

End resolution.

(** The value of a [resolution] violation identifies the width and the
    height it was built from: two values are equal only for equal
    dimensions. *)
Lemma resolution_value_inj (w1 h1 w2 h2 : Z) :
  Rule.resolution_value w1 h1 = Rule.resolution_value w2 h2 ↔ w1 = w2 ∧ h1 = h2.
Proof.
  split; [|by intros [-> ->]].
  unfold Rule.resolution_value. rewrite !string_app_cons, !string_app_nil_l.
  intros [H1 H2]%string_app_sep_inj; [|apply FormatInt_no_x..].
  split; by apply FormatInt_inj.
Qed.

Example resolution_value_100 : Rule.resolution_value 100 100 = "100x100".
Proof. vm_compute. done. Qed.


(** ** The theorems at concrete files *)

Section witnesses.

(** An image stream is two bytes, width and height, in these examples. *)
#[local] Instance two_bytes : ImageDecoder := λ bytes,
  match bytes with
  | String w (String h _) =>
      Some {| ConfigWidth := Z.of_N (N_of_ascii w); ConfigHeight := Z.of_N (N_of_ascii h) |}
  | _ => None
  end.

Definition png (content : option string) : FileHeader :=
  {| Filename := "logo.png"; FileSize := 2048; FileContent := content |}.

Definition d100 : ascii := ascii_of_N 100.
Definition d101 : ascii := ascii_of_N 101.

Lemma Resolution_closes_witness :
  ctx_open_files (new_ctx "" ∅ ∅) = ctx_open_files (new_ctx "" ∅ ∅).
Proof.
  by apply (Resolution_closes "logo" (png (Some (String d100 (String d101 ""))))
              100 100 (new_ctx "" ∅ ∅)
              (Some (Rule.resolution_error "logo" 100 100))).
Defined.

Lemma Resolution_exact_witness :
  Rule.Resolution "logo" (png (Some (String d100 (String d101 "")))) 100 100 (new_ctx "" ∅ ∅) =
  Ok (Some {| FailedField := "logo"; Tag := "resolution"; Value := "100x100";
              Message := "" |}, new_ctx "" ∅ ∅) ∧
  Rule.Resolution "logo" (png (Some (String d100 (String d100 "")))) 100 100 (new_ctx "" ∅ ∅) =
  Ok (None, new_ctx "" ∅ ∅).
Proof.
  split.
  - exact (Resolution_exact "logo" (png (Some (String d100 (String d101 "")))) 100 100
             (new_ctx "" ∅ ∅) (String d100 (String d101 "")) eq_refl).
  - exact (Resolution_exact "logo" (png (Some (String d100 (String d100 "")))) 100 100
             (new_ctx "" ∅ ∅) (String d100 (String d100 "")) eq_refl).
Defined.

Lemma Resolution_open_error_panics_witness :
  ∃ msg, Rule.Resolution "logo" (png None) 100 100 (new_ctx "" ∅ ∅) = Panic msg.
Proof. by apply Resolution_open_error_panics. Defined.

End witnesses.
