(* ===== verification/Fixtures.v ===== *)
(** * Fixtures: a concrete request type and collaborators

    The worked examples of the development run the validator on a sign-up
    form with an avatar upload.  This file fixes one behaviour of each
    external collaborator for them; no general theorem depends on it.

    - the decoded type [SignUp] has a name (the request body) and an email
      (the query argument [email]); an empty body does not decode;
    - the struct validator asks [min=3] of [Name] and [required] of [Email];
    - the normaliser lower-cases ASCII letters;
    - an image stream starts with a byte for its width and one for its
      height;
    - the responder answers 422 with the violations, encoded as
      [field:tag:value] joined by semicolons. *)

From S2P Require Import Prelude GoStrings GoInt GoFloat Fiber Rules.

Module Demo.

Record SignUp : Type := { Name : string; Email : string }.

Definition lower (ch : ascii) : ascii :=
  let n := N_of_ascii ch in
  if bool_decide (65 ≤ n ≤ 90)%N then ascii_of_N (n + 32) else ch.

Fixpoint lower_string (s : string) : string :=
  match s with
  | EmptyString => EmptyString
  | String ch rest => String (lower ch) (lower_string rest)
  end.

Definition encode_error (e : ErrorResponse) : string :=
  FailedField e +:+ ":" +:+ Tag e +:+ ":" +:+ Value e.

#[export] Instance body_decoder : BodyDecoder SignUp := λ c,
  if decide (ctx_body c = "") then inl "unexpected end of JSON input"
  else inr {| Name := ctx_body c; Email := Query c "email" |}.

#[export] Instance field_validator : FieldValidator SignUp := λ v,
  let name_errs :=
    if decide (String.length (Name v) < 3)
    then [{| fe_Field := "Name"; fe_Tag := "min"; fe_Param := "3" |}] else [] in
  let email_errs :=
    if decide (Email v = "")
    then [{| fe_Field := "Email"; fe_Tag := "required"; fe_Param := "" |}] else [] in
  match name_errs ++ email_errs with
  | [] => StructValid
  | errs => ValidationErrors errs
  end.

#[export] Instance stringy : Stringy := lower_string.

#[export] Instance image_decoder : ImageDecoder := λ bytes,
  match bytes with
  | String w (String h _) =>
      Some {| ConfigWidth := Z.of_N (N_of_ascii w); ConfigHeight := Z.of_N (N_of_ascii h) |}
  | _ => None
  end.

#[export] Instance responder : Responder ErrorResponse := {|
  ResData := list ErrorResponse;
  ValidateFailed errors _ := (422%Z, errors);
  JSONEncoder errors := inr (Join (encode_error <$> errors) ";");
|}.

(** An image stream of the given dimensions (below 256). *)
Definition image (w h : N) : string :=
  String (ascii_of_N w) (String (ascii_of_N h) "pixels").

Definition upload (name : string) (size : Z) (content : string) : FileHeader :=
  {| Filename := name; FileSize := size; FileContent := Some content |}.

(** The rule of the examples: an avatar, [.jpg] or [.png], at most 5 MiB. *)
Definition avatar_rule (required : bool) (res : option ImageResolution) : ValidateFile :=
  {| Field := "avatar"; IsRequired := required; Extension := [".jpg"; ".png"];
     Size := float64_of_int 5; ImageRes := res |}.

(** A request with body [name], the query argument [email] and, when given,
    the upload [avatar]. *)
Definition request (name email : string) (avatar : option FileHeader) : Ctx :=
  new_ctx name {["email" := email]}
    (match avatar with
     | Some fh => {["avatar" := (Some fh, None)]}
     | None => ∅
     end).

(** The next handler of the examples answers 204 and returns nil. *)
Definition next_handler : M Ctx (option error) := Status 204;; mret None.

End Demo.
