(* ===== verification/Validator.v ===== *)
(** * Validator: the validation orchestrator [ValidateStruct]

    [ValidateStruct] of [validator.go], in the phases the source runs in
    sequence: [decode_body] (the body parser and its 400 error),
    [struct_errors] (the struct-tag validator and the translation of its
    violations), [validate_files] (the loop over the declared file rules,
    body [validate_file]) and [finish] (the failure response, or the local
    ["request"] and the next handler). *)

From S2P Require Import Prelude GoStrings GoInt GoFloat Fiber Rules Fixtures.

Section validator.
Context {T : Type}.
Context {BD : BodyDecoder T} {FV : FieldValidator T} {SG : Stringy} {ID : ImageDecoder}.
Context {RS : Responder ErrorResponse}.

(** [body := new(T); if err := c.BodyParser(body); err != nil { ... }] *)
Definition decode_body (c : Ctx) : error + T :=
  match BodyParser c with
  | inl err => inl (NewError StatusBadRequest ("Body parser error: " +:+ err))
  | inr body => inr body
  end.

(** One violation of the struct validator as an [ErrorResponse]. *)
Definition field_error (e : FieldError) : ErrorResponse :=
  {| FailedField := SnakeCaseLower (fe_Field e); Tag := fe_Tag e;
     Value := fe_Param e; Message := "" |}.

(** [validate.Struct(body)] and the loop over its violations.  The type
    assertion [err.(validator.ValidationErrors)] panics on any other error. *)
Definition struct_errors (body : T) : go (list ErrorResponse) :=
  match Struct body with
  | StructValid => Ok []
  | ValidationErrors errs => Ok (field_error <$> errs)
  | InvalidValidationError =>
      Panic "interface conversion: error is *validator.InvalidValidationError, not validator.ValidationErrors"
  end.

Definition required_error (file : ValidateFile) : ErrorResponse :=
  {| FailedField := Field file; Tag := "required"; Value := ""; Message := "" |}.

(** A violation of the rule checker, appended under the rule's field. *)
Definition file_error (file : ValidateFile) (e : ErrorResponse) : ErrorResponse :=
  {| FailedField := Field file; Tag := Tag e; Value := Value e; Message := "" |}.

Definition file_retrieval_error (file : ValidateFile) (err : string) : error :=
  NewError StatusInternalServerError ("File " +:+ Field file +:+ " error: " +:+ err).

(** The body of the loop over the rules, for the rule [file] and the
    violations [errors] so far: [inl] is the function's early return. *)
Definition validate_file (r : rule) (file : ValidateFile) (errors : list ErrorResponse)
    : M Ctx (error + list ErrorResponse) :=
  c ← get;
  let '(fileHeader, err) := FormFile c (Field file) in
  let errors :=
    if IsRequired file then
      match fileHeader with
      | None => errors ++ [required_error file]
      | Some _ => errors
      end
    else errors in
  match fileHeader with
  | None => mret (inr errors)
  | Some fh =>
      match err with
      | Some e => mret (inl (file_retrieval_error file e))
      | None =>
          match File (Field file) fh (Extension file) (Size file) with
          | Some errorFile => mret (inr (errors ++ [file_error file errorFile]))
          | None =>
              match ImageRes file with
              | None => mret (inr errors)
              | Some res =>
                  errorResolution ← Resolution (Field file) fh (Width res) (Width res);
                  match errorResolution with
                  | Some e => mret (inr (errors ++ [file_error file e]))
                  | None => mret (inr errors)
                  end
              end
          end
      end
  end.

(** The guard on a nil or empty [files] and the loop over the rules. *)
Definition validate_files (r : rule) (files : option (list ValidateFile))
    (errors : list ErrorResponse) : M Ctx (error + list ErrorResponse) :=
  match files with
  | Some (file :: rest) => foldM_break (validate_file r) (file :: rest) errors
  | Some [] | None => mret (inr errors)
  end.

(** [status, resData := response.ValidateFailed(errors, "")] and
    [return c.Status(status).JSON(resData)] *)
Definition respond (errors : list ErrorResponse) : M Ctx (option error) :=
  let '(status, resData) := ValidateFailed errors "" in
  Status status;; JSON (JSONEncoder resData).

(** [c.Locals("request", body)] and [return c.Next()] *)
Definition forward (next : M Ctx (option error)) (body : T) : M Ctx (option error) :=
  Locals "request" (to_any body);; next.

(** The terminal action: the failure response, or the hand-off. *)
Definition finish (next : M Ctx (option error)) (body : T) (errors : list ErrorResponse)
    : M Ctx (option error) :=
  if decide (0 < length errors) then respond errors else forward next body.

Definition ValidateStruct (next : M Ctx (option error)) (files : option (list ValidateFile))
    : M Ctx (option error) :=
  c ← get;
  match decode_body c with
  | inl e => mret (Some e)
  | inr body =>
      errors ← lift_go (struct_errors body);
      r ← validate_files NewRule files errors;
      match r with
      | inl e => mret (Some e)
      | inr errors => finish next body errors
      end
  end.

End validator.

(** ** The loop body, branch by branch *)

Section validate_file.
Context {T : Type}.
Context {BD : BodyDecoder T} {FV : FieldValidator T} {SG : Stringy} {ID : ImageDecoder}.
Context {RS : Responder ErrorResponse}.
Context (r : rule).
Implicit Types (file : ValidateFile) (errors : list ErrorResponse) (c : Ctx).

(** The violations a rule checker's verdict adds. *)
Definition added (file : ValidateFile) (e : option ErrorResponse) : list ErrorResponse :=
  option_list (file_error file <$> e).

Lemma validate_file_absent file errors c err :
  FormFile c (Field file) = (None, err) →
  validate_file r file errors c =
  Ok (inr (errors ++ if IsRequired file then [required_error file] else []), c).
Proof.
  intros H. unfold validate_file. msimpl. rewrite H.
  destruct (IsRequired file); by rewrite ?app_nil_r.
Qed.

Lemma validate_file_retrieval_error file errors c fh e :
  FormFile c (Field file) = (Some fh, Some e) →
  validate_file r file errors c = Ok (inl (file_retrieval_error file e), c).
Proof. intros H. unfold validate_file. msimpl. by rewrite H. Qed.

Lemma validate_file_violation file errors c fh errorFile :
  FormFile c (Field file) = (Some fh, None) →
  File (Field file) fh (Extension file) (Size file) = Some errorFile →
  validate_file r file errors c = Ok (inr (errors ++ [file_error file errorFile]), c).
Proof.
  intros H Hf. unfold validate_file. msimpl. rewrite H, Hf. by destruct (IsRequired file).
Qed.

Lemma validate_file_no_resolution file errors c fh :
  FormFile c (Field file) = (Some fh, None) →
  File (Field file) fh (Extension file) (Size file) = None →
  ImageRes file = None →
  validate_file r file errors c = Ok (inr errors, c).
Proof.
  intros H Hf Hr. unfold validate_file. msimpl. rewrite H, Hf, Hr.
  by destruct (IsRequired file).
Qed.

(** The resolution check runs with the declared width as both dimensions. *)
Lemma validate_file_resolution file errors c fh res :
  FormFile c (Field file) = (Some fh, None) →
  File (Field file) fh (Extension file) (Size file) = None →
  ImageRes file = Some res →
  validate_file r file errors c =
  match Resolution (Field file) fh (Width res) (Width res) c with
  | Ok (e, c') => Ok (inr (errors ++ added file e), c')
  | Panic msg => Panic msg
  end.
Proof.
  intros H Hf Hr. unfold validate_file. msimpl. rewrite H, Hf, Hr.
  destruct (IsRequired file);
    destruct (Resolution _ _ _ _ c) as [[[e|] c']|]; by rewrite ?app_nil_r.
Qed.

(** The violations so far are only extended: the body's result on [errors]
    is its result on the empty list, appended. *)
Lemma validate_file_acc file errors c :
  validate_file r file errors c =
  match validate_file r file [] c with
  | Ok (inr new, c') => Ok (inr (errors ++ new), c')
  | other => other
  end.
Proof.
  destruct (FormFile c (Field file)) as [[fh|] err] eqn:H.
  - destruct err as [e|].
    { by rewrite !(validate_file_retrieval_error _ _ _ fh e). }
    destruct (File (Field file) fh (Extension file) (Size file)) as [ef|] eqn:Hf.
    { by rewrite !(validate_file_violation _ _ _ fh ef). }
    destruct (ImageRes file) as [res|] eqn:Hr.
    + rewrite !(validate_file_resolution _ _ _ fh res) by done.
      by destruct (Resolution _ _ _ _ c) as [[? ?]|].
    + rewrite !(validate_file_no_resolution _ _ _ fh) by done. by rewrite app_nil_r.
  - by rewrite !(validate_file_absent _ _ _ err).
Qed.

Context {RL : rule_laws r}.

Definition all_tags : list string := "required" :: "resolution" :: file_tags.

(** [e] is a violation reported for the rule [file]. *)
Definition violation_of (file : ValidateFile) (e : ErrorResponse) : Prop :=
  FailedField e = Field file ∧ Message e = "" ∧ Tag e ∈ all_tags.

Lemma violation_of_required file : violation_of file (required_error file).
Proof. split_and!; [done..|]. cbn. set_solver. Qed.

Lemma violation_of_file_error file e :
  Tag e ∈ file_tags ∨ Tag e = "resolution" → violation_of file (file_error file e).
Proof. intros He. split_and!; [done..|]. cbn. unfold all_tags. set_solver. Qed.

(** What one rule contributes: the context is left as it was, and at most
    one violation is added, under the rule's field and with a known tag. *)
Lemma validate_file_inv file c res c' :
  validate_file r file [] c = Ok (res, c') →
  c' = c ∧
  match res with
  | inl e => ∃ fh err, FormFile c (Field file) = (Some fh, Some err) ∧
                       e = file_retrieval_error file err
  | inr new => length new ≤ 1 ∧ Forall (violation_of file) new
  end.
Proof.
  destruct (FormFile c (Field file)) as [[fh|] err] eqn:H.
  - destruct err as [e|].
    { rewrite (validate_file_retrieval_error _ _ _ fh e) by done.
      intros [= <- <-]. eauto. }
    destruct (File (Field file) fh (Extension file) (Size file)) as [ef|] eqn:Hf.
    { rewrite (validate_file_violation _ _ _ fh ef) by done. intros [= <- <-].
      apply File_tag in Hf. split_and!; [done..|].
      apply Forall_singleton, violation_of_file_error. by left. }
    destruct (ImageRes file) as [ir|] eqn:Hr.
    + rewrite (validate_file_resolution _ _ _ fh ir) by done.
      destruct (Resolution _ _ _ _ c) as [[e c1]|] eqn:HR; [|done]. intros [= <- <-].
      pose proof (Resolution_frame _ _ _ _ _ _ _ HR) as ->. split; [done|].
      destruct e as [e|]; cbn; [|by split; [lia|constructor]].
      apply Resolution_tag in HR. split; [done|].
      apply Forall_singleton, violation_of_file_error. by right.
    + rewrite (validate_file_no_resolution _ _ _ fh) by done. intros [= <- <-].
      split; [done|]. by split; [cbn; lia|constructor].
  - rewrite (validate_file_absent _ _ _ err) by done. intros [= <- <-].
    split; [done|]. destruct (IsRequired file); cbn; (split; [lia|]); [|constructor].
    apply Forall_singleton, violation_of_required.
Qed.

End validate_file.

(** ** The loop over the file rules *)

Section validate_files.
Context {T : Type}.
Context {BD : BodyDecoder T} {FV : FieldValidator T} {SG : Stringy} {ID : ImageDecoder}.
Context {RS : Responder ErrorResponse}.
Context (r : rule).
Implicit Types (file : ValidateFile) (l : list ValidateFile) (c : Ctx).
Implicit Types (errors new : list ErrorResponse).

(** The guard is no more than the loop on an empty list. *)
Lemma validate_files_fold files errors :
  validate_files r files errors = foldM_break (validate_file r) (default [] files) errors.
Proof. by destruct files as [[|file rest]|]. Qed.

Lemma validate_files_Some l errors :
  validate_files r (Some l) errors = foldM_break (validate_file r) l errors.
Proof. by destruct l. Qed.

Lemma validate_files_nil errors c : validate_files r (Some []) errors c = Ok (inr errors, c).
Proof. done. Qed.

Lemma validate_files_None errors c : validate_files r None errors c = Ok (inr errors, c).
Proof. done. Qed.

Lemma validate_files_cons file l errors c :
  validate_files r (Some (file :: l)) errors c =
  match validate_file r file errors c with
  | Ok (inr errors', c') => validate_files r (Some l) errors' c'
  | Ok (inl e, c') => Ok (inl e, c')
  | Panic msg => Panic msg
  end.
Proof.
  rewrite validate_files_Some, foldM_break_cons.
  destruct (validate_file r file errors c) as [[[] ?]|]; [done| |done].
  by rewrite validate_files_Some.
Qed.

(** Rules are processed in the order they are declared. *)
Lemma validate_files_app l1 l2 errors c :
  validate_files r (Some (l1 ++ l2)) errors c =
  match validate_files r (Some l1) errors c with
  | Ok (inr errors', c') => validate_files r (Some l2) errors' c'
  | Ok (inl e, c') => Ok (inl e, c')
  | Panic msg => Panic msg
  end.
Proof.
  rewrite !validate_files_Some, foldM_break_app.
  destruct (foldM_break _ l1 errors c) as [[[] ?]|]; [done| |done].
  by rewrite validate_files_Some.
Qed.

(** The loop only appends to the violations it starts from. *)
Lemma validate_files_acc files errors c :
  validate_files r files errors c =
  match validate_files r files [] c with
  | Ok (inr new, c') => Ok (inr (errors ++ new), c')
  | other => other
  end.
Proof.
  rewrite !validate_files_fold. generalize (default [] files). clear files.
  intros l. revert errors c. induction l as [|file l IH]; intros errors c.
  { cbn. by rewrite app_nil_r. }
  rewrite !foldM_break_cons, (validate_file_acc r file errors).
  destruct (validate_file r file [] c) as [[[e|new] c1]|]; [done| |done].
  rewrite (IH (errors ++ new)), (IH ([] ++ new)).
  destruct (foldM_break _ l [] c1) as [[[e|new2] c2]|]; [done| |done].
  by rewrite app_assoc.
Qed.

(** The loop's violations are the rules' own, concatenated in declaration
    order, when every rule leaves the context as it was. *)
Lemma validate_files_concat l c newss :
  Forall2 (λ file new, validate_file r file [] c = Ok (inr new, c)) l newss →
  validate_files r (Some l) [] c = Ok (inr (concat newss), c).
Proof.
  induction 1 as [|file new l newss Hf _ IH]; [done|].
  rewrite validate_files_cons, Hf, validate_files_acc, IH. done.
Qed.

Context {RL : rule_laws r}.

(** The loop leaves the context as it was, stops at the first retrieval
    error, and else reports at most one violation per rule, each under the
    field of a declared rule. *)
Lemma validate_files_inv l c res c' :
  validate_files r (Some l) [] c = Ok (res, c') →
  c' = c ∧
  match res with
  | inl e => ∃ file fh err, file ∈ l ∧
      FormFile c (Field file) = (Some fh, Some err) ∧ e = file_retrieval_error file err
  | inr new => length new ≤ length l ∧
      Forall (λ e, ∃ file, file ∈ l ∧ violation_of file e) new
  end.
Proof.
  revert res c'. induction l as [|file l IH]; intros res c'.
  { rewrite validate_files_nil. intros [= <- <-]. by split_and!; [|cbn|constructor]. }
  rewrite validate_files_cons.
  destruct (validate_file r file [] c) as [[[e|new] c1]|] eqn:Hf; [| |done].
  - intros [= <- <-].
    destruct (validate_file_inv r _ _ _ _ Hf) as (-> & fh & err & ? & ->).
    split; [done|]. exists file, fh, err. set_solver.
  - destruct (validate_file_inv r _ _ _ _ Hf) as (-> & Hlen & Hnew).
    rewrite validate_files_acc.
    destruct (validate_files r (Some l) [] c) as [[[e|new2] c2]|] eqn:Hl; [| |done].
    + intros [= <- <-]. destruct (IH _ _ eq_refl) as (-> & file' & fh & err & ? & ? & ->).
      split; [done|]. exists file', fh, err. set_solver.
    + intros [= <- <-]. destruct (IH _ _ eq_refl) as (-> & Hlen2 & Hnew2).
      split; [done|]. split; [rewrite length_app; cbn; lia|].
      apply Forall_app. split.
      * eapply Forall_impl; [exact Hnew|]. intros e ?. exists file. set_solver.
      * eapply Forall_impl; [exact Hnew2|]. intros e (f' & ? & ?). exists f'. set_solver.
Qed.

Lemma validate_files_frame files errors c res c' :
  validate_files r files errors c = Ok (res, c') → c' = c.
Proof.
  rewrite validate_files_acc, validate_files_fold, <-validate_files_Some.
  destruct (validate_files r _ [] c) as [[res0 c0]|] eqn:H; [|done].
  destruct (validate_files_inv _ _ _ _ H) as [-> _]. by destruct res0; intros [= <- <-].
Qed.

End validate_files.

(** ** The orchestrator *)

Section orchestrator.
Context {T : Type}.
Context {BD : BodyDecoder T} {FV : FieldValidator T} {SG : Stringy} {ID : ImageDecoder}.
Context {RS : Responder ErrorResponse}.
Implicit Types (next : M Ctx (option error)) (files : option (list ValidateFile)).
Implicit Types (c : Ctx) (body : T) (errs new : list ErrorResponse).

Lemma decode_body_inr c body : BodyParser c = inr body → decode_body c = inr body.
Proof. unfold decode_body. by intros ->. Qed.

Lemma decode_body_inl c err :
  BodyParser c = inl err →
  decode_body c = inl (NewError StatusBadRequest ("Body parser error: " +:+ err)).
Proof. unfold decode_body. by intros ->. Qed.

(** A body that does not decode ends the call before anything else runs. *)
Lemma ValidateStruct_decode_error next files c e :
  decode_body c = inl e → ValidateStruct next files c = Ok (Some e, c).
Proof. intros H. unfold ValidateStruct. msimpl. by rewrite H. Qed.

Lemma finish_reject next body errs c :
  errs ≠ [] → finish next body errs c = respond errs c.
Proof.
  intros H. unfold finish. rewrite decide_True; [done|]. destruct errs; [done|cbn; lia].
Qed.

Lemma finish_accept next body c : finish next body [] c = forward next body c.
Proof. done. Qed.

Lemma forward_run next body c :
  forward next body c = next (set_locals <["request" := to_any body]> c).
Proof. done. Qed.

Lemma respond_run errs c :
  respond errs c =
  JSON (JSONEncoder (ValidateFailed errs "").2) (set_status (ValidateFailed errs "").1 c).
Proof. unfold respond. by destruct (ValidateFailed errs "") as [status resData]. Qed.

(** After the body is decoded and the struct validated, the outcome is that
    of the file loop: the struct's violations come first. *)
Lemma ValidateStruct_run next files c body errs :
  BodyParser c = inr body → struct_errors body = Ok errs →
  ValidateStruct next files c =
  match validate_files NewRule files [] c with
  | Ok (inr new, c') => finish next body (errs ++ new) c'
  | Ok (inl e, c') => Ok (Some e, c')
  | Panic msg => Panic msg
  end.
Proof.
  intros Hb Hs. unfold ValidateStruct. msimpl.
  rewrite (decode_body_inr _ _ Hb), Hs, (validate_files_acc NewRule files errs c).
  by destruct (validate_files NewRule files [] c) as [[[e|new] c']|].
Qed.

End orchestrator.

(** ** Outcomes of [ValidateStruct] *)

Section outcomes.
Context {T : Type}.
Context {BD : BodyDecoder T} {FV : FieldValidator T} {SG : Stringy} {ID : ImageDecoder}.
Context {RS : Responder ErrorResponse}.
Implicit Types (next : M Ctx (option error)) (files : option (list ValidateFile)).
Implicit Types (c : Ctx) (body : T) (errs new : list ErrorResponse) (file : ValidateFile).

(** C6: a body that does not decode ends the call with the 400 error
    ["Body parser error: ..."]; nothing is validated, nothing is written to
    the context and the next handler is not run. *)
Theorem ValidateStruct_body_error next files c err :
  BodyParser c = inl err →
  ValidateStruct next files c =
  Ok (Some (NewError 400 ("Body parser error: " +:+ err)), c).
Proof. intros H. by apply ValidateStruct_decode_error, decode_body_inl. Qed.

(** C8: when the struct validator returns an error that is not a list of
    violations (the decoded value is not a struct), the unchecked type
    assertion panics. *)
Theorem ValidateStruct_assertion_panic next files c body :
  BodyParser c = inr body → Struct body = InvalidValidationError →
  ∃ msg, ValidateStruct next files c = Panic msg.
Proof.
  intros Hb Hs. unfold ValidateStruct, struct_errors. msimpl.
  rewrite (decode_body_inr _ _ Hb), Hs. by eexists.
Qed.

(** C2: the violations handed to the responder are those of the struct
    validator, in its order, followed by those of the file rules, in the
    order the rules are declared. *)
Theorem ValidateStruct_rejects next l c body errs newss :
  BodyParser c = inr body → struct_errors body = Ok errs →
  Forall2 (λ file new, validate_file NewRule file [] c = Ok (inr new, c)) l newss →
  errs ++ concat newss ≠ [] →
  ValidateStruct next (Some l) c = respond (errs ++ concat newss) c.
Proof.
  intros Hb Hs Hl Hne. rewrite (ValidateStruct_run _ _ _ body errs Hb Hs).
  rewrite (validate_files_concat _ _ _ _ Hl). by apply finish_reject.
Qed.

(** C3: when the struct validator and every file rule report nothing, the
    decoded value is stored under the local ["request"] and the next handler
    runs in that context; its result is the result of the call. *)
Theorem ValidateStruct_accepts next l c body :
  BodyParser c = inr body → struct_errors body = Ok [] →
  Forall (λ file, validate_file NewRule file [] c = Ok (inr [], c)) l →
  ValidateStruct next (Some l) c = next (set_locals <["request" := to_any body]> c).
Proof.
  intros Hb Hs Hl. rewrite (ValidateStruct_run _ _ _ body [] Hb Hs).
  rewrite (validate_files_concat _ _ _ (replicate (length l) [])).
  - replace (concat (replicate (length l) [])) with (@nil ErrorResponse); [done|].
    induction (length l); [done|]. cbn. done.
  - induction Hl; constructor; auto.
Qed.

(** C4: every normal return of [ValidateStruct] is one of four: the 400
    error of the body parser, the 500 error of a file retrieval, the
    failure response for a non-empty list of violations, or the result of
    the next handler run with the local ["request"] set, the last only when
    no violation was found.  The context is untouched in the first two. *)
Theorem ValidateStruct_outcome next files c res c' :
  ValidateStruct next files c = Ok (res, c') →
  (∃ err, BodyParser c = inl err ∧ c' = c ∧
          res = Some (NewError 400 ("Body parser error: " +:+ err))) ∨
  (∃ file fh err, file ∈ default [] files ∧ c' = c ∧
          FormFile c (Field file) = (Some fh, Some err) ∧
          res = Some (file_retrieval_error file err)) ∨
  (∃ errs, errs ≠ [] ∧ respond errs c = Ok (res, c')) ∨
  (∃ body, BodyParser c = inr body ∧ struct_errors body = Ok [] ∧
          validate_files NewRule files [] c = Ok (inr [], c) ∧
          next (set_locals <["request" := to_any body]> c) = Ok (res, c')).
Proof.
  destruct (BodyParser c) as [err|body] eqn:Hb.
  { rewrite (ValidateStruct_decode_error _ _ _ _ (decode_body_inl _ _ Hb)).
    intros [= <- <-]. left. eauto. }
  destruct (struct_errors body) as [errs|] eqn:Hs.
  2: { unfold ValidateStruct. msimpl. by rewrite (decode_body_inr _ _ Hb), Hs. }
  rewrite (ValidateStruct_run _ _ _ body errs Hb Hs).
  destruct (validate_files NewRule files [] c) as [[[e|new] c1]|] eqn:Hf; [| |done].
  - intros [= <- <-]. right; left.
    rewrite validate_files_fold, <-validate_files_Some in Hf.
    destruct (validate_files_inv _ _ _ _ _ Hf) as (-> & file & fh & err & ? & ? & ->).
    by exists file, fh, err.
  - pose proof (validate_files_frame _ _ _ _ _ _ Hf) as ->. intros Hfin.
    destruct (decide (errs ++ new = [])) as [Hnil|Hne].
    + apply app_eq_nil in Hnil as [-> ->]. right; right; right. by exists body.
    + rewrite finish_reject in Hfin by done. right; right; left. eauto.
Qed.

(** C5: when a violation is found the next handler has no part in the
    result: exactly one of responding and forwarding happens. *)
Theorem ValidateStruct_reject_ignores_next next1 next2 files c body errs new :
  BodyParser c = inr body → struct_errors body = Ok errs →
  validate_files NewRule files [] c = Ok (inr new, c) → errs ++ new ≠ [] →
  ValidateStruct next1 files c = ValidateStruct next2 files c.
Proof.
  intros Hb Hs Hf Hne. rewrite !(ValidateStruct_run _ _ _ body errs Hb Hs), Hf.
  by rewrite !finish_reject.
Qed.

(** C7: a file that is present but whose retrieval reports an error ends
    the call with the 500 error ["File <field> error: ..."]; the violations
    found so far are dropped and nothing is written. *)
Theorem ValidateStruct_file_retrieval_error next l1 file l2 c body errs newss fh err :
  BodyParser c = inr body → struct_errors body = Ok errs →
  Forall2 (λ file new, validate_file NewRule file [] c = Ok (inr new, c)) l1 newss →
  FormFile c (Field file) = (Some fh, Some err) →
  ValidateStruct next (Some (l1 ++ file :: l2)) c =
  Ok (Some (NewError 500 ("File " +:+ Field file +:+ " error: " +:+ err)), c).
Proof.
  intros Hb Hs Hl Hf. rewrite (ValidateStruct_run _ _ _ body errs Hb Hs).
  rewrite validate_files_app, (validate_files_concat _ _ _ _ Hl), validate_files_cons.
  by rewrite (validate_file_retrieval_error _ _ _ _ fh err).
Qed.

(** C9: a rule adds at most one violation, under its own field, with one of
    the four tags and no message; the checks on one file stop at the first
    that fails. *)
Theorem validate_file_short_circuit file c new c' :
  validate_file NewRule file [] c = Ok (inr new, c') →
  length new ≤ 1 ∧ Forall (violation_of file) new.
Proof. intros H. by destruct (validate_file_inv NewRule _ _ _ _ H) as [_ ?]. Qed.

(** C11: the file checks leave the context as they found it; every stream
    opened to read an image header is closed again, on every path. *)
Theorem validate_files_closes_streams files errs c res c' :
  validate_files NewRule files errs c = Ok (res, c') →
  c' = c ∧ ctx_open_files c' = ctx_open_files c.
Proof. intros H. by rewrite (validate_files_frame _ _ _ _ _ _ H). Qed.

End outcomes.

(** ** One declared rule: the scenarios of the specification *)

Section scenarios.
Context {T : Type}.
Context {BD : BodyDecoder T} {FV : FieldValidator T} {SG : Stringy} {ID : ImageDecoder}.
Context {RS : Responder ErrorResponse}.
Implicit Types (next : M Ctx (option error)) (c : Ctx) (body : T).
Implicit Types (errs new : list ErrorResponse) (file : ValidateFile) (fh : FileHeader).

Lemma ValidateStruct_single next c body errs file new :
  BodyParser c = inr body → struct_errors body = Ok errs →
  validate_file NewRule file [] c = Ok (inr new, c) →
  ValidateStruct next (Some [file]) c = finish next body (errs ++ new) c.
Proof.
  intros Hb Hs Hf. rewrite (ValidateStruct_run _ _ _ body errs Hb Hs).
  rewrite (validate_files_concat _ [file] c [new]) by (by repeat constructor).
  cbn. by rewrite app_nil_r.
Qed.

Lemma finish_snoc next body errs e c :
  finish next body (errs ++ [e]) c = respond (errs ++ [e]) c.
Proof. apply finish_reject. by destruct errs. Qed.

(** C10: a required file that was not uploaded is reported as [required]
    under its field, and no other check runs for that field. *)
Theorem required_file_missing next c body errs file err :
  BodyParser c = inr body → struct_errors body = Ok errs →
  FormFile c (Field file) = (None, err) → IsRequired file = true →
  ValidateStruct next (Some [file]) c = respond (errs ++ [required_error file]) c.
Proof.
  intros Hb Hs Hf Hr.
  rewrite (ValidateStruct_single _ _ body errs file [required_error file]); try done.
  - apply finish_snoc.
  - rewrite (validate_file_absent _ _ _ _ err Hf). by rewrite Hr.
Qed.

(** An optional file that was not uploaded is skipped silently. *)
Lemma optional_file_missing next c body file err :
  BodyParser c = inr body → struct_errors body = Ok [] →
  FormFile c (Field file) = (None, err) → IsRequired file = false →
  ValidateStruct next (Some [file]) c = forward next body c.
Proof.
  intros Hb Hs Hf Hr. rewrite (ValidateStruct_single _ _ body [] file []); try done.
  rewrite (validate_file_absent _ _ _ _ err Hf). by rewrite Hr.
Qed.

(** C12: an upload whose extension is not in the allow-list is reported
    once, as [file_extension] with the allow-list joined by [", "]; its size
    and resolution are not checked. *)
Theorem bad_extension_rejected next c body errs file fh :
  BodyParser c = inr body → struct_errors body = Ok errs →
  FormFile c (Field file) = (Some fh, None) →
  Ext (Filename fh) ∉ Extension file →
  ValidateStruct next (Some [file]) c =
  respond (errs ++ [{| FailedField := Field file; Tag := "file_extension";
                       Value := Join (Extension file) ", "; Message := "" |}]) c.
Proof.
  intros Hb Hs Hf He.
  pose (e := extension_error (Field file) (Extension file)).
  rewrite (ValidateStruct_single _ _ body errs file [file_error file e]); try done.
  - apply finish_snoc.
  - rewrite (validate_file_violation NewRule _ _ _ fh e Hf); [done|].
    by apply File_extension_violation.
Qed.

(** C13: an upload with an allowed extension whose size exceeds the limit
    is reported once, as [file_size] with the limit in bytes printed by
    [%f]; its resolution is not checked. *)
Theorem too_large_rejected next c body errs file fh :
  BodyParser c = inr body → struct_errors body = Ok errs →
  FormFile c (Field file) = (Some fh, None) →
  Ext (Filename fh) ∈ Extension file →
  f64_gt (float64_of_int (FileSize fh)) (f64_mul (Size file) MiB) = true →
  ValidateStruct next (Some [file]) c =
  respond (errs ++ [{| FailedField := Field file; Tag := "file_size";
                       Value := FormatFloat (f64_mul (Size file) MiB);
                       Message := "" |}]) c.
Proof.
  intros Hb Hs Hf He Hgt.
  pose (e := size_error (Field file) (Size file)).
  rewrite (ValidateStruct_single _ _ body errs file [file_error file e]); try done.
  - apply finish_snoc.
  - rewrite (validate_file_violation NewRule _ _ _ fh e Hf); [done|].
    by apply File_size_violation.
Qed.

(** What a rule with a resolution does with a file that passed [File]. *)
Lemma validate_file_checks_width_twice c file fh res bytes :
  FormFile c (Field file) = (Some fh, None) →
  Rule.File (Field file) fh (Extension file) (Size file) = None →
  ImageRes file = Some res → FileContent fh = Some bytes →
  validate_file NewRule file [] c =
  Ok (inr (added file (Rule.check_resolution (Field file) bytes (Width res) (Width res))), c).
Proof.
  intros Hf HF Hr Hb. rewrite (validate_file_resolution NewRule _ _ _ fh res Hf HF Hr).
  cbn [Resolution NewRule]. by rewrite (Resolution_run _ _ _ _ _ bytes Hb).
Qed.

(** C14: the resolution check compares both dimensions of the image with
    the declared width: an image as wide and as high as the declared width
    is accepted whatever height is declared. *)
Theorem resolution_ignores_declared_height next c body file fh res bytes :
  BodyParser c = inr body → struct_errors body = Ok [] →
  FormFile c (Field file) = (Some fh, None) →
  Rule.File (Field file) fh (Extension file) (Size file) = None →
  ImageRes file = Some res → FileContent fh = Some bytes →
  DecodeConfig bytes = Some {| ConfigWidth := Width res; ConfigHeight := Width res |} →
  ValidateStruct next (Some [file]) c = forward next body c.
Proof.
  intros Hb Hs Hf HF Hr Hc Hd.
  rewrite (ValidateStruct_single _ _ body [] file []); try done.
  rewrite (validate_file_checks_width_twice _ _ fh res bytes) by done.
  rewrite check_resolution_cases, Hd. by rewrite decide_True.
Qed.

(** C15: an image whose height differs from the declared width is reported
    as [resolution], and the value names the declared width twice; so an
    image of exactly the declared width and height is rejected when the two
    differ. *)
Theorem resolution_rejects_declared_size next c body errs file fh res bytes image :
  BodyParser c = inr body → struct_errors body = Ok errs →
  FormFile c (Field file) = (Some fh, None) →
  Rule.File (Field file) fh (Extension file) (Size file) = None →
  ImageRes file = Some res → FileContent fh = Some bytes →
  DecodeConfig bytes = Some image → ConfigHeight image ≠ Width res →
  ValidateStruct next (Some [file]) c =
  respond (errs ++ [{| FailedField := Field file; Tag := "resolution";
                       Value := FormatInt (Width res) +:+ "x" +:+ FormatInt (Width res);
                       Message := "" |}]) c.
Proof.
  intros Hb Hs Hf HF Hr Hc Hd Hne.
  pose (e := Rule.resolution_error (Field file) (Width res) (Width res)).
  rewrite (ValidateStruct_single _ _ body errs file [file_error file e]); try done.
  - apply finish_snoc.
  - rewrite (validate_file_checks_width_twice _ _ fh res bytes) by done.
    rewrite check_resolution_cases, Hd. by rewrite decide_False by naive_solver.
Qed.

End scenarios.

(** ** The theorems at concrete requests *)

Section witnesses.
Import Demo.

Definition jpg (size : Z) (w h : N) : FileHeader := upload "me.jpg" size (image w h).
Definition square100 : option ImageResolution := Some {| Width := 100; Height := 100 |}.
Definition portrait : option ImageResolution := Some {| Width := 100; Height := 150 |}.

Definition name_min : ErrorResponse :=
  {| FailedField := "name"; Tag := "min"; Value := "3"; Message := "" |}.
Definition email_required : ErrorResponse :=
  {| FailedField := "email"; Tag := "required"; Value := ""; Message := "" |}.

Lemma ValidateStruct_body_error_witness :
  ValidateStruct next_handler None (request "" "" None) =
  Ok (Some (NewError 400 "Body parser error: unexpected end of JSON input"),
      request "" "" None).
Proof. by apply (ValidateStruct_body_error next_handler None (request "" "" None)). Defined.

Lemma ValidateStruct_assertion_panic_witness :
  ∃ msg, ValidateStruct (FV := λ _, InvalidValidationError) next_handler None
           (request "alice" "a@b.c" None) = Panic msg.
Proof.
  by apply (ValidateStruct_assertion_panic (FV := λ _, InvalidValidationError)
              next_handler None _ {| Name := "alice"; Email := "a@b.c" |}).
Defined.

Lemma ValidateStruct_rejects_witness :
  ValidateStruct next_handler (Some [avatar_rule true None])
    (request "al" "" (Some (upload "me.gif" 10 ""))) =
  respond [name_min; email_required;
           {| FailedField := "avatar"; Tag := "file_extension"; Value := ".jpg, .png";
              Message := "" |}]
    (request "al" "" (Some (upload "me.gif" 10 ""))).
Proof.
  apply (ValidateStruct_rejects next_handler [avatar_rule true None] _
           {| Name := "al"; Email := "" |} [name_min; email_required]
           [[{| FailedField := "avatar"; Tag := "file_extension"; Value := ".jpg, .png";
                Message := "" |}]]); [done|done| |done].
  by repeat constructor.
Defined.

Lemma ValidateStruct_accepts_witness :
  ValidateStruct next_handler (Some [avatar_rule true square100])
    (request "alice" "a@b.c" (Some (jpg 5242880 100 100))) =
  next_handler (set_locals <["request" := to_any {| Name := "alice"; Email := "a@b.c" |}]>
                  (request "alice" "a@b.c" (Some (jpg 5242880 100 100)))).
Proof.
  apply (ValidateStruct_accepts next_handler [avatar_rule true square100] _
           {| Name := "alice"; Email := "a@b.c" |}); [done|done|].
  by repeat constructor.
Defined.

Definition accepted_request : Ctx := request "alice" "a@b.c" (Some (jpg 5242880 100 100)).
Definition alice : SignUp := {| Name := "alice"; Email := "a@b.c" |}.

Lemma ValidateStruct_outcome_witness :
  ∃ body, BodyParser accepted_request = inr body ∧ struct_errors body = Ok [] ∧
    validate_files NewRule (Some [avatar_rule true square100]) [] accepted_request =
      Ok (inr [], accepted_request) ∧
    next_handler (set_locals <["request" := to_any body]> accepted_request) =
      Ok (None, set_status 204 (set_locals <["request" := to_any alice]> accepted_request)).
Proof.
  assert (ValidateStruct next_handler (Some [avatar_rule true square100]) accepted_request =
          Ok (None, set_status 204 (set_locals <["request" := to_any alice]> accepted_request)))
    as Hrun by reflexivity.
  destruct (ValidateStruct_outcome _ _ _ _ _ Hrun)
    as [(err & Hb & _)|[(file & fh & err & _ & _ & Hf & _)|[(errs & Hne & Hr)|H]]].
  - discriminate Hb.
  - exfalso. revert Hf. unfold FormFile. cbn.
    destruct (decide (Field file = "avatar")) as [->|Hne].
    + by rewrite lookup_singleton_eq.
    + by rewrite lookup_singleton_ne.
  - exfalso. rewrite respond_run in Hr. cbn in Hr. by injection Hr.
  - exact H.
Defined.

Lemma ValidateStruct_reject_ignores_next_witness :
  ValidateStruct next_handler (Some [avatar_rule true None]) (request "al" "x" None) =
  ValidateStruct (panic "unreachable") (Some [avatar_rule true None]) (request "al" "x" None).
Proof.
  by apply (ValidateStruct_reject_ignores_next _ _ _ _ {| Name := "al"; Email := "x" |}
              [name_min] [required_error (avatar_rule true None)]).
Defined.

Definition broken_request : Ctx :=
  new_ctx "alice" {["email" := "a@b.c"]}
    {["avatar" := (Some (jpg 10 1 1), Some "unexpected EOF")]}.

Lemma ValidateStruct_file_retrieval_error_witness :
  ValidateStruct next_handler (Some [avatar_rule true None]) broken_request =
  Ok (Some (NewError 500 "File avatar error: unexpected EOF"), broken_request).
Proof.
  by apply (ValidateStruct_file_retrieval_error next_handler [] (avatar_rule true None) []
              broken_request alice [] [] (jpg 10 1 1) "unexpected EOF").
Defined.

Lemma validate_file_short_circuit_witness :
  length [file_error (avatar_rule true square100)
            (extension_error "avatar" [".jpg"; ".png"])] ≤ 1 ∧
  Forall (violation_of (avatar_rule true square100))
    [file_error (avatar_rule true square100) (extension_error "avatar" [".jpg"; ".png"])].
Proof.
  by apply (validate_file_short_circuit (avatar_rule true square100)
              (request "alice" "a@b.c" (Some (upload "huge.gif" 99999999 "")))
              _ (request "alice" "a@b.c" (Some (upload "huge.gif" 99999999 "")))).
Defined.

Lemma validate_files_closes_streams_witness :
  accepted_request = accepted_request ∧
  ctx_open_files accepted_request = ctx_open_files accepted_request.
Proof.
  by apply (validate_files_closes_streams (Some [avatar_rule true square100]) []
              accepted_request (inr []) accepted_request).
Defined.

Lemma required_file_missing_witness :
  ValidateStruct next_handler (Some [avatar_rule true None]) (request "alice" "a@b.c" None) =
  respond [{| FailedField := "avatar"; Tag := "required"; Value := ""; Message := "" |}]
    (request "alice" "a@b.c" None).
Proof.
  by apply (required_file_missing next_handler (request "alice" "a@b.c" None) alice []
              (avatar_rule true None) (Some ErrMissingFile)).
Defined.

Lemma optional_file_missing_witness :
  ValidateStruct next_handler (Some [avatar_rule false None]) (request "alice" "a@b.c" None) =
  forward next_handler alice (request "alice" "a@b.c" None).
Proof.
  by apply (optional_file_missing next_handler (request "alice" "a@b.c" None) alice
              (avatar_rule false None) (Some ErrMissingFile)).
Defined.

Lemma bad_extension_rejected_witness :
  ValidateStruct next_handler (Some [avatar_rule true square100])
    (request "alice" "a@b.c" (Some (upload "huge.gif" 99999999 ""))) =
  respond [{| FailedField := "avatar"; Tag := "file_extension"; Value := ".jpg, .png";
              Message := "" |}]
    (request "alice" "a@b.c" (Some (upload "huge.gif" 99999999 ""))).
Proof.
  apply (bad_extension_rejected next_handler _ alice [] (avatar_rule true square100)
           (upload "huge.gif" 99999999 "")); [done..|compute_done].
Defined.

Lemma too_large_rejected_witness :
  ValidateStruct next_handler (Some [avatar_rule true square100])
    (request "alice" "a@b.c" (Some (jpg 5242881 100 100))) =
  respond [{| FailedField := "avatar"; Tag := "file_size"; Value := "5242880.000000";
              Message := "" |}]
    (request "alice" "a@b.c" (Some (jpg 5242881 100 100))).
Proof.
  apply (too_large_rejected next_handler _ alice [] (avatar_rule true square100)
           (jpg 5242881 100 100)); [done..|compute_done|done].
Defined.

Lemma resolution_ignores_declared_height_witness :
  ValidateStruct next_handler (Some [avatar_rule true portrait])
    (request "alice" "a@b.c" (Some (jpg 1024 100 100))) =
  forward next_handler alice (request "alice" "a@b.c" (Some (jpg 1024 100 100))).
Proof.
  by apply (resolution_ignores_declared_height next_handler _ alice
              (avatar_rule true portrait) (jpg 1024 100 100)
              {| Width := 100; Height := 150 |} (image 100 100)).
Defined.

Lemma resolution_rejects_declared_size_witness :
  ValidateStruct next_handler (Some [avatar_rule true portrait])
    (request "alice" "a@b.c" (Some (jpg 1024 100 150))) =
  respond [{| FailedField := "avatar"; Tag := "resolution"; Value := "100x100";
              Message := "" |}]
    (request "alice" "a@b.c" (Some (jpg 1024 100 150))).
Proof.
  by apply (resolution_rejects_declared_size next_handler _ alice []
              (avatar_rule true portrait) (jpg 1024 100 150)
              {| Width := 100; Height := 150 |} (image 100 150)
              {| ConfigWidth := 100; ConfigHeight := 150 |}).
Defined.

(** The whole run on the rejected sign-up of the examples: status 422 and
    the three violations in order, the next handler not run. *)
Example rejected_sign_up_response :
  ∃ c', ValidateStruct next_handler (Some [avatar_rule true None])
          (request "al" "" (Some (upload "me.gif" 10 ""))) = Ok (None, c') ∧
        ctx_status c' = 422%Z ∧ ctx_locals c' = ∅ ∧
        ctx_response c' =
          Some "name:min:3;email:required:;avatar:file_extension:.jpg, .png".
Proof. eexists. split; [vm_compute; reflexivity|done]. Qed.

End witnesses.
