(* ===== verification/ValidationSpec.v ===== *)
(** * ValidationSpec: the contract of the validation engine and its refinement

    The first part states the contract in the terms of the specification:
    a request decodes or not, a field validator lists violations, every
    declared upload is absent, unreadable or present with a name, a size and
    the dimensions its header decodes to; the outcome is [Accepted],
    [Rejected] with the ordered violations, or a transport failure.  The
    required resolution is the declared width and height.

    The second part abstracts a context and the collaborators to those
    terms and proves that [ValidateStruct] implements the contract when no
    stream fails to open, the validator returns violations or nothing, and
    every declared resolution is square.  Without the last hypothesis the
    source departs from the contract: it compares the height with the
    declared width. *)

From S2P Require Import Prelude GoStrings GoInt GoFloat Fiber Rules Fixtures Validator.

(** ** The contract *)

Record FieldViolation : Type := {
  fv_field : string;
  fv_rule : string;
  fv_value : string;
}.

Inductive ValidationOutcome (T : Type) : Type :=
| Accepted (object : T)
| Rejected (violations : list FieldViolation)
| TransportFailure (status : Z) (cause : string).
Arguments Accepted {T} object.
Arguments Rejected {T} violations.
Arguments TransportFailure {T} status cause.

Record Upload : Type := {
  up_name : string;
  up_size : Z;
  (* width and height read from the image header, if it decodes *)
  up_dims : option (Z * Z);
}.

Inductive Lookup : Type :=
| Absent
| Unreadable (cause : string)
| Present (u : Upload).

#[export] Instance FieldViolation_eq_dec : EqDecision FieldViolation.
Proof. solve_decision. Defined.

Section contract.
Context {T : Type}.
(* the decoded request, or why it does not decode *)
Context (decoded : string + T).
(* the field validator capability, field names normalised *)
Context (check : T → list FieldViolation).
(* the uploaded file of a form key *)
Context (uploads : string → Lookup).

Definition required (rule : ValidateFile) : FieldViolation :=
  {| fv_field := Field rule; fv_rule := "required"; fv_value := "" |}.

(** Extension, then size, then resolution: the first failing check is the
    only one reported. *)
Definition upload_violation (rule : ValidateFile) (u : Upload) : option FieldViolation :=
  if decide (Ext (up_name u) ∈ Extension rule) then
    if f64_gt (float64_of_int (up_size u)) (f64_mul (Size rule) MiB) then
      Some {| fv_field := Field rule; fv_rule := "file_size";
              fv_value := FormatFloat (f64_mul (Size rule) MiB) |}
    else
      match ImageRes rule with
      | Some res =>
          if decide (up_dims u = Some (Width res, Height res)) then None
          else Some {| fv_field := Field rule; fv_rule := "resolution";
                       fv_value := FormatInt (Width res) +:+ "x" +:+ FormatInt (Height res) |}
      | None => None
      end
  else Some {| fv_field := Field rule; fv_rule := "file_extension";
               fv_value := Join (Extension rule) ", " |}.

Definition rule_violations (rule : ValidateFile) : string + list FieldViolation :=
  match uploads (Field rule) with
  | Absent => inr (if IsRequired rule then [required rule] else [])
  | Unreadable cause => inl cause
  | Present u => inr (option_list (upload_violation rule u))
  end.

(** The violations of the rules in declaration order, or the first
    unreadable upload with its field. *)
Fixpoint file_violations (rules : list ValidateFile)
    : (string * string) + list FieldViolation :=
  match rules with
  | [] => inr []
  | rule :: rest =>
      match rule_violations rule with
      | inl cause => inl (Field rule, cause)
      | inr vs =>
          match file_violations rest with
          | inl e => inl e
          | inr ws => inr (vs ++ ws)
          end
      end
  end.

Definition validate_spec (rules : list ValidateFile) : ValidationOutcome T :=
  match decoded with
  | inl cause => TransportFailure 400 ("Body parser error: " +:+ cause)
  | inr object =>
      match file_violations rules with
      | inl (fld, cause) =>
          TransportFailure 500 ("File " +:+ fld +:+ " error: " +:+ cause)
      | inr vs =>
          match check object ++ vs with
          | [] => Accepted object
          | all => Rejected all
          end
      end
  end.

(** A rejection carries at least one violation. *)
Lemma validate_spec_rejected_nonempty rules vs :
  validate_spec rules = Rejected vs → vs ≠ [].
Proof.
  unfold validate_spec. destruct decoded as [?|object]; [done|].
  destruct (file_violations rules) as [[? ?]|ws]; [done|].
  destruct (check object ++ ws) eqn:E; [done|]. by intros [= <-].
Qed.

(** Acceptance needs the field validator and every rule to report nothing. *)
Lemma validate_spec_accepted rules object :
  validate_spec rules = Accepted object ↔
  decoded = inr object ∧ check object = [] ∧ file_violations rules = inr [].
Proof.
  unfold validate_spec. destruct decoded as [?|object']; [naive_solver|].
  destruct (file_violations rules) as [[? ?]|ws]; [naive_solver|].
  destruct (check object' ++ ws) eqn:E.
  - apply app_eq_nil in E as [E ->]. naive_solver.
  - split; [done|]. intros ([= ->] & Hc & [= ->]). rewrite Hc in E. done.
Qed.

End contract.

(** ** From the context to the terms of the contract *)

Section abstraction.
Context {T : Type}.
Context {BD : BodyDecoder T} {FV : FieldValidator T} {SG : Stringy} {ID : ImageDecoder}.
Context {RS : Responder ErrorResponse}.

Definition to_violation (e : ErrorResponse) : FieldViolation :=
  {| fv_field := FailedField e; fv_rule := Tag e; fv_value := Value e |}.

Definition to_response (v : FieldViolation) : ErrorResponse :=
  {| FailedField := fv_field v; Tag := fv_rule v; Value := fv_value v; Message := "" |}.

Definition checked (body : T) : list FieldViolation :=
  match Struct body with
  | ValidationErrors errs => to_violation ∘ field_error <$> errs
  | _ => []
  end.

Definition dims_of (fh : FileHeader) : option (Z * Z) :=
  bytes ← FileContent fh;
  image ← DecodeConfig bytes;
  Some (ConfigWidth image, ConfigHeight image).

Definition upload_of (fh : FileHeader) : Upload :=
  {| up_name := Filename fh; up_size := FileSize fh; up_dims := dims_of fh |}.

Definition uploads_of (c : Ctx) (key : string) : Lookup :=
  match FormFile c key with
  | (None, _) => Absent
  | (Some fh, Some cause) => Unreadable cause
  | (Some fh, None) => Present (upload_of fh)
  end.

(** What it is for a run of [ValidateStruct] to realise an outcome. *)
Definition implements (next : M Ctx (option error)) (files : option (list ValidateFile))
    (c : Ctx) (o : ValidationOutcome T) : Prop :=
  match o with
  | Accepted object => ValidateStruct next files c = forward next object c
  | Rejected vs => vs ≠ [] ∧ ValidateStruct next files c = respond (to_response <$> vs) c
  | TransportFailure status cause =>
      ValidateStruct next files c = Ok (Some (NewError status cause), c)
  end.

(** The hypotheses of the refinement. *)
Definition struct_checked (c : Ctx) : Prop :=
  ∀ body, BodyParser c = inr body → Struct body ≠ InvalidValidationError.

Definition streams_open (c : Ctx) (l : list ValidateFile) : Prop :=
  ∀ file fh, file ∈ l → FormFile c (Field file) = (Some fh, None) →
             is_Some (FileContent fh).

Definition square (l : list ValidateFile) : Prop :=
  ∀ file res, file ∈ l → ImageRes file = Some res → Height res = Width res.

End abstraction.

(** ** Refinement *)

Section refinement.
Context {T : Type}.
Context {BD : BodyDecoder T} {FV : FieldValidator T} {SG : Stringy} {ID : ImageDecoder}.
Context {RS : Responder ErrorResponse}.
Implicit Types (c : Ctx) (file : ValidateFile) (l : list ValidateFile) (fh : FileHeader).

Lemma to_response_to_violation e : Message e = "" → to_response (to_violation e) = e.
Proof. destruct e. cbn. by intros ->. Qed.

Lemma struct_errors_checked (body : T) :
  Struct body ≠ InvalidValidationError →
  struct_errors body = Ok (to_response <$> checked body).
Proof.
  unfold struct_errors, checked. destruct (Struct body) as [|errs|]; [done| |done].
  intros _. f_equal. rewrite <-list_fmap_compose. apply list_fmap_ext.
  intros _ e _. cbn. by rewrite to_response_to_violation.
Qed.

(** The verdict of the implementation on a present, readable file, with the
    resolution check as the source runs it. *)
Lemma validate_file_present c file fh bytes :
  FormFile c (Field file) = (Some fh, None) → FileContent fh = Some bytes →
  validate_file NewRule file [] c =
  Ok (inr (added file
       match Rule.File (Field file) fh (Extension file) (Size file), ImageRes file with
       | Some e, _ => Some e
       | None, Some res =>
           Rule.check_resolution (Field file) bytes (Width res) (Width res)
       | None, None => None
       end), c).
Proof.
  intros Hf Hb.
  destruct (Rule.File _ _ _ _) as [e|] eqn:HF.
  { by rewrite (validate_file_violation NewRule _ _ _ fh e Hf HF). }
  destruct (ImageRes file) as [res|] eqn:Hr.
  - by rewrite (validate_file_checks_width_twice _ _ fh res bytes).
  - by rewrite (validate_file_no_resolution NewRule _ _ _ fh Hf HF Hr).
Qed.

(** On a file without a resolution rule the stream is never opened. *)
Lemma validate_file_present_no_resolution c file fh :
  FormFile c (Field file) = (Some fh, None) → ImageRes file = None →
  validate_file NewRule file [] c =
  Ok (inr (added file (Rule.File (Field file) fh (Extension file) (Size file))), c).
Proof.
  intros Hf Hr. destruct (Rule.File _ _ _ _) as [e|] eqn:HF.
  - by rewrite (validate_file_violation NewRule _ _ _ fh e Hf HF).
  - by rewrite (validate_file_no_resolution NewRule _ _ _ fh Hf HF Hr).
Qed.

Lemma check_resolution_square file fh bytes res :
  FileContent fh = Some bytes → Height res = Width res →
  added file (Rule.check_resolution (Field file) bytes (Width res) (Width res)) =
  to_response <$> option_list
    (if decide (dims_of fh = Some (Width res, Height res)) then None
     else Some {| fv_field := Field file; fv_rule := "resolution";
                  fv_value := FormatInt (Width res) +:+ "x" +:+ FormatInt (Height res) |}).
Proof.
  intros Hb Hsq. rewrite check_resolution_cases. unfold dims_of. rewrite Hb, Hsq. cbn.
  destruct (DecodeConfig bytes) as [[iw ih]|]; cbn; [|by rewrite decide_False].
  repeat case_decide; naive_solver.
Qed.

(** One rule: the loop body computes the rule's violations of the contract. *)
Lemma validate_file_refines c file :
  (∀ fh, FormFile c (Field file) = (Some fh, None) → is_Some (FileContent fh)) →
  (∀ res, ImageRes file = Some res → Height res = Width res) →
  validate_file NewRule file [] c =
  match rule_violations (uploads_of c) file with
  | inl cause => Ok (inl (file_retrieval_error file cause), c)
  | inr vs => Ok (inr (to_response <$> vs), c)
  end.
Proof.
  intros Hopen Hsq. unfold rule_violations, uploads_of.
  destruct (FormFile c (Field file)) as [[fh|] [cause|]] eqn:Hf.
  - by rewrite (validate_file_retrieval_error _ _ _ _ fh cause).
  - destruct (Hopen fh eq_refl) as [bytes Hb].
    rewrite (validate_file_present _ _ fh bytes Hf Hb). do 3 f_equal.
    unfold upload_violation. cbn [up_name up_size up_dims upload_of].
    rewrite File_cases. case_decide; [|done].
    destruct (f64_gt _ _); [done|]. destruct (ImageRes file) as [res|] eqn:Hr; [|done].
    by apply check_resolution_square, Hsq.
  - rewrite (validate_file_absent _ _ _ _ (Some cause) Hf). by destruct (IsRequired file).
  - rewrite (validate_file_absent _ _ _ _ None Hf). by destruct (IsRequired file).
Qed.

(** The loop computes the violations of the rules, or stops at the first
    unreadable upload. *)
Lemma validate_files_refines c l :
  streams_open c l → square l →
  validate_files NewRule (Some l) [] c =
  match file_violations (uploads_of c) l with
  | inl (fld, cause) =>
      Ok (inl (NewError 500 ("File " +:+ fld +:+ " error: " +:+ cause)), c)
  | inr vs => Ok (inr (to_response <$> vs), c)
  end.
Proof.
  induction l as [|file l IH]; intros Hopen Hsq; [done|].
  rewrite validate_files_cons, validate_file_refines.
  2: { intros fh. apply Hopen. set_solver. }
  2: { intros res. apply Hsq. set_solver. }
  cbn [file_violations]. destruct (rule_violations _ file) as [cause|vs]; [done|].
  rewrite validate_files_acc, IH.
  2: { intros f fh ?. apply Hopen. set_solver. }
  2: { intros f res ?. apply Hsq. set_solver. }
  destruct (file_violations _ l) as [[fld cause]|ws]; [done|]. by rewrite fmap_app.
Qed.

(** C1: [ValidateStruct] implements the contract of the specification:
    for a request whose uploads open, a validator that returns violations
    or nothing, and declared resolutions that are square, the run realises
    the outcome of [validate_spec] on the abstraction of the request: it
    forwards the decoded object, or answers with exactly the contract's
    violations in the contract's order, or returns the transport error. *)
Theorem ValidateStruct_refines next c l :
  struct_checked c → streams_open c l → square l →
  implements next (Some l) c (validate_spec (BodyParser c) checked (uploads_of c) l).
Proof.
  intros Hs Hopen Hsq. unfold validate_spec.
  destruct (BodyParser c) as [cause|body] eqn:Hb.
  { by apply ValidateStruct_decode_error, decode_body_inl. }
  pose proof (ValidateStruct_run next (Some l) c body _ Hb
                (struct_errors_checked body (Hs body Hb))) as Hrun.
  rewrite (validate_files_refines c l Hopen Hsq) in Hrun.
  destruct (file_violations _ l) as [[fld cause]|vs]; [done|].
  rewrite <-fmap_app in Hrun.
  destruct (checked body ++ vs) as [|v all] eqn:E; [done|].
  split; [done|]. by rewrite Hrun, finish_reject.
Qed.

End refinement.

(** ** The refinement at concrete requests, and where it ends *)

Section witnesses.
Import Demo.

Definition exact_rule : list ValidateFile := [avatar_rule true square100].

Lemma demo_struct_checked c : struct_checked c.
Proof. intros body _. unfold Struct, field_validator. by repeat case_match. Qed.

Lemma demo_streams_open name email fh l :
  is_Some (FileContent fh) → streams_open (request name email (Some fh)) l.
Proof.
  intros Hfh file fh' _. unfold FormFile, request. cbn.
  destruct (decide (Field file = "avatar")) as [->|Hne].
  - rewrite lookup_singleton_eq. by intros [= <-].
  - by rewrite lookup_singleton_ne.
Qed.

Lemma square_singleton file :
  (∀ res, ImageRes file = Some res → Height res = Width res) → square [file].
Proof. intros H f res ->%list_elem_of_singleton. apply H. Qed.

Lemma ValidateStruct_refines_witness :
  implements next_handler (Some exact_rule) accepted_request (Accepted alice).
Proof.
  assert (validate_spec (BodyParser accepted_request) checked (uploads_of accepted_request)
            exact_rule = Accepted alice) as <- by done.
  apply (ValidateStruct_refines next_handler accepted_request exact_rule).
  - apply demo_struct_checked.
  - by apply demo_streams_open.
  - apply square_singleton. by intros res [= <-].
Defined.


End witnesses.
