(* ===== verification/Machine.v ===== *)
(** * Machine: [ValidateStruct] as a transition system

    The handler of [validator.go] again, this time one statement group at a
    time.  A configuration is a program point [pc] of [ValidateStruct]
    (with the values of its local variables) and the request context; the
    relation [step] has one rule per branch of the source, [next_config] is
    the same relation as a function and [run] iterates it.  The call of
    [rule.Resolution] is entered: opening the stream and closing it are
    separate transitions, so that the configurations in which a stream is
    open are visible.

    The file proves that [step] is deterministic and never stuck before the
    handler has returned or panicked, that it terminates within
    [measure] steps, that every step preserves the outcome [sem] the
    function [Validator.ValidateStruct] computes from that point (so the
    machine and the function agree), the invariant [wf] of every reachable
    configuration, and that the call of the next handler is reached by the
    acceptable requests and by no other. *)

From stdpp Require Import relations.
From S2P Require Import Prelude GoStrings GoInt GoFloat Fiber Rules Fixtures Validator.

Section machine.
Context {T : Type}.
Context {BD : BodyDecoder T} {FV : FieldValidator T} {SG : Stringy} {ID : ImageDecoder}.
Context {RS : Responder ErrorResponse}.
Context (next : M Ctx (option error)) (files : option (list ValidateFile)).

(** ** Program points

    [Loop] is the head of the loop over the rules still to check, [Check]
    the point after the header of [file] was retrieved without error,
    [Decoding] the body of [Rule.Resolution] between [Open] and the deferred
    [Close], [Finish] the test on [len(errors)], [Forward] the call of
    [c.Next()]. *)
Inductive pc : Type :=
  | Decode
  | Validate (body : T)
  | Loop (body : T) (rest : list ValidateFile) (errors : list ErrorResponse)
  | Check (body : T) (file : ValidateFile) (rest : list ValidateFile)
      (errors : list ErrorResponse) (fh : FileHeader)
  | Decoding (body : T) (file : ValidateFile) (rest : list ValidateFile)
      (errors : list ErrorResponse) (res : ImageResolution) (bytes : string)
  | Finish (body : T) (errors : list ErrorResponse)
  | Forward (body : T)
  | Return (r : option error)
  | Panicked (msg : string).

Definition config : Type := pc * Ctx.

(** [if files != nil && len(files) != 0 { for ... }] *)
Definition enter_loop (body : T) (errors : list ErrorResponse) : pc :=
  match files with
  | Some (file :: rest) => Loop body (file :: rest) errors
  | Some [] | None => Finish body errors
  end.

(** [if file.IsRequired { if fileHeader == nil { errors = append(...) } }] *)
Definition required_check (file : ValidateFile) (fileHeader : option FileHeader)
    (errors : list ErrorResponse) : list ErrorResponse :=
  if IsRequired file then
    match fileHeader with
    | None => errors ++ [required_error file]
    | Some _ => errors
    end
  else errors.

(** ** The transition relation *)

Inductive step : relation config :=
  | step_decode_error c e :
      decode_body c = inl e →
      step (Decode, c) (Return (Some e), c)
  | step_decode c body :
      decode_body c = inr body →
      step (Decode, c) (Validate body, c)
  | step_validate c body errors :
      struct_errors body = Ok errors →
      step (Validate body, c) (enter_loop body errors, c)
  | step_validate_panic c body msg :
      struct_errors body = Panic msg →
      step (Validate body, c) (Panicked msg, c)
  | step_loop_done c body errors :
      step (Loop body [] errors, c) (Finish body errors, c)
  | step_file_absent c body file rest errors err :
      FormFile c (Field file) = (None, err) →
      step (Loop body (file :: rest) errors, c)
           (Loop body rest (required_check file None errors), c)
  | step_file_error c body file rest errors fh e :
      FormFile c (Field file) = (Some fh, Some e) →
      step (Loop body (file :: rest) errors, c)
           (Return (Some (file_retrieval_error file e)), c)
  | step_file_present c body file rest errors fh :
      FormFile c (Field file) = (Some fh, None) →
      step (Loop body (file :: rest) errors, c)
           (Check body file rest (required_check file (Some fh) errors) fh, c)
  | step_check_violation c body file rest errors fh errorFile :
      Rule.File (Field file) fh (Extension file) (Size file) = Some errorFile →
      step (Check body file rest errors fh, c)
           (Loop body rest (errors ++ [file_error file errorFile]), c)
  | step_check_pass c body file rest errors fh :
      Rule.File (Field file) fh (Extension file) (Size file) = None →
      ImageRes file = None →
      step (Check body file rest errors fh, c) (Loop body rest errors, c)
  | step_open c body file rest errors fh res bytes c' :
      Rule.File (Field file) fh (Extension file) (Size file) = None →
      ImageRes file = Some res →
      Open fh c = Ok (Some bytes, c') →
      step (Check body file rest errors fh, c)
           (Decoding body file rest errors res bytes, c')
  | step_open_failure c body file rest errors fh res c' :
      Rule.File (Field file) fh (Extension file) (Size file) = None →
      ImageRes file = Some res →
      Open fh c = Ok (None, c') →
      step (Check body file rest errors fh, c)
           (Panicked "invalid memory address or nil pointer dereference", c')
  | step_close c body file rest errors res bytes u c' :
      Close c = Ok (u, c') →
      step (Decoding body file rest errors res bytes, c)
           (Loop body rest
              (errors ++ added file
                 (Rule.check_resolution (Field file) bytes (Width res) (Width res))), c')
  | step_respond c body errors r c' :
      0 < length errors →
      respond errors c = Ok (r, c') →
      step (Finish body errors, c) (Return r, c')
  | step_locals c body errors u c' :
      ¬ 0 < length errors →
      Locals "request" (to_any body) c = Ok (u, c') →
      step (Finish body errors, c) (Forward body, c')
  | step_next c body r c' :
      next c = Ok (r, c') →
      step (Forward body, c) (Return r, c')
  | step_next_panic c body msg :
      next c = Panic msg →
      step (Forward body, c) (Panicked msg, c).

(** ** The relation as a function *)

(** The configuration after the effect [m], at the point [k] chooses. *)
Definition exec {A} (m : M Ctx A) (k : A → pc) (c : Ctx) : config :=
  match m c with
  | Ok (a, c') => (k a, c')
  | Panic msg => (Panicked msg, c)
  end.

Definition next_config (cfg : config) : option config :=
  let '(p, c) := cfg in
  match p with
  | Decode =>
      match decode_body c with
      | inl e => Some (Return (Some e), c)
      | inr body => Some (Validate body, c)
      end
  | Validate body =>
      match struct_errors body with
      | Ok errors => Some (enter_loop body errors, c)
      | Panic msg => Some (Panicked msg, c)
      end
  | Loop body [] errors => Some (Finish body errors, c)
  | Loop body (file :: rest) errors =>
      let '(fileHeader, err) := FormFile c (Field file) in
      let errors := required_check file fileHeader errors in
      match fileHeader, err with
      | None, _ => Some (Loop body rest errors, c)
      | Some fh, Some e => Some (Return (Some (file_retrieval_error file e)), c)
      | Some fh, None => Some (Check body file rest errors fh, c)
      end
  | Check body file rest errors fh =>
      match Rule.File (Field file) fh (Extension file) (Size file) with
      | Some errorFile => Some (Loop body rest (errors ++ [file_error file errorFile]), c)
      | None =>
          match ImageRes file with
          | None => Some (Loop body rest errors, c)
          | Some res =>
              Some (exec (Open fh)
                      (λ file',
                         match file' with
                         | Some bytes => Decoding body file rest errors res bytes
                         | None =>
                             Panicked "invalid memory address or nil pointer dereference"
                         end) c)
          end
      end
  | Decoding body file rest errors res bytes =>
      let errorResolution :=
        Rule.check_resolution (Field file) bytes (Width res) (Width res) in
      Some (exec Close (λ _, Loop body rest (errors ++ added file errorResolution)) c)
  | Finish body errors =>
      if decide (0 < length errors) then Some (exec (respond errors) Return c)
      else Some (exec (Locals "request" (to_any body)) (λ _, Forward body) c)
  | Forward body => Some (exec next Return c)
  | Return _ | Panicked _ => None
  end.

(** [n] transitions, or as many as there are. *)
Fixpoint run (n : nat) (cfg : config) : config :=
  match n with
  | O => cfg
  | S n' =>
      match next_config cfg with
      | Some cfg' => run n' cfg'
      | None => cfg
      end
  end.

(** The handler has returned or panicked. *)
Definition terminal (cfg : config) : Prop :=
  match cfg.1 with
  | Return _ | Panicked _ => True
  | _ => False
  end.

#[export] Instance terminal_dec cfg : Decision (terminal cfg).
Proof. unfold terminal. destruct cfg.1; apply _. Defined.

(** What the caller of the handler sees of a terminal configuration. *)
Definition outcome (cfg : config) : option (go (option error * Ctx)) :=
  match cfg.1 with
  | Return r => Some (Ok (r, cfg.2))
  | Panicked msg => Some (Panic msg)
  | _ => None
  end.

(** ** Measure: the transitions that may remain *)

Definition measure (cfg : config) : nat :=
  match cfg.1 with
  | Decode => 3 * length (default [] files) + 5
  | Validate _ => 3 * length (default [] files) + 4
  | Loop _ rest _ => 3 * length rest + 3
  | Check _ _ rest _ _ => 3 * length rest + 5
  | Decoding _ _ rest _ _ _ => 3 * length rest + 4
  | Finish _ _ => 2
  | Forward _ => 1
  | Return _ | Panicked _ => 0
  end.

(** ** The outcome of the function from a program point *)

(** The return after the loop. *)
Definition after_loop (body : T) (r : error + list ErrorResponse) : M Ctx (option error) :=
  match r with
  | inl e => mret (Some e)
  | inr errors => finish next body errors
  end.

Definition loop_from (body : T) (rest : list ValidateFile) (errors : list ErrorResponse)
    : M Ctx (option error) :=
  r ← foldM_break (validate_file NewRule) rest errors; after_loop body r.

Definition sem (cfg : config) : go (option error * Ctx) :=
  let '(p, c) := cfg in
  match p with
  | Decode => ValidateStruct next files c
  | Validate body =>
      (errors ← lift_go (struct_errors body);
       r ← validate_files NewRule files errors;
       after_loop body r) c
  | Loop body rest errors => loop_from body rest errors c
  | Check body file rest errors fh =>
      match Rule.File (Field file) fh (Extension file) (Size file) with
      | Some errorFile => loop_from body rest (errors ++ [file_error file errorFile]) c
      | None =>
          match ImageRes file with
          | None => loop_from body rest errors c
          | Some res =>
              (e ← Rule.Resolution (Field file) fh (Width res) (Width res);
               loop_from body rest (errors ++ added file e)) c
          end
      end
  | Decoding body file rest errors res bytes =>
      (Close;;
       loop_from body rest
         (errors ++ added file
            (Rule.check_resolution (Field file) bytes (Width res) (Width res)))) c
  | Finish body errors => finish next body errors c
  | Forward body => next c
  | Return r => Ok (r, c)
  | Panicked msg => Panic msg
  end.

(** ** The invariant of a run from the context [c0] *)

(** The violations after the rules [done]: what the loop of the function
    returns on them in the context [c0], started from the violations of
    the struct validator. *)
Definition collected (c0 : Ctx) (body : T) (done : list ValidateFile)
    (errors : list ErrorResponse) : Prop :=
  ∃ errs, struct_errors body = Ok errs ∧
          foldM_break (validate_file NewRule) done errs c0 = Ok (inr errors, c0).

(** Their shape: after the violations [errs], at most one for each rule,
    under the rule's field and with one of the four tags, in the order of
    the rules. *)
Definition one_per_rule (done : list ValidateFile) (errs errors : list ErrorResponse)
    : Prop :=
  ∃ newss, errors = errs ++ concat newss ∧
    Forall2 (λ file new, length new ≤ 1 ∧ Forall (violation_of file) new) done newss.

(** The loop is at [rest], after the rules [done]. *)
Definition checked (done rest : list ValidateFile) : Prop :=
  default [] files = done ++ rest.

(** What holds at a program point. *)
Definition at_point (c0 : Ctx) (cfg : config) : Prop :=
  match cfg.1 with
  | Decode => cfg.2 = c0
  | Validate body => cfg.2 = c0 ∧ decode_body c0 = inr body
  | Loop body rest errors =>
      cfg.2 = c0 ∧ decode_body c0 = inr body ∧
      ∃ done, checked done rest ∧ collected c0 body done errors
  | Check body file rest errors fh =>
      cfg.2 = c0 ∧ decode_body c0 = inr body ∧
      FormFile c0 (Field file) = (Some fh, None) ∧
      ∃ done, checked done (file :: rest) ∧ collected c0 body done errors
  | Decoding body file rest errors res bytes =>
      cfg.2 = set_open_files S c0 ∧ decode_body c0 = inr body ∧
      (∃ fh, FormFile c0 (Field file) = (Some fh, None) ∧
             Rule.File (Field file) fh (Extension file) (Size file) = None ∧
             ImageRes file = Some res ∧ FileContent fh = Some bytes) ∧
      ∃ done, checked done (file :: rest) ∧ collected c0 body done errors
  | Finish body errors =>
      cfg.2 = c0 ∧ decode_body c0 = inr body ∧
      collected c0 body (default [] files) errors
  | Forward body =>
      cfg.2 = set_locals <["request" := to_any body]> c0 ∧ decode_body c0 = inr body ∧
      collected c0 body (default [] files) []
  | Return _ | Panicked _ => True
  end.

(** The invariant of a run from [c0]: the function's outcome from the
    configuration is the outcome of the call; the context is the one the
    call started in, but for the stream that is open while an image is
    decoded and the local set before the next handler; the violations are
    those the function's loop returns on the rules already checked. *)
Definition wf (c0 : Ctx) (cfg : config) : Prop :=
  sem cfg = ValidateStruct next files c0 ∧ at_point c0 cfg.

End machine.

Arguments pc : clear implicits.
Arguments config : clear implicits.

(** ** The function and the relation agree *)

Section transitions.
Context {T : Type}.
Context {BD : BodyDecoder T} {FV : FieldValidator T} {SG : Stringy} {ID : ImageDecoder}.
Context {RS : Responder ErrorResponse}.
Context (next : M Ctx (option error)) (files : option (list ValidateFile)).
Implicit Types (cfg : config T) (c : Ctx) (body : T).

Lemma exec_Ok {A} (m : M Ctx A) (k : A → pc T) c a c' :
  m c = Ok (a, c') → exec m k c = (k a, c').
Proof. unfold exec. by intros ->. Qed.

Lemma exec_Panic {A} (m : M Ctx A) (k : A → pc T) c msg :
  m c = Panic msg → exec m k c = (Panicked msg, c).
Proof. unfold exec. by intros ->. Qed.

Lemma step_next_config cfg cfg' :
  step next files cfg cfg' → next_config next files cfg = Some cfg'.
Proof.
  destruct 1; simplify_eq/=;
    repeat match goal with H : ?x = _ |- context [?x] => rewrite H end;
    rewrite ?decide_True, ?decide_False by done;
    first [done|by erewrite exec_Ok by eassumption|by erewrite exec_Panic by eassumption].
Qed.

(** The effects of the handler itself never panic: only the struct
    validator, a failed [Open] and the next handler do. *)
Lemma Open_is_Ok fh c : is_Ok (Open fh c).
Proof. unfold Open. destruct (FileContent fh); by eexists. Qed.

Lemma Close_is_Ok c : is_Ok (Close c).
Proof. by eexists. Qed.

Lemma Locals_is_Ok key v c : is_Ok (Locals key v c).
Proof. by eexists. Qed.

Lemma respond_is_Ok errors c : is_Ok (respond errors c).
Proof.
  rewrite respond_run. unfold JSON. destruct (JSONEncoder _); by eexists.
Qed.

Lemma next_config_step cfg cfg' :
  next_config next files cfg = Some cfg' → step next files cfg cfg'.
Proof.
  destruct cfg as [[] c]; cbn -[Open Close Locals respond]; unfold exec;
    intros; repeat case_match; simplify_eq; try by econstructor.
  all: exfalso;
    match goal with
    | H : ?m = Panic _ |- _ =>
        assert (is_Ok m) as [? ?]
          by first [apply Open_is_Ok|apply Close_is_Ok|apply Locals_is_Ok|apply respond_is_Ok];
        congruence
    end.
Qed.

Lemma step_iff cfg cfg' : step next files cfg cfg' ↔ next_config next files cfg = Some cfg'.
Proof. split; [apply step_next_config|apply next_config_step]. Qed.

Lemma step_deterministic : deterministic (step next files).
Proof. intros cfg cfg1 cfg2 H1%step_iff H2%step_iff. congruence. Qed.

(** Progress: only a terminal configuration has no successor. *)
Lemma next_config_None cfg : next_config next files cfg = None ↔ terminal cfg.
Proof.
  destruct cfg as [[] c]; cbn; repeat case_match; naive_solver.
Qed.

Lemma terminal_nf cfg : terminal cfg ↔ nf (step next files) cfg.
Proof.
  rewrite <-next_config_None. unfold nf, red. split.
  - intros H [cfg' Hs%step_iff]. congruence.
  - intros H. destruct (next_config next files cfg) as [cfg'|] eqn:E; [|done].
    destruct H. exists cfg'. by apply step_iff.
Qed.

Lemma step_progress cfg : ¬ terminal cfg → red (step next files) cfg.
Proof.
  rewrite <-next_config_None. intros H.
  destruct (next_config next files cfg) as [cfg'|] eqn:E; [|done].
  exists cfg'. by apply step_iff.
Qed.

(** Every transition uses up some of the measure. *)
Lemma step_measure cfg cfg' :
  step next files cfg cfg' → measure files cfg' < measure files cfg.
Proof.
  destruct 1; unfold measure, enter_loop; cbn; try lia.
  destruct files as [[|file rest]|]; cbn; lia.
Qed.

End transitions.

(** ** Every transition preserves the outcome of the function *)

Section agreement.
Context {T : Type}.
Context {BD : BodyDecoder T} {FV : FieldValidator T} {SG : Stringy} {ID : ImageDecoder}.
Context {RS : Responder ErrorResponse}.
Context (next : M Ctx (option error)) (files : option (list ValidateFile)).
Implicit Types (cfg : config T) (c : Ctx) (body : T).
Implicit Types (file : ValidateFile) (rest : list ValidateFile) (errors : list ErrorResponse).

Lemma loop_from_nil body errors c :
  loop_from next body [] errors c = finish next body errors c.
Proof. done. Qed.

Lemma loop_from_cons body file rest errors c :
  loop_from next body (file :: rest) errors c =
  match validate_file NewRule file errors c with
  | Ok (inl e, c') => Ok (Some e, c')
  | Ok (inr errors', c') => loop_from next body rest errors' c'
  | Panic msg => Panic msg
  end.
Proof.
  unfold loop_from. msimpl. rewrite foldM_break_cons.
  by destruct (validate_file NewRule file errors c) as [[[e|errors'] c']|].
Qed.

Lemma sem_enter_loop body errors c :
  sem next files (enter_loop files body errors, c) =
  (r ← validate_files NewRule files errors; after_loop next body r) c.
Proof. by destruct files as [[|file rest]|]. Qed.

Lemma sem_Decode_error c e :
  decode_body c = inl e → sem next files (Decode, c) = Ok (Some e, c).
Proof. intros H. cbn [sem]. unfold ValidateStruct. msimpl. by rewrite H. Qed.

Lemma sem_Decode c body :
  decode_body c = inr body → sem next files (Decode, c) = sem next files (Validate body, c).
Proof. intros H. cbn [sem]. unfold ValidateStruct. msimpl. by rewrite H. Qed.

Lemma sem_Validate c body errors :
  struct_errors body = Ok errors →
  sem next files (Validate body, c) = sem next files (enter_loop files body errors, c).
Proof. intros H. rewrite sem_enter_loop. cbn [sem]. msimpl. by rewrite H. Qed.

Lemma sem_Validate_panic c body msg :
  struct_errors body = Panic msg → sem next files (Validate body, c) = Panic msg.
Proof. intros H. cbn [sem]. msimpl. by rewrite H. Qed.

Lemma sem_Loop_absent c body file rest errors err :
  FormFile c (Field file) = (None, err) →
  sem next files (Loop body (file :: rest) errors, c) =
  sem next files (Loop body rest (required_check file None errors), c).
Proof.
  intros H. cbn [sem]. rewrite loop_from_cons, (validate_file_absent _ _ _ _ err H).
  unfold required_check. by destruct (IsRequired file); rewrite ?app_nil_r.
Qed.

Lemma sem_Loop_error c body file rest errors fh e :
  FormFile c (Field file) = (Some fh, Some e) →
  sem next files (Loop body (file :: rest) errors, c) =
  Ok (Some (file_retrieval_error file e), c).
Proof.
  intros H. cbn [sem]. by rewrite loop_from_cons, (validate_file_retrieval_error _ _ _ _ fh e H).
Qed.

Lemma required_check_present file fh errors : required_check file (Some fh) errors = errors.
Proof. unfold required_check. by destruct (IsRequired file). Qed.

Lemma sem_Loop_present c body file rest errors fh :
  FormFile c (Field file) = (Some fh, None) →
  sem next files (Loop body (file :: rest) errors, c) =
  sem next files (Check body file rest (required_check file (Some fh) errors) fh, c).
Proof.
  intros H. rewrite required_check_present. cbn [sem]. rewrite loop_from_cons.
  destruct (Rule.File _ _ _ _) as [errorFile|] eqn:Hf.
  { by rewrite (validate_file_violation NewRule _ _ _ fh errorFile). }
  destruct (ImageRes file) as [res|] eqn:Hr.
  - rewrite (validate_file_resolution NewRule _ _ _ fh res) by done. cbn [sem]. msimpl.
    change (@Resolution NewRule) with (Rule.Resolution (ID := ID)).
    by destruct (Rule.Resolution _ _ _ _ c) as [[e c']|].
  - by rewrite (validate_file_no_resolution NewRule _ _ _ fh).
Qed.

Lemma sem_Check_open c body file rest errors fh res bytes c' :
  Rule.File (Field file) fh (Extension file) (Size file) = None →
  ImageRes file = Some res → Open fh c = Ok (Some bytes, c') →
  sem next files (Check body file rest errors fh, c) =
  sem next files (Decoding body file rest errors res bytes, c').
Proof.
  intros Hf Hr Ho. cbn [sem]. rewrite Hf, Hr. unfold Rule.Resolution.
  rewrite M_bind_assoc, (M_bind_Ok _ _ _ _ _ Ho). by rewrite M_bind_assoc.
Qed.

Lemma sem_Check_open_failure c body file rest errors fh res c' :
  Rule.File (Field file) fh (Extension file) (Size file) = None →
  ImageRes file = Some res → Open fh c = Ok (None, c') →
  sem next files (Check body file rest errors fh, c) =
  Panic "invalid memory address or nil pointer dereference".
Proof.
  intros Hf Hr Ho. cbn [sem]. rewrite Hf, Hr. unfold Rule.Resolution.
  by rewrite M_bind_assoc, (M_bind_Ok _ _ _ _ _ Ho).
Qed.

Lemma sem_Finish_locals c body errors u c' :
  ¬ 0 < length errors → Locals "request" (to_any body) c = Ok (u, c') →
  sem next files (Finish body errors, c) = sem next files (Forward body, c').
Proof.
  intros Hl [= <- <-]. cbn [sem]. unfold finish. by rewrite decide_False.
Qed.

Lemma step_sem cfg cfg' : step next files cfg cfg' → sem next files cfg' = sem next files cfg.
Proof.
  destruct 1; symmetry;
    eauto using sem_Decode_error, sem_Decode, sem_Validate, sem_Validate_panic,
      sem_Loop_absent, sem_Loop_error, sem_Loop_present, sem_Check_open,
      sem_Check_open_failure, sem_Finish_locals;
    cbn [sem]; repeat case_match; simplify_eq; try done.
  - by rewrite (M_bind_Ok _ _ _ _ _ H).
  - unfold finish. by rewrite decide_True.
Qed.

(** The outcome of the function stays the same along a run, and at a
    terminal configuration it is what the caller sees. *)
Lemma rtc_step_sem cfg cfg' :
  rtc (step next files) cfg cfg' → sem next files cfg' = sem next files cfg.
Proof. induction 1 as [|cfg1 cfg2 cfg3 Hs _ IH]; [done|]. by rewrite IH, (step_sem _ _ Hs). Qed.

Lemma outcome_sem cfg : terminal cfg → outcome cfg = Some (sem next files cfg).
Proof. by destruct cfg as [[] c]. Qed.

Lemma outcome_terminal cfg : is_Some (outcome cfg) ↔ terminal cfg.
Proof. destruct cfg as [[] c]; cbn; by rewrite ?is_Some_alt. Qed.

(** ** Running the machine *)

Lemma run_terminal n cfg : terminal cfg → run next files n cfg = cfg.
Proof.
  intros H. apply (next_config_None next files) in H. destruct n; [done|]. cbn. by rewrite H.
Qed.

Lemma run_step n cfg cfg' :
  step next files cfg cfg' → run next files (S n) cfg = run next files n cfg'.
Proof. intros H%step_iff. cbn. by rewrite H. Qed.

Lemma run_reachable n cfg : rtc (step next files) cfg (run next files n cfg).
Proof.
  revert cfg. induction n as [|n IH]; intros cfg; [done|]. cbn.
  destruct (next_config next files cfg) as [cfg'|] eqn:E; [|done].
  apply rtc_l with cfg'; [by apply step_iff|apply IH].
Qed.

(** With the measure as fuel the run ends in a terminal configuration. *)
Lemma run_measure n cfg :
  measure files cfg ≤ n → terminal (run next files n cfg).
Proof.
  revert cfg. induction n as [|n IH]; intros cfg Hm.
  - destruct cfg as [[] c]; cbn in *; try done; lia.
  - cbn [run]. destruct (next_config next files cfg) as [cfg'|] eqn:E.
    + apply IH. apply step_iff, step_measure in E. lia.
    + by apply (next_config_None next files).
Qed.

Lemma terminates cfg :
  ∃ cfg', bsteps (step next files) (measure files cfg) cfg cfg' ∧ terminal cfg'.
Proof.
  remember (measure files cfg) as n eqn:Hn. revert cfg Hn.
  induction n as [n IH] using lt_wf_ind; intros cfg ->.
  destruct (decide (terminal cfg)) as [Ht|Ht]; [exists cfg; by split; [constructor|]|].
  destruct (step_progress next files cfg Ht) as [cfg1 Hs].
  pose proof (step_measure _ _ _ _ Hs) as Hm.
  destruct (IH _ Hm cfg1 eq_refl) as (cfg' & Hb & Hterm). exists cfg'. split; [|done].
  destruct (measure files cfg) as [|m]; [lia|].
  apply bsteps_l with cfg1; [done|]. eapply bsteps_weaken; [|done]. lia.
Qed.

Lemma step_sn cfg : sn (step next files) cfg.
Proof.
  remember (measure files cfg) as n eqn:Hn. revert cfg Hn.
  induction n as [n IH] using lt_wf_ind; intros cfg ->.
  constructor. intros cfg' Hs. apply (IH (measure files cfg')); [|done].
  by apply step_measure with next.
Qed.

End agreement.

(** ** The invariant is preserved *)

Section invariant.
Context {T : Type}.
Context {BD : BodyDecoder T} {FV : FieldValidator T} {SG : Stringy} {ID : ImageDecoder}.
Context {RS : Responder ErrorResponse}.
Context (next : M Ctx (option error)) (files : option (list ValidateFile)).
Implicit Types (cfg : config T) (c : Ctx) (body : T).
Implicit Types (file : ValidateFile) (rest done : list ValidateFile).
Implicit Types (errors new : list ErrorResponse).

Lemma required_check_absent file errors :
  required_check file None errors =
  errors ++ if IsRequired file then [required_error file] else [].
Proof. unfold required_check. by destruct (IsRequired file); rewrite ?app_nil_r. Qed.

Lemma collected_nil (c0 : Ctx) body errors :
  struct_errors body = Ok errors → collected c0 body [] errors.
Proof. intros H. by exists errors. Qed.

(** One more rule. *)
Lemma collected_snoc (c0 : Ctx) body done errors file errors' :
  collected c0 body done errors →
  validate_file NewRule file errors c0 = Ok (inr errors', c0) →
  collected c0 body (done ++ [file]) errors'.
Proof.
  intros (errs & Hs & Hd) Hf. exists errs. split; [done|].
  by rewrite foldM_break_app, Hd, foldM_break_cons, Hf.
Qed.

Lemma collected_resolution (c0 : Ctx) body done errors file fh res bytes :
  collected c0 body done errors →
  FormFile c0 (Field file) = (Some fh, None) →
  Rule.File (Field file) fh (Extension file) (Size file) = None →
  ImageRes file = Some res → FileContent fh = Some bytes →
  collected c0 body (done ++ [file])
    (errors ++ added file
       (Rule.check_resolution (Field file) bytes (Width res) (Width res))).
Proof.
  intros Hc Hff Hf Hr Hb. apply collected_snoc with errors; [done|].
  rewrite (validate_file_resolution NewRule _ _ _ fh res) by done.
  change (@Resolution NewRule) with (Rule.Resolution (ID := ID)).
  by rewrite (Resolution_run _ _ _ _ _ bytes Hb).
Qed.

(** Nothing collected: nothing from the struct validator and nothing from
    the rules. *)
Lemma collected_none (c0 : Ctx) body done :
  collected c0 body done [] ↔
  struct_errors body = Ok [] ∧
  foldM_break (validate_file NewRule) done [] c0 = Ok (inr [], c0).
Proof.
  split; [|intros [Hs Hd]; by exists []].
  intros (errs & Hs & Hd). rewrite <-validate_files_Some, validate_files_acc in Hd.
  rewrite validate_files_Some in Hd.
  destruct (foldM_break _ done [] c0) as [[[e|new] c1]|]; simplify_eq.
  by destruct errs, new.
Qed.

(** The shape of what the loop returns. *)
Lemma foldM_break_one_per_rule done errs c errors c' :
  foldM_break (validate_file NewRule) done errs c = Ok (inr errors, c') →
  one_per_rule done errs errors.
Proof.
  revert errs c. induction done as [|file done IH]; intros errs c.
  { intros [= <- <-]. exists []. by rewrite app_nil_r. }
  rewrite foldM_break_cons, validate_file_acc.
  destruct (validate_file NewRule file [] c) as [[[e|new] c1]|] eqn:Hf; [done| |done].
  destruct (validate_file_inv NewRule _ _ _ _ Hf) as (-> & Hlen & Hnew).
  intros (newss & -> & Hall)%IH. exists (new :: newss).
  split; [by rewrite <-app_assoc|by constructor].
Qed.

Lemma collected_one_per_rule (c0 : Ctx) body done errors :
  collected c0 body done errors →
  ∃ errs, struct_errors body = Ok errs ∧ one_per_rule done errs errors.
Proof. intros (errs & Hs & Hd). exists errs. eauto using foldM_break_one_per_rule. Qed.

Lemma checked_next done file rest :
  checked files done (file :: rest) → checked files (done ++ [file]) rest.
Proof. unfold checked. intros ->. by rewrite <-app_assoc. Qed.

Lemma checked_all done : checked files done [] → default [] files = done.
Proof. unfold checked. intros ->. by rewrite app_nil_r. Qed.

Lemma at_point_enter_loop (c0 : Ctx) body errors :
  decode_body c0 = inr body → struct_errors body = Ok errors →
  at_point files c0 (enter_loop files body errors, c0).
Proof.
  intros Hb Hs. unfold enter_loop, at_point.
  destruct files as [[|file rest]|] eqn:Hf; cbn; split_and!; try done;
    try (by apply collected_nil).
  exists []. split; [done|by apply collected_nil].
Qed.

(** The loop moves on to [rest] with the violations [errors']. *)
Lemma at_point_Loop (c0 : Ctx) body done file rest errors errors' :
  decode_body c0 = inr body → checked files done (file :: rest) →
  collected c0 body done errors →
  validate_file NewRule file errors c0 = Ok (inr errors', c0) →
  at_point files c0 (Loop body rest errors', c0).
Proof.
  intros Hb Hd Hc Hf. split_and!; [done..|]. exists (done ++ [file]).
  split; [by apply checked_next|by eapply collected_snoc].
Qed.

(** One transition. *)
Lemma step_at_point (c0 : Ctx) cfg cfg' :
  at_point files c0 cfg → step next files cfg cfg' → at_point files c0 cfg'.
Proof.
  intros Hw Hs. destruct Hs; unfold at_point in Hw; cbn [fst snd] in Hw; try done;
    destruct_and?;
    repeat match goal with H : ∃ _, _ |- _ => destruct H as (? & H) end;
    destruct_and?; simplify_eq.
  - done.
  - by apply at_point_enter_loop.
  - unfold at_point; cbn. by erewrite checked_all.
  - eapply at_point_Loop; [done..|].
    by rewrite required_check_absent; eapply validate_file_absent.
  - rewrite required_check_present. unfold at_point; cbn. eauto 10.
  - eapply at_point_Loop; [done..|]. by eapply validate_file_violation.
  - eapply at_point_Loop; [done..|]. by eapply validate_file_no_resolution.
  - match goal with H : Open _ _ = _ |- _ => apply Open_inv in H as [? ->] end.
    unfold at_point; cbn. eauto 12.
  - match goal with H : Close _ = _ |- _ => apply Close_inv in H as -> end.
    rewrite set_open_files_pred_S. unfold at_point; cbn. split_and!; [done..|].
    eexists. split; [by apply checked_next|by eapply collected_resolution].
  - match goal with H : Locals _ _ _ = _ |- _ => apply Locals_inv in H as -> end.
    unfold at_point; cbn. split_and!; [done..|]. by destruct errors; [|cbn in *; lia].
Qed.

Lemma step_wf (c0 : Ctx) cfg cfg' :
  wf next files c0 cfg → step next files cfg cfg' → wf next files c0 cfg'.
Proof.
  intros [Hsem Hp] Hs. split; [|by eapply step_at_point].
  by rewrite (step_sem _ _ _ _ Hs).
Qed.

Lemma wf_init (c0 : Ctx) : wf next files c0 (Decode, c0).
Proof. done. Qed.

Lemma rtc_step_wf (c0 : Ctx) cfg cfg' :
  wf next files c0 cfg → rtc (step next files) cfg cfg' → wf next files c0 cfg'.
Proof. intros Hw Hs. induction Hs; eauto using step_wf. Qed.

(** One stream is open while an image is decoded, and none that the call
    opened at any other point of a run. *)
Lemma reachable_open_files (c0 : Ctx) cfg :
  rtc (step next files) (Decode, c0) cfg → ¬ terminal cfg →
  ctx_open_files cfg.2 =
  match cfg.1 with
  | Decoding _ _ _ _ _ _ => S (ctx_open_files c0)
  | _ => ctx_open_files c0
  end.
Proof.
  intros [_ Hp]%(rtc_step_wf c0 _ _ (wf_init c0)) Ht.
  destruct cfg as [[] c]; cbn in *; destruct_and?; by subst.
Qed.

(** ** What the function returns, the machine reaches *)

(** The transitions of a rule whose header is present without error. *)
Lemma Check_reaches body file rest errors fh c errors' c' :
  FormFile c (Field file) = (Some fh, None) →
  validate_file NewRule file errors c = Ok (inr errors', c') →
  rtc (step next files) (Check body file rest errors fh, c) (Loop body rest errors', c').
Proof.
  intros Hff. destruct (Rule.File (Field file) fh (Extension file) (Size file))
    as [errorFile|] eqn:Hf.
  { rewrite (validate_file_violation NewRule _ _ _ fh errorFile) by done.
    intros [= <- <-]. by apply rtc_once, step_check_violation. }
  destruct (ImageRes file) as [res|] eqn:Hr.
  - rewrite (validate_file_resolution NewRule _ _ _ fh res) by done.
    change (@Resolution NewRule) with (Rule.Resolution (ID := ID)).
    destruct (Rule.Resolution _ _ _ _ c) as [[e c1]|] eqn:HR; [|done]. intros [= <- <-].
    apply Resolution_inv in HR as (bytes & Hb & -> & ->).
    eapply rtc_l; [by eapply step_open, Open_Some|].
    apply rtc_once. rewrite <-(set_open_files_pred_S c) at 2. by eapply step_close.
  - rewrite (validate_file_no_resolution NewRule _ _ _ fh) by done.
    intros [= <- <-]. by apply rtc_once, step_check_pass.
Qed.

(** One turn of the loop. *)
Lemma Loop_reaches_next body file rest errors c errors' c' :
  validate_file NewRule file errors c = Ok (inr errors', c') →
  rtc (step next files) (Loop body (file :: rest) errors, c) (Loop body rest errors', c').
Proof.
  destruct (FormFile c (Field file)) as [[fh|] [e|]] eqn:Hff.
  - by rewrite (validate_file_retrieval_error NewRule _ _ _ fh e).
  - intros H. eapply rtc_l; [by apply step_file_present|].
    rewrite required_check_present. by apply Check_reaches.
  - rewrite (validate_file_absent NewRule _ _ _ (Some e)) by done. intros [= <- <-].
    rewrite <-required_check_absent. by eapply rtc_once, step_file_absent.
  - rewrite (validate_file_absent NewRule _ _ _ None) by done. intros [= <- <-].
    rewrite <-required_check_absent. by eapply rtc_once, step_file_absent.
Qed.

(** The loop, when no rule aborts it. *)
Lemma Loop_reaches_Finish body rest errors c errors' c' :
  foldM_break (validate_file NewRule) rest errors c = Ok (inr errors', c') →
  rtc (step next files) (Loop body rest errors, c) (Finish body errors', c').
Proof.
  revert errors c. induction rest as [|file rest IH]; intros errors c.
  - intros [= <- <-]. apply rtc_once, step_loop_done.
  - rewrite foldM_break_cons.
    destruct (validate_file NewRule file errors c) as [[[e|errors1] c1]|] eqn:Hv; [done| |done].
    intros H. etrans; [by apply Loop_reaches_next|by apply IH].
Qed.

Lemma Validate_reaches_Finish body errs c errors' c' :
  struct_errors body = Ok errs →
  validate_files NewRule files errs c = Ok (inr errors', c') →
  rtc (step next files) (Validate body, c) (Finish body errors', c').
Proof.
  intros Hs Hv. eapply rtc_l; [by apply step_validate|].
  revert Hv. generalize files at 1 3. intros [[|file rest]|]; cbn [validate_files enter_loop].
  - by intros [= <- <-].
  - by apply Loop_reaches_Finish.
  - by intros [= <- <-].
Qed.

(** ** The theorems of the machine *)

(** C18: every configuration of a run of the handler from the context [c0]
    satisfies the invariant [wf]: the outcome of the function from that
    point is the outcome of the call, the file checks have left the context
    as it was but for the one stream open while an image is decoded, and
    the violations are those the loop of the function returns on the rules
    already checked (by [collected_one_per_rule]: the struct validator's,
    then at most one for each rule, in the order of the rules). *)
Theorem reachable_wf (c0 : Ctx) cfg :
  rtc (step next files) (Decode, c0) cfg → wf next files c0 cfg.
Proof. apply rtc_step_wf, wf_init. Qed.

(** C17: the handler terminates, and the machine computes the function:
    run for three transitions per declared rule and five more, the machine
    is in a terminal configuration whose outcome is the result of
    [ValidateStruct]. *)
Theorem run_ValidateStruct c :
  outcome (run next files (3 * length (default [] files) + 5) (Decode, c)) =
  Some (ValidateStruct next files c).
Proof.
  rewrite (outcome_sem next files) by (by apply run_measure).
  by rewrite (rtc_step_sem next files (Decode, c) _ (run_reachable next files _ _)).
Qed.

(** C19: the call of the next handler is reached exactly by the requests
    whose body decodes and in which neither the struct validator nor the
    file rules find a violation, and then with the decoded value stored
    under the local ["request"] of the context the call started in. *)
Theorem next_reached_iff c body c' :
  rtc (step next files) (Decode, c) (Forward body, c') ↔
  decode_body c = inr body ∧ struct_errors body = Ok [] ∧
  validate_files NewRule files [] c = Ok (inr [], c) ∧
  c' = set_locals <["request" := to_any body]> c.
Proof.
  rewrite validate_files_fold. split.
  - intros [_ Hp]%(rtc_step_wf c _ _ (wf_init c)). destruct Hp as (Hc' & Hb & Hc).
    by apply collected_none in Hc as [Hs Hv].
  - intros (Hb & Hs & Hv & ->). rewrite <-validate_files_fold in Hv.
    eapply rtc_l; [by apply step_decode|].
    etrans; [by eapply Validate_reaches_Finish|].
    by eapply rtc_once, step_locals; [cbn; lia|].
Qed.

End invariant.

(** ** The machine at concrete requests *)

Section witnesses.
Import Demo.

Lemma reachable_wf_witness :
  wf next_handler (Some [avatar_rule true square100]) accepted_request
    (run next_handler (Some [avatar_rule true square100]) 4 (Decode, accepted_request)).
Proof. apply reachable_wf, run_reachable. Defined.

(** The accepted request reaches the next handler; the rejected sign-up
    does not. *)
Example accepted_request_forwarded :
  rtc (step next_handler (Some [avatar_rule true square100])) (Decode, accepted_request)
    (Forward alice (T := SignUp),
     set_locals <["request" := to_any alice]> accepted_request).
Proof. by apply next_reached_iff. Qed.

Example rejected_request_not_forwarded (body : SignUp) (c' : Ctx) :
  ¬ rtc (step next_handler (Some [avatar_rule true None]))
      (Decode, request "al" "" None) (Forward body, c').
Proof. by intros (? & ? & ? & ?)%next_reached_iff; simplify_eq/=. Qed.

(** The accepted request: four transitions lead into the decoding of the
    image, with its stream open; eight end the run with the next handler's
    status. *)
Example run_accepted_decoding :
  run next_handler (Some [avatar_rule true square100]) 4 (Decode, accepted_request) =
  (Decoding alice (avatar_rule true square100) [] [] {| Width := 100; Height := 100 |}
     (image 100 100),
   set_open_files S accepted_request).
Proof. vm_compute. done. Qed.

Example run_accepted_outcome :
  outcome (run next_handler (Some [avatar_rule true square100]) 8 (Decode, accepted_request)) =
  Some (next_handler (set_locals <["request" := to_any alice]> accepted_request)).
Proof. vm_compute. done. Qed.

End witnesses.
