(* ===== verification/Pagination.v ===== *)
(** * Pagination: [GetPagination] of [pagination.go]

    The helper reads [page], [per_page], [order_field] and [order_direction]
    from the query string.  An absent or empty argument takes its default
    (1, 10, ["id"], ["desc"]); a number [strconv.Atoi] rejects, an order
    field outside the caller's allow-list or a direction other than ["desc"]
    and ["asc"] is an error.  The offset is [(page - 1) * perPage] in [int]
    arithmetic.  The function only reads the context. *)

From S2P Require Import Prelude GoStrings GoInt Fiber.

Local Open Scope Z_scope.

Record RespPagination : Type := {
  Page : Z;
  PerPage : Z;
  Offset : Z;
  OrderField : string;
  OrderDirection : string;
  Search : string;
}.

#[export] Instance RespPagination_eq_dec : EqDecision RespPagination.
Proof. solve_decision. Defined.

(** The interface [IPagination]. *)
Class IPagination : Type :=
  GetPagination : Ctx → list string → error + RespPagination.

Module Pagination.

(** [page := 1; if c.Query("page") != "" { ... }] *)
Definition parse_page (c : Ctx) : error + Z :=
  if decide (Query c "page" ≠ "") then
    match Atoi (Query c "page") with
    | None => inl (errors_New "Invalid page")
    | Some pageInt => inr pageInt
    end
  else inr 1.

(** [perPage := 10; if c.Query("per_page") != "" { ... }] *)
Definition parse_per_page (c : Ctx) : error + Z :=
  if decide (Query c "per_page" ≠ "") then
    match Atoi (Query c "per_page") with
    | None => inl (errors_New "Invalid perPage")
    | Some perPageInt => inr perPageInt
    end
  else inr 10.

(** [offset := (page - 1) * perPage] *)
Definition offset_of (page perPage : Z) : Z := int_mul (int_sub page 1) perPage.

(** [orderField := "id"; if c.Query("order_field") != "" { ... }] *)
Definition order_field (c : Ctx) (allowOrderField : list string) : error + string :=
  if decide (Query c "order_field" ≠ "") then
    if negb (Contains allowOrderField (Query c "order_field")) then
      inl (errors_New "Invalid order field")
    else inr (Query c "order_field")
  else inr "id".

Definition directions : list string := ["desc"; "asc"].

(** [orderDirection := "desc"; if c.Query("order_direction") != "" { ... }] *)
Definition order_direction (c : Ctx) : error + string :=
  if decide (Query c "order_direction" ≠ "") then
    if negb (Contains directions (Query c "order_direction")) then
      inl (errors_New "Invalid order direction")
    else inr (Query c "order_direction")
  else inr "desc".

Definition GetPagination (c : Ctx) (allowOrderField : list string)
    : error + RespPagination :=
  page ← parse_page c;
  perPage ← parse_per_page c;
  let offset := offset_of page perPage in
  orderField ← order_field c allowOrderField;
  orderDirection ← order_direction c;
  mret {| Page := page; PerPage := perPage; Offset := offset;
          OrderField := orderField; OrderDirection := orderDirection;
          Search := "" |}.

End Pagination.

(** [NewPagination()] *)
Definition NewPagination : IPagination := Pagination.GetPagination.

(** ** Properties *)

Section pagination.
Implicit Types (c : Ctx) (allow : list string) (r : RespPagination) (e : error).

Import Pagination.

Definition error_messages : list error :=
  [errors_New "Invalid page"; errors_New "Invalid perPage";
   errors_New "Invalid order field"; errors_New "Invalid order direction"].

(** Each step, by the conditions of the source. *)

Lemma parse_page_default c : Query c "page" = "" → parse_page c = inr 1.
Proof. unfold parse_page. intros ->. by rewrite decide_False by (by intros []). Qed.

Lemma parse_page_number c n :
  Atoi (Query c "page") = Some n → parse_page c = inr n.
Proof.
  unfold parse_page. intros H. rewrite H.
  case_decide as Hq; [done|]. by rewrite Hq in H.
Qed.

Lemma parse_page_invalid c :
  Query c "page" ≠ "" → Atoi (Query c "page") = None →
  parse_page c = inl (errors_New "Invalid page").
Proof. unfold parse_page. intros Hq ->. by rewrite decide_True. Qed.

Lemma parse_per_page_default c : Query c "per_page" = "" → parse_per_page c = inr 10.
Proof. unfold parse_per_page. intros ->. by rewrite decide_False by (by intros []). Qed.

Lemma parse_per_page_number c n :
  Atoi (Query c "per_page") = Some n → parse_per_page c = inr n.
Proof.
  unfold parse_per_page. intros H. rewrite H.
  case_decide as Hq; [done|]. by rewrite Hq in H.
Qed.

Lemma parse_per_page_invalid c :
  Query c "per_page" ≠ "" → Atoi (Query c "per_page") = None →
  parse_per_page c = inl (errors_New "Invalid perPage").
Proof. unfold parse_per_page. intros Hq ->. by rewrite decide_True. Qed.

Lemma parse_page_in_int c n : parse_page c = inr n → in_int n.
Proof.
  unfold parse_page. case_decide; [|by intros [= <-]].
  destruct (Atoi _) eqn:E; [|done]. intros [= <-]. eauto with go.
Qed.

Lemma parse_per_page_in_int c n : parse_per_page c = inr n → in_int n.
Proof.
  unfold parse_per_page. case_decide; [|by intros [= <-]].
  destruct (Atoi _) eqn:E; [|done]. intros [= <-]. eauto with go.
Qed.

Lemma order_field_cases c allow :
  order_field c allow =
  if decide (Query c "order_field" = "") then inr "id"
  else if decide (Query c "order_field" ∈ allow) then inr (Query c "order_field")
  else inl (errors_New "Invalid order field").
Proof.
  unfold order_field. rewrite Contains_bool_decide.
  repeat case_decide; try done; by case_bool_decide.
Qed.

Lemma order_direction_cases c :
  order_direction c =
  if decide (Query c "order_direction" = "") then inr "desc"
  else if decide (Query c "order_direction" ∈ directions) then inr (Query c "order_direction")
  else inl (errors_New "Invalid order direction").
Proof.
  unfold order_direction. rewrite Contains_bool_decide.
  repeat case_decide; try done; by case_bool_decide.
Qed.



Lemma GetPagination_steps c allow page perPage fld dir :
  parse_page c = inr page → parse_per_page c = inr perPage →
  order_field c allow = inr fld → order_direction c = inr dir →
  GetPagination c allow =
  inr {| Page := page; PerPage := perPage; Offset := offset_of page perPage;
         OrderField := fld; OrderDirection := dir; Search := "" |}.
Proof. unfold GetPagination. msimpl. by intros -> -> -> ->. Qed.

Lemma GetPagination_fields c allow r :
  GetPagination c allow = inr r →
  parse_page c = inr (Page r) ∧ parse_per_page c = inr (PerPage r) ∧
  Offset r = offset_of (Page r) (PerPage r) ∧
  order_field c allow = inr (OrderField r) ∧ order_direction c = inr (OrderDirection r).
Proof.
  unfold GetPagination. msimpl.
  destruct (parse_page c) as [?|page], (parse_per_page c) as [?|perPage],
    (order_field c allow) as [?|fld], (order_direction c) as [?|dir]; try done.
  by intros [= <-].
Qed.

(** Without query arguments the result is page 1 of 10 rows, offset 0,
    ordered by ["id"] descending. *)
Lemma GetPagination_defaults c allow :
  Query c "page" = "" → Query c "per_page" = "" →
  Query c "order_field" = "" → Query c "order_direction" = "" →
  GetPagination c allow =
  inr {| Page := 1; PerPage := 10; Offset := 0; OrderField := "id";
         OrderDirection := "desc"; Search := "" |}.
Proof.
  intros Hp Hn Hf Hd.
  rewrite (GetPagination_steps c allow 1 10 "id" "desc");
    [done|by apply parse_page_default|by apply parse_per_page_default|..].
  - rewrite order_field_cases. by rewrite decide_True.
  - rewrite order_direction_cases. by rewrite decide_True.
Qed.

(** C38: the order field of a result is ["id"] or an element of the
    caller's allow-list, and the direction is ["desc"] or ["asc"]: no other
    text of the query string reaches the result. *)
Theorem GetPagination_order_safe c allow r :
  GetPagination c allow = inr r →
  (OrderField r = "id" ∨ OrderField r ∈ allow) ∧ OrderDirection r ∈ directions.
Proof.
  intros (_ & _ & _ & Hf & Hd)%GetPagination_fields.
  rewrite order_field_cases in Hf. rewrite order_direction_cases in Hd.
  split.
  - clear Hd. repeat case_decide; simplify_eq; first [by left|right; congruence].
  - clear Hf. repeat case_decide; simplify_eq; [|congruence].
    unfold directions. set_solver.
Qed.

(** Page and page size of a result are in the range of [int], and so is the
    offset, which is [(page - 1) * perPage] when that product is in range
    and the page is at least 1. *)
Lemma GetPagination_offset_exact c allow r :
  GetPagination c allow = inr r →
  in_int (Page r) ∧ in_int (PerPage r) ∧ in_int (Offset r) ∧
  (1 ≤ Page r → in_int ((Page r - 1) * PerPage r) →
   Offset r = (Page r - 1) * PerPage r).
Proof.
  intros (Hp & Hn & -> & _)%GetPagination_fields.
  apply parse_page_in_int in Hp. apply parse_per_page_in_int in Hn.
  split_and!; [done|done|apply wrap_in_int|]. intros H1 Hr. unfold offset_of.
  rewrite int_sub_exact; [by apply int_mul_exact|].
  revert Hp. unfold in_int, int_min, int_max, int_size. lia.
Qed.

(** The offset is congruent to [(page - 1) * perPage] modulo [2^64]. *)
Lemma GetPagination_offset_congruent c allow r :
  GetPagination c allow = inr r →
  (Offset r - (Page r - 1) * PerPage r) `mod` 2 ^ 64 = 0.
Proof.
  intros (Hp & _ & -> & _)%GetPagination_fields. unfold offset_of, int_mul, int_sub.
  pose proof (wrap_congr (wrap (Page r - 1) * PerPage r)) as H1.
  pose proof (wrap_congr (Page r - 1)) as H2. unfold int_size in *.
  apply Z.mod_divide in H1, H2; try done. apply Z.mod_divide; [done|].
  destruct H1 as [k1 H1], H2 as [k2 H2]. exists (k1 + k2 * PerPage r). lia.
Qed.

(** C39: the offset is an [int] product: it is in the range of [int] and
    congruent to [(page - 1) * perPage] modulo [2^64] whatever the
    arguments, and equal to it when the page is at least 1 and the product is
    in range; outside it wraps around. *)
Theorem GetPagination_offset_wraps c allow r :
  GetPagination c allow = inr r →
  in_int (Offset r) ∧
  (Offset r - (Page r - 1) * PerPage r) `mod` 2 ^ 64 = 0 ∧
  (1 ≤ Page r → in_int ((Page r - 1) * PerPage r) → Offset r = (Page r - 1) * PerPage r).
Proof.
  intros H. destruct (GetPagination_offset_exact _ _ _ H) as (_ & _ & Hr & He).
  by split_and!; [|apply (GetPagination_offset_congruent c allow)|].
Qed.

(** C40: numbers printed in decimal are read back: a page and a page size
    given as [%d] prints of [int] values are the page and page size of the
    result. *)
Theorem GetPagination_reads_decimal c allow p n :
  in_int p → in_int n →
  Query c "page" = FormatInt p → Query c "per_page" = FormatInt n →
  Query c "order_field" = "" → Query c "order_direction" = "" →
  GetPagination c allow =
  inr {| Page := p; PerPage := n; Offset := offset_of p n; OrderField := "id";
         OrderDirection := "desc"; Search := "" |}.
Proof.
  intros Hp Hn Hqp Hqn Hf Hd.
  apply GetPagination_steps.
  - apply parse_page_number. rewrite Hqp. by apply Atoi_FormatInt_in_range.
  - apply parse_per_page_number. rewrite Hqn. by apply Atoi_FormatInt_in_range.
  - rewrite order_field_cases. by rewrite decide_True.
  - rewrite order_direction_cases. by rewrite decide_True.
Qed.

(** An error of [GetPagination] is one of the four messages. *)
Lemma GetPagination_error_messages c allow e :
  GetPagination c allow = inl e → e ∈ error_messages.
Proof.
  unfold GetPagination, error_messages. msimpl.
  unfold parse_page, parse_per_page.
  rewrite order_field_cases, order_direction_cases.
  intros H. repeat case_match; simplify_eq; set_solver.
Qed.

(** An order field outside the allow-list is refused, whatever the
    other arguments, once page and page size are accepted. *)
Lemma GetPagination_rejects_unlisted_field c allow :
  is_inr (parse_page c) → is_inr (parse_per_page c) →
  Query c "order_field" ≠ "" → Query c "order_field" ∉ allow →
  GetPagination c allow = inl (errors_New "Invalid order field").
Proof.
  intros [page Hp] [perPage Hn] Hne Hnot. unfold GetPagination. msimpl.
  rewrite Hp, Hn, order_field_cases. by rewrite !decide_False.
Qed.

End pagination.

(** ** The theorems at concrete requests *)

Section witnesses.
Import Pagination.

Definition query (args : gmap string string) : Ctx := new_ctx "" args ∅.

Definition listing : Ctx :=
  query {["page" := "3"; "per_page" := "20"; "order_field" := "name";
          "order_direction" := "asc"]}.

Definition listing_result : RespPagination :=
  {| Page := 3; PerPage := 20; Offset := 40; OrderField := "name";
     OrderDirection := "asc"; Search := "" |}.

Example GetPagination_listing :
  GetPagination listing ["name"; "created_at"] = inr listing_result.
Proof. vm_compute. reflexivity. Qed.



Lemma GetPagination_defaults_witness :
  GetPagination (query ∅) [] =
  inr {| Page := 1; PerPage := 10; Offset := 0; OrderField := "id";
         OrderDirection := "desc"; Search := "" |}.
Proof. by apply GetPagination_defaults. Defined.

Lemma GetPagination_order_safe_witness :
  ("name" = "id" ∨ "name" ∈ ["name"; "created_at"]) ∧ "asc" ∈ directions.
Proof.
  by apply (GetPagination_order_safe listing ["name"; "created_at"] listing_result).
Defined.

Lemma GetPagination_offset_exact_witness :
  in_int 3 ∧ in_int 20 ∧ in_int 40 ∧ (1 ≤ 3 → in_int ((3 - 1) * 20) → 40 = (3 - 1) * 20).
Proof.
  by apply (GetPagination_offset_exact listing ["name"; "created_at"] listing_result).
Defined.

(** Page [2^62 + 1] with 4 rows per page: the offset [2^64] wraps to 0. *)
Definition far_page : Ctx :=
  query {["page" := "4611686018427387905"; "per_page" := "4"]}.

Definition far_result : RespPagination :=
  {| Page := 4611686018427387905; PerPage := 4; Offset := 0; OrderField := "id";
     OrderDirection := "desc"; Search := "" |}.

Lemma GetPagination_offset_wraps_witness :
  in_int 0 ∧
  (0 - (4611686018427387905 - 1) * 4) `mod` 2 ^ 64 = 0 ∧
  (1 ≤ 4611686018427387905 → in_int ((4611686018427387905 - 1) * 4) →
   0 = (4611686018427387905 - 1) * 4).
Proof. by apply (GetPagination_offset_wraps far_page [] far_result). Defined.

Lemma GetPagination_reads_decimal_witness :
  GetPagination (query {["page" := "-7"; "per_page" := "250"]}) [] =
  inr {| Page := -7; PerPage := 250; Offset := -2000; OrderField := "id";
         OrderDirection := "desc"; Search := "" |}.
Proof.
  by apply (GetPagination_reads_decimal (query {["page" := "-7"; "per_page" := "250"]})
              [] (-7) 250).
Defined.

Lemma GetPagination_error_messages_witness :
  errors_New "Invalid order direction" ∈ error_messages.
Proof.
  by apply (GetPagination_error_messages (query {["order_direction" := "ASC"]}) []).
Defined.

Lemma GetPagination_rejects_unlisted_field_witness :
  GetPagination (query {["order_field" := "password; DROP TABLE users"]}) ["name"] =
  inl (errors_New "Invalid order field").
Proof.
  apply GetPagination_rejects_unlisted_field; [by eexists|by eexists|done|compute_done].
Defined.

End witnesses.
