(* ===== verification/Stateless.v ===== *)
(** * Stateless: the verdict depends on the request only

    The handlers keep no state between calls: what [ValidateStruct] and
    [GetPagination] answer is determined by the request a context carries
    (its body, its query arguments and its form files), whatever earlier
    handlers wrote into the status, the response or the locals.

    Contexts that carry the same request are made equivalent ([≡]), and so
    are outcomes with the same value in equivalent contexts.  The operations
    of the context, the rule checker, the loop over the rules and
    [ValidateStruct] are [Proper] for these relations, provided the body
    decoder reads the request only ([BodyDecoderProper]).  Idempotence
    follows: validating again in the context a rejection or an abort has
    left gives the same answer and the same context.  So does the
    independence of pagination from validation, and what two validators on
    one route hand to the handler behind them. *)

From S2P Require Import Prelude GoStrings GoInt GoFloat Fiber Rules Fixtures Validator.
From S2P Require Import Pagination.

(** ** Contexts that carry the same request *)

#[export] Instance same_request : Equiv Ctx := λ c1 c2,
  ctx_body c1 = ctx_body c2 ∧ ctx_query c1 = ctx_query c2 ∧ ctx_form c1 = ctx_form c2.

(** Outcomes: the same panic, or the same value in contexts that carry the
    same request. *)
#[export] Instance same_outcome {A} : Equiv (go (A * Ctx)) := λ o1 o2,
  match o1, o2 with
  | Ok (a1, c1), Ok (a2, c2) => a1 = a2 ∧ c1 ≡ c2
  | Panic m1, Panic m2 => m1 = m2
  | _, _ => False
  end.

(** A body decoder that reads the request only. *)
Class BodyDecoderProper (T : Type) {BD : BodyDecoder T} : Prop :=
  BodyParser_proper : Proper ((≡) ==> (=)) (BodyParser (T := T)).

#[export] Existing Instance BodyParser_proper.

(** The next handler is not reached: a handler that would panic in its
    place. *)
Definition unreachable : M Ctx (option error) := panic "next handler called".

(** ** The relations are equivalences *)

#[export] Instance same_request_equivalence : Equivalence (≡@{Ctx}).
Proof.
  unfold equiv, same_request. split.
  - by intros c.
  - intros c1 c2. naive_solver.
  - intros c1 c2 c3. naive_solver congruence.
Qed.

#[export] Instance same_outcome_equivalence {A} : Equivalence (≡@{go (A * Ctx)}).
Proof.
  unfold equiv at 1, same_outcome. split.
  - by intros [[a c]|msg].
  - intros [[a1 c1]|m1] [[a2 c2]|m2]; naive_solver.
  - intros [[a1 c1]|m1] [[a2 c2]|m2] [[a3 c3]|m3]; try done.
    + intros [-> H12] [-> H23]. split; [done|by etrans].
    + congruence.
Qed.

Lemma same_outcome_Ok {A} (o : go (A * Ctx)) a c :
  o ≡ Ok (a, c) ↔ ∃ c', o = Ok (a, c') ∧ c' ≡ c.
Proof.
  destruct o as [[a' c']|msg]; unfold equiv at 1, same_outcome; [|naive_solver].
  split; [intros [-> Hc]; eauto|naive_solver].
Qed.

Lemma same_outcome_Panic {A} (o : go (A * Ctx)) msg : o ≡ Panic msg ↔ o = Panic msg.
Proof. destruct o as [[a' c']|msg']; unfold equiv, same_outcome; naive_solver. Qed.

(** ** The operations of the context respect the request *)

Lemma set_locals_equiv f c : set_locals f c ≡ c.
Proof. done. Qed.

Lemma set_status_equiv status c : set_status status c ≡ c.
Proof. done. Qed.

Lemma set_response_equiv raw ctype c : set_response raw ctype c ≡ c.
Proof. done. Qed.

Lemma set_open_files_equiv f c : set_open_files f c ≡ c.
Proof. done. Qed.

#[export] Instance FormFile_proper : Proper ((≡) ==> (=) ==> (=)) FormFile.
Proof. intros c1 c2 (_ & _ & Hf) key ? <-. unfold FormFile. by rewrite Hf. Qed.

#[export] Instance Query_proper : Proper ((≡) ==> (=) ==> (=)) Query.
Proof. intros c1 c2 (_ & Hq & _) key ? <-. unfold Query. by rewrite Hq. Qed.

Section monad.
Context {A B : Type}.

Lemma mret_proper (a : A) : Proper ((≡) ==> (≡)) (mret a : M Ctx A).
Proof. by intros c1 c2 Hc. Qed.

Lemma panic_proper msg : Proper ((≡) ==> (≡)) (panic msg : M Ctx A).
Proof. by intros c1 c2 Hc. Qed.

Lemma lift_go_proper (m : go A) : Proper ((≡) ==> (≡)) (lift_go m : M Ctx A).
Proof. intros c1 c2 Hc. unfold lift_go. by destruct m. Qed.

Lemma modify_proper (f : Ctx → Ctx) :
  (∀ c, f c ≡ c) → Proper ((≡) ==> (≡)) (modify f).
Proof.
  intros Hf c1 c2 Hc. split; [done|]. by rewrite !Hf.
Qed.

Lemma bind_proper (m : M Ctx A) (f : A → M Ctx B) :
  Proper ((≡) ==> (≡)) m → (∀ a, Proper ((≡) ==> (≡)) (f a)) →
  Proper ((≡) ==> (≡)) (m ≫= f).
Proof.
  intros Hm Hf c1 c2 Hc. specialize (Hm c1 c2 Hc). msimpl.
  destruct (m c1) as [[a1 c1']|m1], (m c2) as [[a2 c2']|m2]; try done.
  destruct Hm as [-> Hc']. by apply Hf.
Qed.

End monad.

#[export] Instance Status_proper status : Proper ((≡) ==> (≡)) (Status status).
Proof. apply modify_proper. intros c. apply set_status_equiv. Qed.

#[export] Instance Locals_proper key v : Proper ((≡) ==> (≡)) (Locals key v).
Proof. apply modify_proper. intros c. apply set_locals_equiv. Qed.

#[export] Instance Close_proper : Proper ((≡) ==> (≡)) Close.
Proof. apply modify_proper. intros c. apply set_open_files_equiv. Qed.

#[export] Instance Open_proper fh : Proper ((≡) ==> (≡)) (Open fh).
Proof.
  unfold Open. destruct (FileContent fh); [|apply mret_proper].
  apply bind_proper; [|intros; apply mret_proper].
  apply modify_proper. intros c. apply set_open_files_equiv.
Qed.

#[export] Instance JSON_proper raw : Proper ((≡) ==> (≡)) (JSON raw).
Proof.
  unfold JSON. destruct raw; [apply mret_proper|].
  apply bind_proper; [|intros; apply mret_proper].
  apply modify_proper. intros c. apply set_response_equiv.
Qed.

(** ** The validator respects the request *)

Section validator.
Context {T : Type}.
Context {BD : BodyDecoder T} {FV : FieldValidator T} {SG : Stringy} {ID : ImageDecoder}.
Context {RS : Responder ErrorResponse}.
Context {BP : BodyDecoderProper T}.
Implicit Types (next : M Ctx (option error)) (files : option (list ValidateFile)).
Implicit Types (file : ValidateFile) (errors : list ErrorResponse) (c : Ctx).

#[export] Instance Resolution_proper fieldName fh w h :
  Proper ((≡) ==> (≡)) (Rule.Resolution fieldName fh w h).
Proof.
  apply bind_proper; [apply _|]. intros [bytes|]; [|apply panic_proper].
  apply bind_proper; [apply _|]. intros; apply mret_proper.
Qed.

(** The loop body reads the form and nothing else. *)
#[export] Instance validate_file_proper file errors :
  Proper ((≡) ==> (≡)) (validate_file NewRule file errors).
Proof.
  intros c1 c2 Hc.
  destruct (FormFile c1 (Field file)) as [[fh|] err] eqn:H1;
    pose proof H1 as H2; rewrite Hc in H2.
  - destruct err as [e|].
    { by rewrite !(validate_file_retrieval_error NewRule _ _ _ fh e). }
    destruct (Rule.File (Field file) fh (Extension file) (Size file)) as [ef|] eqn:Hf.
    { by rewrite !(validate_file_violation NewRule _ _ _ fh ef). }
    destruct (ImageRes file) as [res|] eqn:Hr.
    + rewrite !(validate_file_resolution NewRule _ _ _ fh res) by done.
      change (@Resolution NewRule) with (Rule.Resolution (ID := ID)).
      pose proof (Resolution_proper (Field file) fh (Width res) (Width res) _ _ Hc) as HR.
      destruct (Rule.Resolution _ _ _ _ c1) as [[e1 c1']|],
        (Rule.Resolution _ _ _ _ c2) as [[e2 c2']|]; try done.
      by destruct HR as [-> ?].
    + by rewrite !(validate_file_no_resolution NewRule _ _ _ fh).
  - by rewrite !(validate_file_absent NewRule _ _ _ err).
Qed.

Lemma foldM_break_proper {E A B} (body : B → A → M Ctx (E + A)) (l : list B) :
  (∀ b a, Proper ((≡) ==> (≡)) (body b a)) →
  ∀ acc, Proper ((≡) ==> (≡)) (foldM_break body l acc).
Proof.
  intros Hb. induction l as [|b l IH]; intros acc; [apply mret_proper|].
  intros c1 c2 Hc. rewrite !foldM_break_cons. specialize (Hb b acc c1 c2 Hc).
  destruct (body b acc c1) as [[[e1|a1] c1']|m1], (body b acc c2) as [[[e2|a2] c2']|m2];
    try done; destruct Hb as [? Hc']; simplify_eq; first [done|by apply IH].
Qed.

#[export] Instance validate_files_proper files errors :
  Proper ((≡) ==> (≡)) (validate_files NewRule files errors).
Proof.
  rewrite validate_files_fold. apply foldM_break_proper. intros; apply _.
Qed.

#[export] Instance respond_proper errors : Proper ((≡) ==> (≡)) (respond errors).
Proof.
  unfold respond. destruct (ValidateFailed errors "") as [status resData].
  apply bind_proper; [apply _|]. intros; apply _.
Qed.

Lemma forward_proper next (body : T) :
  Proper ((≡) ==> (≡)) next → Proper ((≡) ==> (≡)) (forward next body).
Proof. intros Hn. apply bind_proper; [apply _|done]. Qed.

Lemma finish_proper next (body : T) errors :
  Proper ((≡) ==> (≡)) next → Proper ((≡) ==> (≡)) (finish next body errors).
Proof. intros Hn. unfold finish. case_decide; [apply _|by apply forward_proper]. Qed.

(** [ValidateStruct] as a function of the decoded body. *)
Lemma ValidateStruct_unfold next files c :
  ValidateStruct next files c =
  match decode_body c with
  | inl e => Ok (Some e, c)
  | inr body =>
      (errors ← lift_go (struct_errors body);
       r ← validate_files NewRule files errors;
       match r with
       | inl e => mret (Some e)
       | inr errors => finish next body errors
       end) c
  end.
Proof. unfold ValidateStruct. msimpl. by destruct (decode_body c). Qed.

Lemma decode_body_proper : Proper ((≡) ==> (=)) (decode_body (T := T)).
Proof. intros c1 c2 Hc. unfold decode_body. by rewrite Hc. Qed.

(** What [respond] writes: answering again changes nothing. *)
Lemma respond_equiv errors c res c' : respond errors c = Ok (res, c') → c' ≡ c.
Proof.
  rewrite respond_run. unfold JSON. destruct (JSONEncoder _); by intros [= <- <-].
Qed.

Lemma respond_again errors c res c' :
  respond errors c = Ok (res, c') → respond errors c' = Ok (res, c').
Proof.
  rewrite !respond_run. unfold JSON. destruct (JSONEncoder _); by intros [= <- <-].
Qed.

Lemma validate_files_again files errors c r c' :
  validate_files NewRule files errors c = Ok (r, c) → c' ≡ c →
  validate_files NewRule files errors c' = Ok (r, c').
Proof.
  intros Hv Hc. pose proof (validate_files_proper files errors _ _ Hc) as H.
  rewrite Hv in H. apply same_outcome_Ok in H as (c1 & H & _).
  by rewrite (validate_files_frame NewRule _ _ _ _ _ H) in H.
Qed.

(** C21: the outcome of [ValidateStruct] depends on the request only: in two
    contexts that carry the same body, query arguments and form files, it
    panics alike or returns the same error in contexts that still carry the
    same request, when the body decoder and the next handler read nothing
    else. *)
Theorem ValidateStruct_proper next files :
  Proper ((≡) ==> (≡)) next → Proper ((≡) ==> (≡)) (ValidateStruct next files).
Proof.
  intros Hn c1 c2 Hc. rewrite !ValidateStruct_unfold, (decode_body_proper _ _ Hc).
  destruct (decode_body c2) as [e|body]; [done|].
  apply bind_proper; [apply lift_go_proper| |done].
  intros errs. apply bind_proper; [apply _|].
  intros [e|errors]; [apply mret_proper|by apply finish_proper].
Qed.

(** C22: validation is idempotent: when a call ends without reaching the next
    handler (with an error or with the failure response), a second call in
    the context the first has left returns the same result and leaves that
    context as it is. *)
Theorem ValidateStruct_idempotent next files c res c' :
  ValidateStruct unreachable files c = Ok (res, c') →
  ValidateStruct next files c' = Ok (res, c').
Proof.
  rewrite !ValidateStruct_unfold. destruct (decode_body c) as [e|body] eqn:Hd.
  { intros [= <- <-]. by rewrite Hd. }
  msimpl. destruct (struct_errors body) as [errs|] eqn:Hs; [|done].
  destruct (validate_files NewRule files errs c) as [[r c1]|] eqn:Hv; [|done].
  pose proof (validate_files_frame NewRule _ _ _ _ _ Hv) as ->.
  destruct r as [e|errors].
  { intros [= <- <-]. by rewrite Hd, Hs, Hv. }
  unfold finish. case_decide; [|done]. intros Hr.
  pose proof (respond_equiv _ _ _ _ Hr) as Hc.
  rewrite (decode_body_proper _ _ Hc), Hd, Hs.
  rewrite (validate_files_again _ _ _ _ _ Hv Hc), decide_True by done.
  by apply respond_again with c.
Qed.

End validator.

(** ** Pagination reads the query only *)



Section independence.
Context {T : Type}.
Context {BD : BodyDecoder T} {FV : FieldValidator T} {SG : Stringy} {ID : ImageDecoder}.
Context {RS : Responder ErrorResponse}.
Implicit Types (next : M Ctx (option error)) (files : option (list ValidateFile)).



(** An acceptable request is handed to the next handler with the local
    set. *)
Lemma ValidateStruct_accept next files c (body : T) :
  decode_body c = inr body → struct_errors body = Ok [] →
  validate_files NewRule files [] c = Ok (inr [], c) →
  ValidateStruct next files c = next (set_locals <["request" := to_any body]> c).
Proof. intros Hd Hs Hv. rewrite ValidateStruct_unfold, Hd. msimpl. by rewrite Hs, Hv. Qed.

End independence.

(** ** Two validators on one route *)

Section stacked.
Context {A B : Type}.
Context {BDA : BodyDecoder A} {FVA : FieldValidator A}.
Context {BDB : BodyDecoder B} {FVB : FieldValidator B} {BPB : BodyDecoderProper B}.
Context {SG : Stringy} {ID : ImageDecoder} {RS : Responder ErrorResponse}.
Implicit Types (next : M Ctx (option error)) (files : option (list ValidateFile)).

Lemma set_locals_overwrite key (v1 v2 : any) c :
  set_locals <[key := v2]> (set_locals <[key := v1]> c) = set_locals <[key := v2]> c.
Proof. unfold set_locals. cbn. by rewrite insert_insert_eq. Qed.

(** The local [request] is the only hand-off: when a second validator runs
    behind a first, for another type, the handler behind both finds the
    second object and not the first. *)
Theorem stacked_validators next filesA filesB c (a : A) (b : B) :
  decode_body c = inr a → struct_errors a = Ok [] →
  validate_files NewRule filesA [] c = Ok (inr [], c) →
  decode_body c = inr b → struct_errors b = Ok [] →
  validate_files NewRule filesB [] c = Ok (inr [], c) →
  ValidateStruct (T := A) (ValidateStruct (T := B) next filesB) filesA c =
  next (set_locals <["request" := to_any b]> c).
Proof.
  intros Ha Hsa Hva Hb Hsb Hvb. rewrite (ValidateStruct_accept _ _ _ a) by done.
  rewrite (ValidateStruct_accept _ _ _ b), ?set_locals_overwrite; [done| |done|].
  - by rewrite (decode_body_proper _ c) by apply set_locals_equiv.
  - by apply validate_files_again with c; [|apply set_locals_equiv].
Qed.

End stacked.

(** ** The collaborators of the examples, and the theorems at concrete
    requests *)

Section witnesses.
Import Demo.

#[export] Instance demo_body_decoder_proper : BodyDecoderProper SignUp.
Proof.
  intros c1 c2 Hc. unfold BodyParser, body_decoder.
  rewrite (Query_proper _ _ Hc _ _ eq_refl). by destruct Hc as (-> & _).
Qed.

Lemma next_handler_proper : Proper ((≡) ==> (≡)) next_handler.
Proof. apply bind_proper; [apply _|]. intros; apply mret_proper. Qed.

(** The accepted request again, after an earlier handler has set a status
    and a local. *)
Definition touched_request : Ctx :=
  set_status 500 (set_locals <["user" := to_any 7]> accepted_request).

Lemma ValidateStruct_proper_witness :
  ValidateStruct next_handler (Some [avatar_rule true square100]) touched_request ≡
  ValidateStruct next_handler (Some [avatar_rule true square100]) accepted_request.
Proof. by apply (ValidateStruct_proper next_handler _ next_handler_proper). Defined.

(** The context the rejected sign-up is answered in. *)
Definition rejected_answer : Ctx :=
  set_response "name:min:3;email:required:;avatar:file_extension:.jpg, .png"
    MIMEApplicationJSON
    (set_status 422 (request "al" "" (Some (upload "me.gif" 10 "")))).

Lemma ValidateStruct_idempotent_witness :
  ValidateStruct next_handler (Some [avatar_rule true None]) rejected_answer =
  Ok (None, rejected_answer).
Proof.
  by apply (ValidateStruct_idempotent next_handler _
              (request "al" "" (Some (upload "me.gif" 10 "")))).
Defined.

End witnesses.
