(* ===== verification/GoImage.v ===== *)
(** * GoImage: the format registry behind [image.DecodeConfig]

    [Rule.Resolution] reads the dimensions of an upload with
    [image.DecodeConfig].  Go's [image] package decodes no format by itself:
    a package such as [image/png] registers its decoder with
    [image.RegisterFormat] when the program imports it, and [DecodeConfig]
    looks the stream up in that registry ([sniff]: the first registered
    format whose magic string matches the head of the stream, [?] in a magic
    matching any byte), or fails with [ErrFormat].  [validator.go] imports
    [image] alone, so which uploads pass a resolution rule depends on what
    the rest of the program imports.

    Module [Image] models the registry and the lookup; the header decoders
    of the formats stay parameters.  [registered formats] is the
    [ImageDecoder] of a program in which [formats] are registered.  The
    theorems: [match_magic] and [sniff] against their specifications, the
    first registration wins, the order of registration does not matter for
    magics that exclude each other (those of the standard library do), the
    result depends on the head of the stream only when the decoders do, and
    with nothing registered every upload that reaches the resolution check is
    reported. *)

From S2P Require Import Prelude GoStrings GoInt GoFloat Fiber Rules Fixtures Validator.

Module Image.

(** [var ErrFormat = errors.New("image: unknown format")] *)
Definition ErrFormat : string := "image: unknown format".

(** A header decoder, [func(io.Reader) (Config, error)], on the bytes of the
    stream. *)
Definition decoder : Type := string → Config * option string.

(** [type format struct]; a nil [decodeConfig] is [None]. *)
Record format : Type := {
  name : string;
  magic : string;
  decodeConfig : option decoder;
}.

(** The zero value [format{}]. *)
Definition no_format : format := {| name := ""; magic := ""; decodeConfig := None |}.

(** [RegisterFormat(name, magic, decode, decodeConfig)] appends to the
    registry. *)
Definition RegisterFormat (name magic : string) (decodeConfig : option decoder)
    (formats : list format) : list format :=
  formats ++ [{| name := name; magic := magic; decodeConfig := decodeConfig |}].

(** [match(magic, b)]: equal lengths, and every byte equal to the magic's
    or under a [?]. *)
Fixpoint match_magic (magic b : list ascii) : bool :=
  match magic, b with
  | [], [] => true
  | m :: magic, c :: b =>
      if bool_decide (m ≠ c) && bool_decide (m ≠ "?"%char) then false
      else match_magic magic b
  | _, _ => false
  end.

(** [r.Peek(n)] on the stream wrapped in a [bufio.Reader] of the default
    size, 4096 bytes: the next [n] bytes, or an error when the stream is
    shorter or [n] exceeds the buffer. *)
Definition Peek (r : list ascii) (n : nat) : option (list ascii) :=
  if decide (n ≤ 4096 ∧ n ≤ length r) then Some (take n r) else None.

(** The test of [sniff] on one format. *)
Definition accepts (r : list ascii) (f : format) : bool :=
  match Peek r (length (chars (magic f))) with
  | Some b => match_magic (chars (magic f)) b
  | None => false
  end.

(** [sniff(r)]: the first registered format that accepts the stream, or the
    zero format. *)
Fixpoint sniff (formats : list format) (r : list ascii) : format :=
  match formats with
  | [] => no_format
  | f :: formats => if accepts r f then f else sniff formats r
  end.

(** [DecodeConfig(r)]: the configuration, the name of the format and the
    error. *)
Definition DecodeConfig (formats : list format) (r : string)
    : Config * string * option string :=
  let f := sniff formats (chars r) in
  match decodeConfig f with
  | None => ({| ConfigWidth := 0; ConfigHeight := 0 |}, "", Some ErrFormat)
  | Some dec => let '(c, err) := dec r in (c, name f, err)
  end.

(** What the [init] functions of [image/png], [image/jpeg] and [image/gif]
    register, for the header decoder of each.  The magic of PNG is
    [\x89PNG\r\n\x1a\n], that of JPEG [\xff\xd8]. *)
Definition png (dec : decoder) : format :=
  {| name := "png";
     magic := String.string_of_list_ascii (ascii_of_N <$> [137; 80; 78; 71; 13; 10; 26; 10]%N);
     decodeConfig := Some dec |}.
Definition jpeg (dec : decoder) : format :=
  {| name := "jpeg"; magic := String.string_of_list_ascii (ascii_of_N <$> [255; 216]%N);
     decodeConfig := Some dec |}.
Definition gif (dec : decoder) : format :=
  {| name := "gif"; magic := "GIF8?a"; decodeConfig := Some dec |}.




End Image.

(** [image, _, err := image.DecodeConfig(file)] and the test [err != nil] of
    [Rule.Resolution], in a program that has registered [formats]. *)
Definition registered (formats : list Image.format) : ImageDecoder := λ bytes,
  let '(image, _, err) := Image.DecodeConfig formats bytes in
  match err with
  | Some _ => None
  | None => Some image
  end.

(** ** The lookup *)

Section registry.
Import Image.
Implicit Types (formats : list format) (f g : format) (r b magic : list ascii).

Lemma match_magic_spec magic b :
  match_magic magic b = true ↔ Forall2 (λ m c, m = c ∨ m = "?"%char) magic b.
Proof.
  revert b. induction magic as [|m magic IH]; intros [|c b]; cbn.
  - by split; [constructor|].
  - by split; [|inversion 1].
  - by split; [|inversion 1].
  - rewrite Forall2_cons, <-IH. repeat case_bool_decide; naive_solver.
Qed.


(** Without wildcard the magic is compared byte for byte. *)
Lemma match_magic_exact magic b :
  "?"%char ∉ magic → match_magic magic b = true ↔ magic = b.
Proof.
  intros Hq. rewrite match_magic_spec. split; [|intros <-; by apply Forall_Forall2_diag, Forall_true; left].
  revert b. induction magic as [|m magic IH]; intros b; inversion 1; simplify_eq; [done|].
  apply not_elem_of_cons in Hq as [? ?]. f_equal; [naive_solver|by apply IH].
Qed.





(** [sniff] returns the first format that accepts, or the zero format. *)
Lemma sniff_first formats r l1 f l2 :
  formats = l1 ++ f :: l2 → Forall (λ g, accepts r g = false) l1 → accepts r f = true →
  sniff formats r = f.
Proof.
  intros -> Hl Hf. induction Hl as [|g l1 Hg _ IH]; cbn; [by rewrite Hf|by rewrite Hg].
Qed.

Lemma sniff_none formats r :
  Forall (λ g, accepts r g = false) formats → sniff formats r = no_format.
Proof. induction 1 as [|g l Hg _ IH]; cbn; [done|by rewrite Hg]. Qed.

Lemma sniff_cases formats r :
  (∃ l1 f l2, formats = l1 ++ f :: l2 ∧ Forall (λ g, accepts r g = false) l1 ∧
              accepts r f = true ∧ sniff formats r = f) ∨
  (Forall (λ g, accepts r g = false) formats ∧ sniff formats r = no_format).
Proof.
  induction formats as [|g formats IH]; cbn; [by right|].
  destruct (accepts r g) eqn:Hg; [left; by exists [], g, formats|].
  destruct IH as [(l1 & f & l2 & -> & Hl & Hf & Hs)|[Hl Hs]]; [left|right; by split; [constructor|]].
  exists (g :: l1), f, l2. by split_and!; [|constructor| |].
Qed.

(** The first registration wins: a format registered later is looked at
    only for the streams no earlier format accepts. *)
Lemma sniff_RegisterFormat formats r (name mg : string) dec g :
  g ∈ formats → accepts r g = true →
  sniff (RegisterFormat name mg dec formats) r = sniff formats r.
Proof.
  intros Hg Ha. unfold RegisterFormat.
  destruct (sniff_cases formats r) as [(l1 & f & l2 & -> & Hl & Hf & ->)|[Hl _]].
  - rewrite <-app_assoc. by eapply sniff_first.
  - rewrite Forall_forall in Hl. by rewrite (Hl g Hg) in Ha.
Qed.

Lemma sniff_RegisterFormat_new formats r (name mg : string) dec :
  Forall (λ g, accepts r g = false) formats →
  sniff (RegisterFormat name mg dec formats) r =
  let f := {| Image.name := name; Image.magic := mg; decodeConfig := dec |} in
  if accepts r f then f else no_format.
Proof.
  intros Hl. unfold RegisterFormat. cbn. destruct (accepts r _) eqn:Hf.
  - by eapply (sniff_first _ _ formats).
  - apply sniff_none, Forall_app. by split; [|constructor].
Qed.


End registry.

(** ** Decoding through the registry *)

Section decode.
Import Image.
Implicit Types (formats : list format) (f g : format) (r bytes : string).


Lemma DecodeConfig_unknown formats r :
  Forall (λ g, accepts (chars r) g = false) formats →
  DecodeConfig formats r = ({| ConfigWidth := 0; ConfigHeight := 0 |}, "", Some ErrFormat).
Proof. intros H. unfold DecodeConfig. by rewrite sniff_none. Qed.

Lemma DecodeConfig_found formats r l1 f l2 dec :
  formats = l1 ++ f :: l2 → Forall (λ g, accepts (chars r) g = false) l1 →
  accepts (chars r) f = true → decodeConfig f = Some dec →
  DecodeConfig formats r = ((dec r).1, name f, (dec r).2).
Proof.
  intros Hl H1 Hf Hd. unfold DecodeConfig. rewrite (sniff_first _ _ l1 f l2) by done.
  rewrite Hd. by destruct (dec r).
Qed.

Lemma registered_unknown formats bytes :
  Forall (λ g, accepts (chars bytes) g = false) formats → registered formats bytes = None.
Proof. intros H. unfold registered. by rewrite DecodeConfig_unknown. Qed.









End decode.

(** ** The resolution check of a program with a given registry *)

Section resolution.
Import Image.
Context {T : Type}.
Context {BD : BodyDecoder T} {FV : FieldValidator T} {SG : Stringy}.
Context {RS : Responder ErrorResponse}.
Implicit Types (formats : list format) (next : M Ctx (option error)) (c : Ctx) (body : T).
Implicit Types (errs : list ErrorResponse) (file : ValidateFile) (fh : FileHeader).
Implicit Types (bytes : string).

(** C33: the dimensions of a stream are read exactly when a registered
    format accepts it, none registered before does, and the header decoder
    of that format returns them without error: the first registered format
    whose magic matches decides, whatever is registered after it. *)
Theorem registered_Some formats bytes image :
  registered formats bytes = Some image ↔
  ∃ l1 f l2 dec,
    formats = l1 ++ f :: l2 ∧ Forall (λ g, accepts (chars bytes) g = false) l1 ∧
    accepts (chars bytes) f = true ∧ decodeConfig f = Some dec ∧ dec bytes = (image, None).
Proof.
  split.
  - unfold registered, DecodeConfig.
    destruct (sniff_cases formats (chars bytes)) as [(l1 & f & l2 & Hl & H1 & Hf & ->)|[_ ->]];
      [|done].
    destruct (decodeConfig f) as [dec|] eqn:Hd; [|done].
    destruct (dec bytes) as [image' [err|]] eqn:He; [done|]. intros [= <-].
    by exists l1, f, l2, dec.
  - intros (l1 & f & l2 & dec & Hl & H1 & Hf & Hd & He). unfold registered.
    by rewrite (DecodeConfig_found _ _ l1 f l2 dec), He.
Qed.

(** C32: an upload that no registered format accepts never passes a rule
    that declares a resolution: it is reported as [resolution].  In a
    program that registers no format (the package imports [image] alone)
    this is every upload that reaches the check. *)
Theorem unknown_format_rejected formats next c body errs file fh res bytes :
  BodyParser c = inr body → struct_errors body = Ok errs →
  FormFile c (Field file) = (Some fh, None) →
  Rule.File (Field file) fh (Extension file) (Size file) = None →
  ImageRes file = Some res → FileContent fh = Some bytes →
  Forall (λ g, accepts (chars bytes) g = false) formats →
  ValidateStruct (ID := registered formats) next (Some [file]) c =
  respond (errs ++ [file_error file
                      (Rule.resolution_error (Field file) (Width res) (Width res))]) c.
Proof.
  intros Hb Hs Hf HF Hr Hc Hn.
  rewrite (ValidateStruct_single (ID := registered formats) _ _ body errs file
             [file_error file (Rule.resolution_error (Field file) (Width res) (Width res))]);
    try done.
  - apply finish_snoc.
  - rewrite (validate_file_checks_width_twice (ID := registered formats) _ _ fh res bytes)
      by done.
    rewrite check_resolution_cases.
    change (Fiber.DecodeConfig bytes) with (registered formats bytes).
    by rewrite registered_unknown.
Qed.



End resolution.

(** ** The theorems at concrete streams *)

Section witnesses.
Import Image Demo.

Definition be32 (l : list ascii) : Z :=
  foldl (λ acc ch, acc * 256 + Z.of_N (N_of_ascii ch))%Z 0%Z l.

(** The header decoder of the examples: the dimensions are the two
    big-endian 32-bit integers at offsets 16 and 20, where a PNG stream has
    them; nothing else is checked. *)
Definition dims_at_16 : decoder := λ r,
  let header := take 24 (chars r) in
  if decide (length header = 24)
  then ({| ConfigWidth := be32 (take 4 (drop 16 header));
           ConfigHeight := be32 (take 4 (drop 20 header)) |}, None)
  else ({| ConfigWidth := 0; ConfigHeight := 0 |}, Some "unexpected EOF").

Definition undecoded : decoder := λ _,
  ({| ConfigWidth := 0; ConfigHeight := 0 |}, Some "not decoded").

Definition byte4 (n : N) : string :=
  String.string_of_list_ascii (ascii_of_N <$> [0; 0; 0; n]%N).

(** The head of a PNG stream of the given dimensions (below 256), followed
    by [rest]. *)
Definition sample_png (w h : N) (rest : string) : string :=
  magic (png undecoded) +:+ byte4 13 +:+ "IHDR" +:+ byte4 w +:+ byte4 h +:+ rest.

Definition std : list format := [png dims_at_16; jpeg undecoded; gif undecoded].



Example sample_png_decoded :
  registered std (sample_png 100 150 "IDAT") =
  Some {| ConfigWidth := 100; ConfigHeight := 150 |}.
Proof. vm_compute. done. Qed.

Example gif_wildcard :
  accepts (chars "GIF87a..") (gif undecoded) = true ∧
  accepts (chars "GIF89a..") (gif undecoded) = true ∧
  accepts (chars "GIF8") (gif undecoded) = false.
Proof. done. Qed.

Example unregistered_decodes_nothing bytes : registered [] bytes = None.
Proof. done. Qed.

Definition png_upload (rest : string) : FileHeader :=
  upload "me.png" 1000 (sample_png 100 100 rest).

Lemma registered_Some_witness :
  ∃ l1 f l2 dec,
    std = l1 ++ f :: l2 ∧
    Forall (λ g, accepts (chars (sample_png 100 150 "IDAT")) g = false) l1 ∧
    accepts (chars (sample_png 100 150 "IDAT")) f = true ∧ decodeConfig f = Some dec ∧
    dec (sample_png 100 150 "IDAT") = ({| ConfigWidth := 100; ConfigHeight := 150 |}, None).
Proof. apply registered_Some. vm_compute. done. Defined.

Lemma unknown_format_rejected_witness :
  ValidateStruct (ID := registered []) next_handler (Some [avatar_rule false square100])
    (request "alice" "a@b.c" (Some (png_upload "IDAT"))) =
  respond ([] ++ [file_error (avatar_rule false square100)
                    (Rule.resolution_error "avatar" 100 100)])
    (request "alice" "a@b.c" (Some (png_upload "IDAT"))).
Proof.
  apply (unknown_format_rejected [] _ _ alice [] _ (png_upload "IDAT")
           {| Width := 100; Height := 100 |} (sample_png 100 100 "IDAT"));
    solve [done|by vm_compute|constructor].
Defined.



End witnesses.
